(** * Effect registry, animation sequencer and performance optimizer

    A shallow embedding of the orchestration core of the animation
    showcase: [PerformanceOptimizer] (src/unnamed/part_007),
    [AnimationSequencer] (src/AnimationSequencer.ts) and [EffectManager]
    (src/SceneManager.ts, second document).

    Numbers.  A JavaScript [number] is modelled as an exact rational [Q]:
    the rounding of binary64 arithmetic and the infinities are outside the
    model, and [NaN] appears only where the interpolation can make one
    out of well-formed data.  Equality of computed numbers is therefore
    [Qeq] ([==]); values that the code only copies are compared with
    Leibniz equality.  [Date.now()] is an explicit argument [now]
    (integer milliseconds) of every operation that reads the clock.

    The file has two parts: the definitions, one module per class, then
    the lemmas and theorems about them. *)

From Stdlib Require Import QArith Qround Qminmax Lqa Lia ZArith Ascii String Sorted.
From stdpp Require Import gmap strings list.

Local Open Scope Q_scope.

(** * Part I: definitions *)

(** ** Numbers and dynamically typed values *)

(** [x < y] on numbers, as a boolean. *)
Definition Qltb (x y : Q) : bool := negb (Qle_bool y x).

(** [x >= y] on numbers, as a boolean. *)
Definition Qgeb (x y : Q) : bool := Qle_bool y x.

(** [Math.max(lo, Math.min(hi, x))]. *)
Definition clamp (lo hi x : Q) : Q := Qmax lo (Qmin hi x).

(** A number that arithmetic on array elements can produce. *)
Inductive num :=
| Fin (q : Q)
| NaN.

(** A value of a property bag ([Record<string, any>]): what the default
    sequences and the effect catalog contain. *)
Inductive jsval :=
| JNum (n : num)
| JArr (l : list num)
| JStr (s : string)
| JBool (b : bool)
| JUndefined.

(** A number literal inside a bag. *)
Definition jnum (q : Q) : jsval := JNum (Fin q).

(** An array literal of numbers inside a bag. *)
Definition jarr (l : list Q) : jsval := JArr (map Fin l).

(** A property bag; the order of its keys is not observed by any
    operation modelled here. *)
Abbreviation bag := (gmap string jsval).

(** [{ ...a, ...b }]: the keys of [b] win. *)
Definition spread (a b : bag) : bag := b ∪ a.

(** ** JavaScript [Map] and plain objects, in iteration order *)

Module JsMap.

(** A [Map<string, V>]: its entries in insertion order. *)
Abbreviation t V := (list (string * V)).

Fixpoint get {V} (k : string) (m : t V) : option V :=
  match m with
  | [] => None
  | (k', v) :: m' => if decide (k = k') then Some v else get k m'
  end.

Definition has {V} (k : string) (m : t V) : bool :=
  match get k m with Some _ => true | None => false end.

(** [set] keeps the position of a key that is already present and
    appends a new one. *)
Fixpoint set {V} (k : string) (v : V) (m : t V) : t V :=
  match m with
  | [] => [(k, v)]
  | (k', v') :: m' =>
      if decide (k = k') then (k, v) :: m' else (k', v') :: set k v m'
  end.

(** The entries left by [delete]; the method's boolean is [has]. *)
Definition remove {V} (k : string) (m : t V) : t V :=
  filter (λ p, p.1 ≠ k) m.

Definition delete {V} (k : string) (m : t V) : bool * t V :=
  (has k m, remove k m).

Definition keys {V} (m : t V) : list string := m.*1.

Definition values {V} (m : t V) : list V := m.*2.

End JsMap.

Module JsObject.

(** The value of a decimal digit. *)
Definition digit (c : ascii) : option N :=
  let n := N_of_ascii c in
  if ((48 <=? n) && (n <=? 57))%N then Some (n - 48)%N else None.

Fixpoint digits (s : string) (acc : N) : option N :=
  match s with
  | EmptyString => Some acc
  | String c s' =>
      match digit c with
      | Some d => digits s' (acc * 10 + d)%N
      | None => None
      end
  end.

(** A property key that is an array index: the canonical decimal string
    of an integer below [2^32 - 1].  Such keys are enumerated first, in
    ascending numeric order. *)
Definition array_index (k : string) : option N :=
  match k with
  | EmptyString => None
  | String c rest =>
      if decide (k = "0") then Some 0%N
      else if decide (c = "0"%char) then None
      else if (10 <? String.length k)%nat then None
      else match digits k 0 with
           | Some n => if (n <? 4294967295)%N then Some n else None
           | None => None
           end
  end.

(** A plain object with string keys: its own properties in the order
    [Object.entries] and [for-in] enumerate them. *)
Abbreviation t V := (list (string * V)).

(** Whether a new key [k] is enumerated before the existing key [k']. *)
Definition before (k k' : string) : bool :=
  match array_index k, array_index k' with
  | Some i, Some j => (i <? j)%N
  | Some _, None => true
  | None, _ => false
  end.

(** [o[k] = v]. *)
Fixpoint set {V} (k : string) (v : V) (o : t V) : t V :=
  match o with
  | [] => [(k, v)]
  | (k', v') :: o' =>
      if decide (k = k') then (k, v) :: o'
      else if before k k' && negb (JsMap.has k o') then (k, v) :: (k', v') :: o'
      else (k', v') :: set k v o'
  end.

Definition entries {V} (o : t V) : list (string * V) := o.

End JsObject.

(** ** PerformanceOptimizer *)

Module PerformanceOptimizer.

(** [private frameRates: number[]]; the three configuration fields are
    never reassigned and are kept as constants. *)
Record t := mk { frameRates : list Q }.

Definition maxSamples : nat := 60.
Definition targetFPS : Q := 60.
Definition minFPS : Q := 30.

Definition reset (_ : t) : t := {| frameRates := [] |}.

(** The constructor only calls [reset]. *)
Definition new : t := reset {| frameRates := [] |}.

(** [push], then [shift] when the buffer grew past [maxSamples].  In
    JavaScript [1 / 0] is [Infinity] and in [Q] it is [0]: a zero
    [deltaTime] is outside the model. *)
Definition addFrameTime (deltaTime : Q) (s : t) : t :=
  let fps := 1 / deltaTime in
  let pushed := frameRates s ++ [fps] in
  if (maxSamples <? length pushed)%nat
  then {| frameRates := tail pushed |}
  else {| frameRates := pushed |}.

Definition getAverageFPS (s : t) : Q :=
  match frameRates s with
  | [] => 60
  | _ =>
      let sum := fold_left Qplus (frameRates s) 0 in
      sum / inject_Z (Z.of_nat (length (frameRates s)))
  end.

Definition getPerformanceLevel (s : t) : Q :=
  let avgFPS := getAverageFPS s in
  Qmin 1 (Qmax 0 ((avgFPS - minFPS) / (targetFPS - minFPS))).

(** [Math.floor], as a number. *)
Definition floor (x : Q) : Q := inject_Z (Qfloor x).

Definition adjustParticleCount (requestedCount : Q) (s : t) : Q :=
  let performanceLevel := getPerformanceLevel s in
  if Qltb performanceLevel 0.3 then floor (requestedCount * 0.25)
  else if Qltb performanceLevel 0.6 then floor (requestedCount * 0.5)
  else if Qltb performanceLevel 0.8 then floor (requestedCount * 0.75)
  else requestedCount.

Definition adjustDelta (deltaTime : Q) : Q :=
  let maxDelta := 1 / 30 in
  Qmin deltaTime maxDelta.

Definition getRecommendedLOD (s : t) : nat :=
  let performanceLevel := getPerformanceLevel s in
  if Qltb performanceLevel 0.3 then 3%nat
  else if Qltb performanceLevel 0.6 then 2%nat
  else if Qltb performanceLevel 0.8 then 1%nat
  else 0%nat.

Definition shouldSkipExpensiveOperations (s : t) : bool :=
  Qltb (getPerformanceLevel s) 0.4.

Definition getRenderScale (s : t) : Q :=
  let performanceLevel := getPerformanceLevel s in
  if Qltb performanceLevel 0.3 then 0.5
  else if Qltb performanceLevel 0.6 then 0.75
  else 1.

Inductive shadowQuality := none | low | medium | high.

Definition getShadowQuality (s : t) : shadowQuality :=
  let performanceLevel := getPerformanceLevel s in
  if Qltb performanceLevel 0.3 then none
  else if Qltb performanceLevel 0.5 then low
  else if Qltb performanceLevel 0.8 then medium
  else high.

(** The mutating calls a frame loop can make on an optimizer. *)
Inductive call :=
| AddFrameTime (deltaTime : Q)
| Reset.

Definition run_call (s : t) (c : call) : t :=
  match c with
  | AddFrameTime dt => addFrameTime dt s
  | Reset => reset s
  end.

(** The optimizer after the calls [cs], made on a new one. *)
Definition run (cs : list call) : t := fold_left run_call cs new.

(** The last [n] elements of a list. *)
Definition lastn {A} (n : nat) (l : list A) : list A :=
  drop (length l - n) l.

(** Flooring and boundedness, as a property of one call of
    [adjustParticleCount]: the result is an integer and is at most the
    requested count. *)
Definition flooredAndBounded (requestedCount : Q) (s : t) : Prop :=
  (∃ k : Z, adjustParticleCount requestedCount s == inject_Z k) /\
  adjustParticleCount requestedCount s <= requestedCount.

(** A buffer whose only sample is [fps]. *)
Definition steady (fps : Q) : t := {| frameRates := [fps] |}.

(** The optimizer after further frames with the frame times [dts]. *)
Definition addFrames (dts : list Q) (s : t) : t :=
  fold_left (λ s' dt, addFrameTime dt s') dts s.

(** The shadow qualities from worst to best. *)
Definition shadowRank (q : shadowQuality) : nat :=
  match q with none => 0 | low => 1 | medium => 2 | high => 3 end.

End PerformanceOptimizer.

(** ** AnimationSequencer *)

Module AnimationSequencer.

Record AnimationKeyframe := mkKeyframe {
  time : Q;
  properties : bag;
  easing : option (Q -> Q)
}.

(** The optional [loop] and [duration] of a track are read nowhere. *)
Record AnimationTrack := mkTrack {
  track_id : string;
  keyframes : list AnimationKeyframe
}.

(** The three optional callbacks are closures of the caller: the record
    says which are present and the event log records their calls. *)
Record AnimationSequence := mkSequence {
  id : string;
  name : string;
  description : string;
  tracks : list AnimationTrack;
  duration : Q;
  loop : bool;
  onStart : bool;
  onUpdate : bool;
  onComplete : bool
}.

(** The [frameData] object that [update] builds, a plain object: its
    own entries and its prototype, [None] while that is
    [Object.prototype]. *)
Record FrameData := mkFrameData {
  own : gmap string bag;
  prototype : option bag
}.

(** What the sequencer emits and which callbacks it calls, in order.
    Sequences are named by their id. *)
Inductive event :=
| SequenceAdded (sequence : string)
| SequenceRemoved (sequence : string)
| Play (sequence : string)
| Pause (sequence : option string)
| Stop (sequence : option string)
| SpeedChanged (speed : Q)
| Loop (sequence : string)
| Complete (sequence : string)
| Update (sequence : string) (progress : Q) (data : FrameData)
| Seek (progress : Q)
| CallOnStart (sequence : string)
| CallOnUpdate (sequence : string) (progress : Q)
| CallOnComplete (sequence : string).

Record t := mk {
  sequences : JsMap.t AnimationSequence;
  currentSequence : option AnimationSequence;
  startTime : Q;
  isPlaying : bool;
  speed : Q;
  progress : Q;
  events : list event
}.

Definition emit (es : list event) (s : t) : t :=
  {| sequences := sequences s; currentSequence := currentSequence s;
     startTime := startTime s; isPlaying := isPlaying s; speed := speed s;
     progress := progress s; events := events s ++ es |}.

Definition addSequence (sequence : AnimationSequence) (s : t) : t :=
  emit [SequenceAdded (id sequence)]
    {| sequences := JsMap.set (id sequence) sequence (sequences s);
       currentSequence := currentSequence s; startTime := startTime s;
       isPlaying := isPlaying s; speed := speed s; progress := progress s;
       events := events s |}.

Definition removeSequence (i : string) (s : t) : t :=
  let (deleted, rest) := JsMap.delete i (sequences s) in
  if deleted
  then emit [SequenceRemoved i]
         {| sequences := rest; currentSequence := currentSequence s;
            startTime := startTime s; isPlaying := isPlaying s;
            speed := speed s; progress := progress s; events := events s |}
  else s.

Definition getSequence (i : string) (s : t) : option AnimationSequence :=
  JsMap.get i (sequences s).

(** [play(sequenceId?)].  An empty string is falsy and counts as no
    argument.  The two warnings go to the console only. *)
Definition play (sequenceId : option string) (now : Z) (s : t) : t :=
  let chosen :=
    match sequenceId with
    | Some i =>
        if decide (i = "") then Some (currentSequence s)
        else match JsMap.get i (sequences s) with
             | Some sequence => Some (Some sequence)
             | None => None
             end
    | None => Some (currentSequence s)
    end in
  match chosen with
  | None => s
  | Some None => s
  | Some (Some current) =>
      {| sequences := sequences s; currentSequence := Some current;
         startTime := inject_Z now; isPlaying := true; speed := speed s;
         progress := progress s;
         events := events s
                   ++ (if onStart current then [CallOnStart (id current)] else [])
                   ++ [Play (id current)] |}
  end.

Definition pause (s : t) : t :=
  emit [Pause (id <$> currentSequence s)]
    {| sequences := sequences s; currentSequence := currentSequence s;
       startTime := startTime s; isPlaying := false; speed := speed s;
       progress := progress s; events := events s |}.

Definition stop (s : t) : t :=
  emit [Stop (id <$> currentSequence s)]
    {| sequences := sequences s; currentSequence := currentSequence s;
       startTime := 0; isPlaying := false; speed := speed s;
       progress := 0; events := events s |}.

Definition setSpeed (v : Q) (s : t) : t :=
  let speed' := Qmax 0.1 (Qmin 5 v) in
  emit [SpeedChanged speed']
    {| sequences := sequences s; currentSequence := currentSequence s;
       startTime := startTime s; isPlaying := isPlaying s; speed := speed';
       progress := progress s; events := events s |}.

(** [a + (b - a) * easedT] on numbers that may be [NaN]. *)
Definition lerp (a b : num) (easedT : Q) : num :=
  match a, b with
  | Fin x, Fin y => Fin (x + (y - x) * easedT)
  | _, _ => NaN
  end.

(** The body of the loop over the keys of the previous keyframe;
    [nextValue] is [None] when the next keyframe lacks the key, and an
    index past the end of the next array reads [undefined], which the
    arithmetic turns into [NaN]. *)
Definition interpolateValue (prevValue : jsval) (nextValue : option jsval)
    (easedT : Q) : jsval :=
  match prevValue, nextValue with
  | JNum a, Some (JNum b) => JNum (lerp a b easedT)
  | JArr pa, Some (JArr nb) =>
      JArr (imap (λ index val, lerp val (default NaN (nb !! index)) easedT) pa)
  | _, _ =>
      if Qltb easedT 0.5 then prevValue else default JUndefined nextValue
  end.

(** The scan for the surrounding keyframes: the first [i] with
    [keyframes[i].time <= time <= keyframes[i + 1].time]. *)
Fixpoint findSegment (kfs : list AnimationKeyframe) (t : Q)
    : option (AnimationKeyframe * AnimationKeyframe) :=
  match kfs with
  | a :: rest =>
      match rest with
      | b :: _ =>
          if Qgeb t (time a) && Qle_bool t (time b) then Some (a, b)
          else findSegment rest t
      | [] => None
      end
  | [] => None
  end.

Definition interpolateTrack (track : AnimationTrack) (t : Q) : bag :=
  match keyframes track with
  | [] => ∅
  | first :: _ =>
      let (prevKeyframe, nextKeyframe) :=
        match findSegment (keyframes track) t with
        | Some segment => segment
        | None => (first, List.last (keyframes track) first)
        end in
      if Qle_bool t (time prevKeyframe) then properties prevKeyframe
      else if Qgeb t (time nextKeyframe) then properties nextKeyframe
      else
        let d := time nextKeyframe - time prevKeyframe in
        let u := (t - time prevKeyframe) / d in
        let easedT :=
          match easing nextKeyframe with Some f => f u | None => u end in
        map_imap
          (λ key prevValue,
             Some (interpolateValue prevValue (properties nextKeyframe !! key) easedT))
          (properties prevKeyframe)
  end.

(** [frameData[key] = value].  The key [__proto__] is the accessor of
    [Object.prototype]: assigning an object to it replaces the prototype
    of [frameData] and adds no entry. *)
Definition assign (key : string) (value : bag) (data : FrameData) : FrameData :=
  if decide (key = "__proto__")
  then {| own := own data; prototype := Some value |}
  else {| own := <[key := value]> (own data); prototype := prototype data |}.

(** The [frameData] object of [update]: a later track of the same id
    overwrites the entry of an earlier one. *)
Definition frameData (sequence : AnimationSequence) (currentTime : Q) : FrameData :=
  fold_left
    (λ data track, assign (track_id track) (interpolateTrack track currentTime) data)
    (tracks sequence) {| own := ∅; prototype := None |}.

(** The progress [update] computes before it handles the end of the
    sequence. *)
Definition rawProgress (now : Z) (s : t) (current : AnimationSequence) : Q :=
  let elapsed := (inject_Z now - startTime s) * 0.001 * speed s in
  elapsed / duration current.

Definition update (now : Z) (s : t) : t :=
  match currentSequence s with
  | None => s
  | Some current =>
      if negb (isPlaying s) then s
      else
        let p := rawProgress now s current in
        let tick (startTime' p' : Q) (before : list event) : t :=
          let currentTime := p' * duration current in
          {| sequences := sequences s; currentSequence := Some current;
             startTime := startTime'; isPlaying := true; speed := speed s;
             progress := p';
             events := events s ++ before
                       ++ (if onUpdate current
                           then [CallOnUpdate (id current) p'] else [])
                       ++ [Update (id current) p' (frameData current currentTime)] |} in
        if Qgeb p 1 then
          if loop current then tick (inject_Z now) 0 [Loop (id current)]
          else
            {| sequences := sequences s; currentSequence := Some current;
               startTime := startTime s; isPlaying := false; speed := speed s;
               progress := 1;
               events := events s
                         ++ (if onComplete current
                             then [CallOnComplete (id current)] else [])
                         ++ [Complete (id current)] |}
        else tick (startTime s) p []
  end.

Definition getProgress (s : t) : Q := progress s.
Definition getIsPlaying (s : t) : bool := isPlaying s.
Definition getSpeed (s : t) : Q := speed s.

Definition seek (p : Q) (now : Z) (s : t) : t :=
  match currentSequence s with
  | None => s
  | Some current =>
      let progress' := Qmax 0 (Qmin 1 p) in
      emit [Seek progress']
        {| sequences := sequences s; currentSequence := Some current;
           startTime := inject_Z now - (progress' * duration current * 1000 / speed s);
           isPlaying := isPlaying s; speed := speed s; progress := progress';
           events := events s |}
  end.

(** How often a sequence has looped according to the event log. *)
Definition isLoop (e : event) : bool :=
  match e with Loop _ => true | _ => false end.

Definition loopEvents (s : t) : nat :=
  length (List.filter isLoop (events s)).

(** A keyframe without easing. *)
Definition keyframe (t : Q) (ps : list (string * jsval)) : AnimationKeyframe :=
  {| time := t; properties := list_to_map ps; easing := None |}.

(** A camera keyframe of the default sequences. *)
Definition camera (t : Q) (position target : list Q) : AnimationKeyframe :=
  keyframe t [("position", jarr position); ("target", jarr target)].

(** A keyframe with two numeric properties. *)
Definition numeric (t : Q) (k1 : string) (v1 : Q) (k2 : string) (v2 : Q)
    : AnimationKeyframe :=
  keyframe t [(k1, jnum v1); (k2, jnum v2)].

Definition cosmic : AnimationSequence :=
  {| id := "cosmic"; name := "Cosmic Journey";
     description := "Travel through space with stellar formations and cosmic phenomena";
     duration := 60; loop := true;
     tracks := [
       {| track_id := "camera"; keyframes := [
            camera 0 [0; 40; 80] [0; 10; 0];
            camera 15 [50; 60; 50] [20; 5; 20];
            camera 30 [-30; 80; 60] [-10; 15; 10];
            camera 45 [0; 100; 100] [0; 20; 0];
            camera 60 [0; 40; 80] [0; 10; 0] ] |};
       {| track_id := "particles"; keyframes := [
            numeric 0 "intensity" 1.0 "count" 5000;
            numeric 20 "intensity" 1.5 "count" 8000;
            numeric 40 "intensity" 2.0 "count" 10000;
            numeric 60 "intensity" 1.0 "count" 5000 ] |};
       {| track_id := "lighting"; keyframes := [
            keyframe 0 [("color", JStr "#4466ff"); ("intensity", jnum 1.0)];
            keyframe 30 [("color", JStr "#6644ff"); ("intensity", jnum 1.2)];
            keyframe 60 [("color", JStr "#4466ff"); ("intensity", jnum 1.0)] ] |} ];
     onStart := false; onUpdate := false; onComplete := false |}.

Definition fire : AnimationSequence :=
  {| id := "fire"; name := "Elemental Fire";
     description := "Intense fire effects with heat distortion and ember particles";
     duration := 45; loop := true;
     tracks := [
       {| track_id := "camera"; keyframes := [
            camera 0 [15; 25; 45] [0; 5; 0];
            camera 15 [30; 20; 30] [5; 8; 5];
            camera 30 [0; 35; 50] [0; 10; 0];
            camera 45 [15; 25; 45] [0; 5; 0] ] |};
       {| track_id := "fire_intensity"; keyframes := [
            numeric 0 "heat" 1.0 "spread" 1.0;
            numeric 10 "heat" 1.8 "spread" 1.5;
            numeric 25 "heat" 2.2 "spread" 2.0;
            numeric 35 "heat" 1.5 "spread" 1.2;
            numeric 45 "heat" 1.0 "spread" 1.0 ] |} ];
     onStart := false; onUpdate := false; onComplete := false |}.

Definition water : AnimationSequence :=
  {| id := "water"; name := "Aquatic Flow";
     description := "Fluid dynamics with waves, splashes, and underwater effects";
     duration := 50; loop := true;
     tracks := [
       {| track_id := "camera"; keyframes := [
            camera 0 [-20; 20; 60] [0; 0; 0];
            camera 20 [40; 15; 40] [10; -5; 10];
            camera 40 [-10; 30; 80] [-5; 5; -5];
            camera 50 [-20; 20; 60] [0; 0; 0] ] |};
       {| track_id := "water_flow"; keyframes := [
            numeric 0 "speed" 1.0 "turbulence" 0.5;
            numeric 15 "speed" 1.5 "turbulence" 0.8;
            numeric 30 "speed" 2.0 "turbulence" 1.2;
            numeric 50 "speed" 1.0 "turbulence" 0.5 ] |} ];
     onStart := false; onUpdate := false; onComplete := false |}.

Definition crystal : AnimationSequence :=
  {| id := "crystal"; name := "Crystal Resonance";
     description := "Geometric crystal formations with refractive light effects";
     duration := 40; loop := true;
     tracks := [
       {| track_id := "camera"; keyframes := [
            camera 0 [30; 35; 50] [0; 15; 0];
            camera 20 [60; 25; 30] [20; 10; 10];
            camera 40 [30; 35; 50] [0; 15; 0] ] |};
       {| track_id := "crystal_growth"; keyframes := [
            numeric 0 "scale" 0.8 "energy" 1.0;
            numeric 10 "scale" 1.2 "energy" 1.5;
            numeric 20 "scale" 1.5 "energy" 2.0;
            numeric 30 "scale" 1.1 "energy" 1.3;
            numeric 40 "scale" 0.8 "energy" 1.0 ] |} ];
     onStart := false; onUpdate := false; onComplete := false |}.

Definition plasma : AnimationSequence :=
  {| id := "plasma"; name := "Plasma Storm";
     description := "High-energy electromagnetic fields and plasma discharge";
     duration := 35; loop := true;
     tracks := [
       {| track_id := "camera"; keyframes := [
            camera 0 [0; 60; 100] [0; 20; 0];
            camera 12 [80; 40; 60] [30; 25; 20];
            camera 25 [-60; 80; 80] [-20; 30; 20];
            camera 35 [0; 60; 100] [0; 20; 0] ] |};
       {| track_id := "plasma_energy"; keyframes := [
            numeric 0 "field_strength" 1.0 "frequency" 8.0;
            numeric 8 "field_strength" 2.5 "frequency" 15.0;
            numeric 18 "field_strength" 3.0 "frequency" 20.0;
            numeric 28 "field_strength" 1.8 "frequency" 12.0;
            numeric 35 "field_strength" 1.0 "frequency" 8.0 ] |} ];
     onStart := false; onUpdate := false; onComplete := false |}.

(** Keyframe times in ascending order: no keyframe is earlier than one
    before it. *)
Definition ascending (kfs : list AnimationKeyframe) : Prop :=
  StronglySorted (λ a b, time a <= time b) kfs.

(** Clamping to the endpoint values, as a property of a track: a query at
    or before the first keyframe returns the first property bag, and a
    query at or after the last keyframe returns the last one. *)
Definition clampsToEndpoints (track : AnimationTrack) : Prop :=
  ∀ (first final : AnimationKeyframe) (t : Q),
    head (keyframes track) = Some first ->
    last (keyframes track) = Some final ->
    (t <= time first -> interpolateTrack track t = properties first) /\
    (time final <= t -> interpolateTrack track t = properties final).

(** Wrapping modulo one, as a property of one call of [update]: when the
    computed progress of a playing, looping sequence has reached 1, the
    progress after the call is its fractional part. *)
Definition wrapsModuloOne (now : Z) (s : t) : Prop :=
  ∀ current : AnimationSequence,
    currentSequence s = Some current -> isPlaying s = true ->
    loop current = true -> 1 <= rawProgress now s current ->
    progress (update now s)
    == rawProgress now s current - inject_Z (Qfloor (rawProgress now s current)).

(** The field initialisers of the class. *)
Definition initial : t :=
  {| sequences := []; currentSequence := None; startTime := 0;
     isPlaying := false; speed := 1; progress := 0; events := [] |}.

Definition initializeDefaultSequences (s : t) : t :=
  addSequence plasma (addSequence crystal (addSequence water
    (addSequence fire (addSequence cosmic s)))).

(** The constructor. *)
Definition new : t := initializeDefaultSequences initial.

(** *** Scenarios *)

(** A track whose last two keyframes share their time. *)
Definition tiedTrack : AnimationTrack :=
  {| track_id := "x";
     keyframes := [keyframe 0 [("x", jnum 0)];
                   keyframe 10 [("x", jnum 1)];
                   keyframe 10 [("x", jnum 2)]] |}.

(** The second track of the cosmic sequence. *)
Definition particlesTrack : AnimationTrack :=
  {| track_id := "particles"; keyframes := [
       numeric 0 "intensity" 1.0 "count" 5000;
       numeric 20 "intensity" 1.5 "count" 8000;
       numeric 40 "intensity" 2.0 "count" 10000;
       numeric 60 "intensity" 1.0 "count" 5000 ] |}.

(** A looping sequence of ten seconds with one track from 0 to 100. *)
Definition ten : AnimationSequence :=
  {| id := "ten"; name := "Ten"; description := "Ten seconds"; duration := 10;
     loop := true;
     tracks := [ {| track_id := "x";
                    keyframes := [keyframe 0 [("x", jnum 0)];
                                  keyframe 10 [("x", jnum 100)]] |} ];
     onStart := false; onUpdate := false; onComplete := false |}.

(** The sequence [ten] started at time 0 with speed 1. *)
Definition playingTen : t := play (Some "ten") 0 (addSequence ten new).

(** The cosmic sequence started at time 0 and paused after 30 of its 60
    seconds. *)
Definition pausedCosmic : t := pause (update 30000 (play (Some "cosmic") 0 new)).

(** *** Runs *)

(** The public calls that change a sequencer. *)
Inductive call :=
| OpAddSequence (sequence : AnimationSequence)
| OpRemoveSequence (sequence : string)
| OpPlay (sequenceId : option string) (now : Z)
| OpPause
| OpStop
| OpSetSpeed (speed : Q)
| OpSeek (progress : Q) (now : Z)
| OpUpdate (now : Z).

Definition run_call (s : t) (c : call) : t :=
  match c with
  | OpAddSequence sequence => addSequence sequence s
  | OpRemoveSequence i => removeSequence i s
  | OpPlay i now => play i now s
  | OpPause => pause s
  | OpStop => stop s
  | OpSetSpeed v => setSpeed v s
  | OpSeek p now => seek p now s
  | OpUpdate now => update now s
  end.

(** The sequencer after the calls [cs], made on a new one. *)
Definition run (cs : list call) : t := fold_left run_call cs new.

(** The clock reading of a call that reads the clock. *)
Definition clock (c : call) : option Z :=
  match c with
  | OpPlay _ now | OpSeek _ now | OpUpdate now => Some now
  | _ => None
  end.

(** The clock never runs backwards during the calls [cs], and starts
    at or after [t]. *)
Fixpoint chronological (t : Z) (cs : list call) : Prop :=
  match cs with
  | [] => True
  | c :: cs' =>
      match clock c with
      | Some t' => (t <= t')%Z /\ chronological t' cs'
      | None => chronological t cs'
      end
  end.

(** Every sequence added during the calls has a positive duration. *)
Definition positiveDurations (cs : list call) : Prop :=
  Forall (λ c, match c with
               | OpAddSequence sequence => 0 < duration sequence
               | _ => True
               end) cs.

(** What a sequencer satisfies at the clock reading [now] when the
    clock has not run backwards and all durations are positive. *)
Definition inTime (now : Z) (s : t) : Prop :=
  (0 <= now)%Z /\
  startTime s <= inject_Z now /\
  0 <= progress s <= 1 /\
  0.1 <= speed s <= 5 /\
  Forall (λ p : string * AnimationSequence, 0 < duration p.2) (sequences s) /\
  match currentSequence s with Some current => 0 < duration current | None => True end.


(** Whether an event is the completion of a sequence. *)
Definition isComplete (e : event) : bool :=
  match e with Complete _ => true | _ => false end.

(** A sequence like [ten] that does not loop. *)
Definition once : AnimationSequence :=
  {| id := "once"; name := "Once"; description := "Five seconds"; duration := 5;
     loop := false;
     tracks := [ {| track_id := "x";
                    keyframes := [keyframe 0 [("x", jnum 0)];
                                  keyframe 5 [("x", jnum 100)]] |} ];
     onStart := false; onUpdate := false; onComplete := true |}.

(** The sequence [once] started at time 0 with speed 1. *)
Definition playingOnce : t := play (Some "once") 0 (addSequence once new).


End AnimationSequencer.

(** ** EffectManager *)

Inductive category := particles | geometry | postprocessing | environment.

Inductive performanceImpact := low | medium | high.

Module Effect.

Record t := mk {
  id : string;
  name : string;
  description : string;
  category : category;
  performanceImpact : performanceImpact;
  dependencies : option (list string);
  conflictsWith : option (list string);
  parameters : option bag
}.

End Effect.

Module EffectState.

Record t := mk {
  effect : Effect.t;
  enabled : bool;
  intensity : Q;
  parameters : bag;
  lastUpdate : Z
}.

End EffectState.

(** The plain data of [exportConfiguration] and [importConfiguration].
    On import every field may be missing. *)
Module Configuration.

Record settings := mkSettings {
  intensity : option Q;
  parameters : option bag
}.

Record t := mk {
  globalIntensity : option Q;
  activeEffects : option (JsObject.t settings)
}.

End Configuration.

Module EffectManager.

(** A registered listener is a closure of the caller: it is named by a
    handle, and [delivered] records every call of a listener with the
    array it was given.  Listeners that throw are caught one by one, and
    listeners that call back into the manager are outside the model. *)
Record t := mk {
  effects : JsMap.t Effect.t;
  activeEffects : JsMap.t EffectState.t;
  globalIntensity : Q;
  listeners : list nat;
  delivered : list (nat * list EffectState.t)
}.

Definition getAllEffects (s : t) : list Effect.t := JsMap.values (effects s).

Definition getActiveEffects (s : t) : list EffectState.t :=
  JsMap.values (activeEffects s).

Definition isEffectActive (effectId : string) (s : t) : bool :=
  JsMap.has effectId (activeEffects s).

Definition setActive (active : JsMap.t EffectState.t) (s : t) : t :=
  {| effects := effects s; activeEffects := active;
     globalIntensity := globalIntensity s; listeners := listeners s;
     delivered := delivered s |}.

Definition notifyListeners (s : t) : t :=
  let active := getActiveEffects s in
  {| effects := effects s; activeEffects := activeEffects s;
     globalIntensity := globalIntensity s; listeners := listeners s;
     delivered := delivered s ++ map (λ listener, (listener, active)) (listeners s) |}.

Definition disableEffect (effectId : string) (s : t) : bool * t :=
  let (deleted, rest) := JsMap.delete effectId (activeEffects s) in
  if deleted then (true, notifyListeners (setActive rest s)) else (false, s).

(** The [forEach] over [conflictsWith]. *)
Definition disableConflicts (conflicts : list string) (s : t) : t :=
  fold_left
    (λ s' conflictId,
       if isEffectActive conflictId s' then (disableEffect conflictId s').2 else s')
    conflicts s.

(** [enableEffect(effectId, intensity = 1.0)]; [None] is a missing or
    [undefined] argument. *)
Definition enableEffect (effectId : string) (intensity : option Q) (now : Z)
    (s : t) : bool * t :=
  match JsMap.get effectId (effects s) with
  | None => (false, s)
  | Some effect =>
      let missingDeps :=
        match Effect.dependencies effect with
        | Some deps => List.filter (λ dep, negb (isEffectActive dep s)) deps
        | None => []
        end in
      if (0 <? length missingDeps)%nat then (false, s)
      else
        let s1 :=
          match Effect.conflictsWith effect with
          | Some conflicts => disableConflicts conflicts s
          | None => s
          end in
        let effectState :=
          {| EffectState.effect := effect;
             EffectState.enabled := true;
             EffectState.intensity := Qmax 0 (Qmin 2 (default 1.0 intensity));
             EffectState.parameters := spread ∅ (default ∅ (Effect.parameters effect));
             EffectState.lastUpdate := now |} in
        (true, notifyListeners
                 (setActive (JsMap.set effectId effectState (activeEffects s1)) s1))
  end.

Definition toggleEffect (effectId : string) (intensity : option Q) (now : Z)
    (s : t) : bool * t :=
  if isEffectActive effectId s then disableEffect effectId s
  else enableEffect effectId intensity now s.

(** The state object is updated in place; [delivered] keeps the values
    the listeners saw when they were called. *)
Definition setEffectIntensity (effectId : string) (intensity : Q) (now : Z)
    (s : t) : bool * t :=
  match JsMap.get effectId (activeEffects s) with
  | Some effectState =>
      let effectState' :=
        {| EffectState.effect := EffectState.effect effectState;
           EffectState.enabled := EffectState.enabled effectState;
           EffectState.intensity := Qmax 0 (Qmin 2 intensity);
           EffectState.parameters := EffectState.parameters effectState;
           EffectState.lastUpdate := now |} in
      (true, notifyListeners
               (setActive (JsMap.set effectId effectState' (activeEffects s)) s))
  | None => (false, s)
  end.

Definition setEffectParameters (effectId : string) (parameters : bag) (now : Z)
    (s : t) : bool * t :=
  match JsMap.get effectId (activeEffects s) with
  | Some effectState =>
      let effectState' :=
        {| EffectState.effect := EffectState.effect effectState;
           EffectState.enabled := EffectState.enabled effectState;
           EffectState.intensity := EffectState.intensity effectState;
           EffectState.parameters := spread (EffectState.parameters effectState) parameters;
           EffectState.lastUpdate := now |} in
      (true, notifyListeners
               (setActive (JsMap.set effectId effectState' (activeEffects s)) s))
  | None => (false, s)
  end.

Definition setGlobalIntensity (intensity : Q) (s : t) : t :=
  notifyListeners
    {| effects := effects s; activeEffects := activeEffects s;
       globalIntensity := Qmax 0 (Qmin 2 intensity); listeners := listeners s;
       delivered := delivered s |}.

Definition getGlobalIntensity (s : t) : Q := globalIntensity s.

Definition getEffectiveIntensity (effectId : string) (s : t) : Q :=
  match JsMap.get effectId (activeEffects s) with
  | Some effectState => EffectState.intensity effectState * globalIntensity s
  | None => 0
  end.

(** The bulk calls read the clock once per effect; the model gives all
    of them the same [now]. *)
Definition enableAll (ids : list string) (intensity : option Q) (now : Z)
    (s : t) : t :=
  fold_left (λ s' effectId, (enableEffect effectId intensity now s').2) ids s.

Definition enableAllEffects (now : Z) (s : t) : t :=
  enableAll (JsMap.keys (effects s)) (Some 1.0) now s.

Definition disableAllEffects (s : t) : t :=
  notifyListeners (setActive [] s).

Definition getRecommendedSettings (targetPerformance : performanceImpact)
    (s : t) : list string :=
  JsMap.keys
    (List.filter
       (λ entry,
          match targetPerformance with
          | low =>
              match Effect.performanceImpact entry.2 with
              | low => true
              | _ => false
              end
          | medium =>
              match Effect.performanceImpact entry.2 with
              | high => false
              | _ => true
              end
          | high => true
          end)
       (effects s)).

Definition applyRecommendedSettings (targetPerformance : performanceImpact)
    (now : Z) (s : t) : t :=
  let s1 := disableAllEffects s in
  enableAll (getRecommendedSettings targetPerformance s1) None now s1.

Definition addListener (listener : nat) (s : t) : t :=
  {| effects := effects s; activeEffects := activeEffects s;
     globalIntensity := globalIntensity s;
     listeners := if decide (listener ∈ listeners s) then listeners s
                  else listeners s ++ [listener];
     delivered := delivered s |}.

Definition removeListener (listener : nat) (s : t) : t :=
  {| effects := effects s; activeEffects := activeEffects s;
     globalIntensity := globalIntensity s;
     listeners := filter (λ l, l ≠ listener) (listeners s);
     delivered := delivered s |}.

Definition exportConfiguration (s : t) : Configuration.t :=
  {| Configuration.globalIntensity := Some (globalIntensity s);
     Configuration.activeEffects :=
       Some (fold_left
               (λ o entry,
                  JsObject.set entry.1
                    {| Configuration.intensity := Some (EffectState.intensity entry.2);
                       Configuration.parameters := Some (EffectState.parameters entry.2) |}
                    o)
               (activeEffects s) []) |}.

(** The body of the [forEach] of [importConfiguration]. *)
Definition importEffect (now : Z) (s : t) (entry : string * Configuration.settings)
    : t :=
  let (enabled, s1) :=
    enableEffect entry.1 (Configuration.intensity entry.2) now s in
  if enabled then
    match Configuration.parameters entry.2 with
    | Some parameters => (setEffectParameters entry.1 parameters now s1).2
    | None => s1
    end
  else s1.

Definition importConfiguration (config : Configuration.t) (now : Z) (s : t) : t :=
  let s1 := disableAllEffects s in
  let s2 :=
    match Configuration.globalIntensity config with
    | Some g => setGlobalIntensity g s1
    | None => s1
    end in
  match Configuration.activeEffects config with
  | Some o => fold_left (importEffect now) (JsObject.entries o) s2
  | None => s2
  end.

(** An entry of the default library without dependencies or conflicts. *)
Definition entry (i n d : string) (c : category) (p : performanceImpact)
    (ps : list (string * jsval)) : Effect.t :=
  {| Effect.id := i; Effect.name := n; Effect.description := d;
     Effect.category := c; Effect.performanceImpact := p;
     Effect.dependencies := None; Effect.conflictsWith := None;
     Effect.parameters := Some (list_to_map ps) |}.

Definition defaultEffects : list Effect.t := [
  entry "fire" "Fire Particles"
    "Realistic fire simulation with heat distortion" particles high
    [("temperature", jnum 1.0); ("spread", jnum 1.0); ("turbulence", jnum 0.8)];
  entry "water" "Water Particles"
    "Fluid dynamics with splash and flow effects" particles medium
    [("viscosity", jnum 0.1); ("surfaceTension", jnum 0.5); ("flowSpeed", jnum 1.0)];
  entry "snow" "Snow Particles"
    "Gentle falling snow with wind patterns" particles low
    [("windStrength", jnum 0.5); ("flakeSize", jnum 1.0); ("density", jnum 1.0)];
  entry "cosmic" "Cosmic Particles"
    "Stellar dust, star formation, and cosmic phenomena" particles high
    [("starDensity", jnum 0.5); ("nebulaIntensity", jnum 0.8);
     ("cosmicRayFrequency", jnum 0.3)];
  entry "plasma" "Plasma Particles"
    "Electromagnetic plasma fields and discharge" particles high
    [("electricField", jnum 2.0); ("magneticStrength", jnum 1.5);
     ("plasmaFrequency", jnum 10.0)];
  entry "floating_islands" "Floating Islands"
    "Mystical floating landmasses with vegetation" geometry medium
    [("islandCount", jnum 6); ("vegetationDensity", jnum 0.7);
     ("floatAmplitude", jnum 2.0)];
  entry "crystals" "Crystal Formations"
    "Dynamic crystal clusters with refractive properties" geometry medium
    [("growthSpeed", jnum 0.5); ("refractionIndex", jnum 0.95);
     ("energyLevel", jnum 1.0)];
  entry "energy_orbs" "Energy Orbs"
    "Electromagnetic energy spheres with particle trails" geometry medium
    [("orbCount", jnum 15); ("trailLength", jnum 100); ("electricalForce", jnum 1.0)];
  entry "waves" "Wave System"
    "Advanced wave simulation with interference patterns" geometry high
    [("waveHeight", jnum 2.0); ("frequency", jnum 0.03); ("interference", JBool true)];
  entry "fractal_trees" "Fractal Trees"
    "Procedurally generated tree structures" geometry medium
    [("complexity", jnum 5); ("branchingFactor", jnum 0.8); ("windEffect", jnum 0.5)];
  entry "geometric_shapes" "Geometric Shapes"
    "Animated mathematical forms and patterns" geometry low
    [("morphingSpeed", jnum 1.0); ("geometricComplexity", jnum 1.0);
     ("rotationSpeed", jnum 0.5)];
  entry "liquid" "Liquid Simulation"
    "Advanced fluid dynamics with metaballs" geometry high
    [("viscosity", jnum 0.1); ("surfaceTension", jnum 0.8);
     ("particleDensity", jnum 1.0)];
  entry "bloom" "Bloom Effect"
    "Luminous glow around bright objects" postprocessing medium
    [("strength", jnum 1.0); ("threshold", jnum 0.3); ("radius", jnum 0.8)];
  entry "chromatic_aberration" "Chromatic Aberration"
    "Color separation effect for artistic distortion" postprocessing low
    [("intensity", jnum 0.002); ("distortion", jnum 1.0)];
  entry "film_grain" "Film Grain"
    "Vintage film noise and scanlines" postprocessing low
    [("grainIntensity", jnum 0.3); ("scanlineIntensity", jnum 0.4)];
  entry "kaleidoscope" "Kaleidoscope"
    "Symmetrical pattern reflection effect" postprocessing medium
    [("sides", jnum 6); ("rotation", jnum 0.1); ("radius", jnum 0.5)];
  entry "pixelation" "Pixelation"
    "Retro pixel art effect" postprocessing low
    [("pixelSize", jnum 4.0)];
  entry "vortex" "Vortex Distortion"
    "Swirling distortion effect" postprocessing medium
    [("strength", jnum 1.0); ("center", jarr [0.5; 0.5])];
  entry "procedural_terrain" "Procedural Terrain"
    "Dynamic terrain generation with real-time deformation" environment high
    [("complexity", jnum 64); ("deformation", jnum 1.0);
     ("textureBlending", JBool true)];
  {| Effect.id := "audio_reactive"; Effect.name := "Audio Reactive";
     Effect.description := "Visual effects synchronized to audio frequency data";
     Effect.category := environment; Effect.performanceImpact := medium;
     Effect.dependencies := Some ["audio_context"];
     Effect.conflictsWith := None;
     Effect.parameters :=
       Some (list_to_map [("sensitivity", jnum 1.0);
                          ("frequencyRange", jarr [20; 20000]);
                          ("visualizerType", JStr "spectrum")]) |} ].

(** A manager whose library is [library], before any call: the field
    initialisers followed by [effects.set(effect.id, effect)] for each
    entry. *)
Definition create (library : list Effect.t) : t :=
  {| effects := fold_left (λ m effect, JsMap.set (Effect.id effect) effect m) library [];
     activeEffects := []; globalIntensity := 1.0; listeners := [];
     delivered := [] |}.

(** The constructor. *)
Definition new : t := create defaultEffects.

(** The public calls that change a manager. *)
Inductive call :=
| EnableEffect (effectId : string) (intensity : option Q) (now : Z)
| DisableEffect (effectId : string)
| ToggleEffect (effectId : string) (intensity : option Q) (now : Z)
| SetEffectIntensity (effectId : string) (intensity : Q) (now : Z)
| SetEffectParameters (effectId : string) (parameters : bag) (now : Z)
| SetGlobalIntensity (intensity : Q)
| EnableAllEffects (now : Z)
| DisableAllEffects
| ApplyRecommendedSettings (targetPerformance : performanceImpact) (now : Z)
| AddListener (listener : nat)
| RemoveListener (listener : nat)
| ImportConfiguration (config : Configuration.t) (now : Z).

Definition run_call (s : t) (c : call) : t :=
  match c with
  | EnableEffect i v now => (enableEffect i v now s).2
  | DisableEffect i => (disableEffect i s).2
  | ToggleEffect i v now => (toggleEffect i v now s).2
  | SetEffectIntensity i v now => (setEffectIntensity i v now s).2
  | SetEffectParameters i ps now => (setEffectParameters i ps now s).2
  | SetGlobalIntensity v => setGlobalIntensity v s
  | EnableAllEffects now => enableAllEffects now s
  | DisableAllEffects => disableAllEffects s
  | ApplyRecommendedSettings p now => applyRecommendedSettings p now s
  | AddListener l => addListener l s
  | RemoveListener l => removeListener l s
  | ImportConfiguration config now => importConfiguration config now s
  end.

(** The states a manager built from [library] can be in. *)
Definition reachable (library : list Effect.t) (s : t) : Prop :=
  ∃ calls, s = fold_left run_call calls (create library).

(** How often [listener] has been called. *)
Definition received (listener : nat) (s : t) : nat :=
  length (filter (λ d, d.1 = listener) (delivered s)).

(** The active effects that the conflict list [conflicts] names. *)
Definition activeConflicts (conflicts : list string) (s : t)
    : JsMap.t EffectState.t :=
  filter (λ p, p.1 ∈ conflicts) (activeEffects s).

(** One notification per call, as a property of a call of
    [enableEffect]: every registered listener is called exactly once. *)
Definition notifiesOnce (effectId : string) (intensity : option Q) (now : Z)
    (s : t) : Prop :=
  ∀ listener, listener ∈ listeners s ->
    received listener (enableEffect effectId intensity now s).2
    = S (received listener s).

(** The state an effect is in after [enableEffect] has succeeded. *)
Definition freshState (effect : Effect.t) (intensity : option Q) (now : Z)
    : EffectState.t :=
  {| EffectState.effect := effect;
     EffectState.enabled := true;
     EffectState.intensity := clamp 0 2 (default 1.0 intensity);
     EffectState.parameters := default ∅ (Effect.parameters effect);
     EffectState.lastUpdate := now |}.

(** Whether all declared dependencies of [effect] are active. *)
Definition dependenciesActive (effect : Effect.t) (s : t) : Prop :=
  ∀ deps, Effect.dependencies effect = Some deps ->
          Forall (λ dep, isEffectActive dep s = true) deps.

Definition getEffectsByCategory (c : category) (s : t) : list Effect.t :=
  List.filter
    (λ effect, match Effect.category effect, c with
               | particles, particles | geometry, geometry
               | postprocessing, postprocessing | environment, environment => true
               | _, _ => false
               end)
    (getAllEffects s).

Module PerformanceSummary.

Record t := mk { low : nat; medium : nat; high : nat; total : nat }.

End PerformanceSummary.

(** [summary[effectState.effect.performanceImpact]++; summary.total++]. *)
Definition countImpact (summary : PerformanceSummary.t) (effectState : EffectState.t)
    : PerformanceSummary.t :=
  let count (p : performanceImpact) (n : nat) : nat :=
    match Effect.performanceImpact (EffectState.effect effectState), p with
    | low, low | medium, medium | high, high => S n
    | _, _ => n
    end in
  {| PerformanceSummary.low := count low (PerformanceSummary.low summary);
     PerformanceSummary.medium := count medium (PerformanceSummary.medium summary);
     PerformanceSummary.high := count high (PerformanceSummary.high summary);
     PerformanceSummary.total := S (PerformanceSummary.total summary) |}.

Definition getPerformanceSummary (s : t) : PerformanceSummary.t :=
  fold_left countImpact (JsMap.values (activeEffects s))
    {| PerformanceSummary.low := 0; PerformanceSummary.medium := 0;
       PerformanceSummary.high := 0; PerformanceSummary.total := 0 |}.

(** The performance impacts from cheapest to most expensive. *)
Definition impactRank (p : performanceImpact) : nat :=
  match p with low => 0 | medium => 1 | high => 2 end.

(** The last call of every registered listener carried the list of
    effects that are active now. *)
Definition inSync (s : t) : Prop :=
  ∃ earlier,
    delivered s
    = earlier ++ map (λ listener, (listener, getActiveEffects s)) (listeners s).

(** What every reachable manager satisfies with respect to its catalog:
    the catalog is the one the constructor built, and every active
    effect is the catalog entry of its id and is flagged as enabled. *)
Definition catalogued (library : list Effect.t) (s : t) : Prop :=
  effects s = effects (create library) /\
  Forall
    (λ p : string * EffectState.t,
       JsMap.get p.1 (effects (create library)) = Some (EffectState.effect p.2) /\
       EffectState.enabled p.2 = true)
    (activeEffects s).

(** What every reachable manager satisfies: no id is active twice, no
    listener is registered twice, and all intensities lie in [0, 2]. *)
Definition wellFormed (s : t) : Prop :=
  NoDup (JsMap.keys (activeEffects s)) /\
  NoDup (listeners s) /\
  Forall (λ p, 0 <= EffectState.intensity p.2 <= 2) (activeEffects s) /\
  0 <= globalIntensity s <= 2.

(** Whether no entry of a catalog has a conflict list and every declared
    dependency list names an id that is not in the catalog: such a
    dependency can never be active. *)
Definition independent (catalog : JsMap.t Effect.t) : bool :=
  forallb
    (λ p : string * Effect.t,
       match Effect.conflictsWith p.2 with Some _ => false | None => true end
       && match Effect.dependencies p.2 with
          | Some deps => existsb (λ dep, negb (JsMap.has dep catalog)) deps
          | None => true
          end)
    catalog.

(** What every manager reachable over an [independent] catalog
    satisfies besides [wellFormed]: the catalog is unchanged, and every
    active effect is in it, has neither dependencies nor conflicts, and
    has a parameter bag that contains the keys of its defaults. *)
Definition restorable (catalog : JsMap.t Effect.t) (s : t) : Prop :=
  effects s = catalog /\
  Forall
    (λ p : string * EffectState.t,
       JsMap.get p.1 catalog = Some (EffectState.effect p.2) /\
       Effect.dependencies (EffectState.effect p.2) = None /\
       Effect.conflictsWith (EffectState.effect p.2) = None /\
       spread (default ∅ (Effect.parameters (EffectState.effect p.2)))
              (EffectState.parameters p.2)
       = EffectState.parameters p.2)
    (activeEffects s).

(** The settings [exportConfiguration] writes for an active effect. *)
Definition settingsOf (st : EffectState.t) : Configuration.settings :=
  {| Configuration.intensity := Some (EffectState.intensity st);
     Configuration.parameters := Some (EffectState.parameters st) |}.

(** The state [importConfiguration] builds from the settings of an
    effect that it could enable. *)
Definition restoredState (now : Z) (e : Configuration.settings)
    (effect : Effect.t) : EffectState.t :=
  {| EffectState.effect := effect;
     EffectState.enabled := true;
     EffectState.intensity := clamp 0 2 (default 1.0 (Configuration.intensity e));
     EffectState.parameters :=
       match Configuration.parameters e with
       | Some ps => spread (default ∅ (Effect.parameters effect)) ps
       | None => default ∅ (Effect.parameters effect)
       end;
     EffectState.lastUpdate := now |}.

(** Two managers have the same configuration: the same global
    intensity and the same active ids, each with the same effect,
    intensity and parameter bag. *)
Definition sameConfiguration (a b : t) : Prop :=
  globalIntensity a == globalIntensity b /\
  ∀ effectId,
    match JsMap.get effectId (activeEffects a), JsMap.get effectId (activeEffects b) with
    | Some x, Some y =>
        EffectState.effect x = EffectState.effect y /\
        EffectState.intensity x == EffectState.intensity y /\
        EffectState.parameters x = EffectState.parameters y
    | None, None => True
    | _, _ => False
    end.

(** *** Scenarios *)

(** A library with a conflict and a dependency: [night] conflicts with
    [day], and [stars] depends on [night]. *)
Definition sky : list Effect.t := [
  entry "day" "Day" "Daylight" environment low [("sun", jnum 1.0)];
  {| Effect.id := "night"; Effect.name := "Night"; Effect.description := "Night sky";
     Effect.category := environment; Effect.performanceImpact := low;
     Effect.dependencies := None; Effect.conflictsWith := Some ["day"];
     Effect.parameters := Some (list_to_map [("moon", jnum 0.5)]) |};
  {| Effect.id := "stars"; Effect.name := "Stars"; Effect.description := "Star field";
     Effect.category := particles; Effect.performanceImpact := medium;
     Effect.dependencies := Some ["night"]; Effect.conflictsWith := None;
     Effect.parameters := None |} ].

(** The [night] entry of [sky]. *)
Definition night : Effect.t :=
  {| Effect.id := "night"; Effect.name := "Night"; Effect.description := "Night sky";
     Effect.category := environment; Effect.performanceImpact := low;
     Effect.dependencies := None; Effect.conflictsWith := Some ["day"];
     Effect.parameters := Some (list_to_map [("moon", jnum 0.5)]) |}.

(** A manager over [sky] with one listener and [day] enabled. *)
Definition daytime : t :=
  fold_left run_call [AddListener 0%nat; EnableEffect "day" None 0] (create sky).

(** The fire effect of the default library. *)
Definition fireEffect : Effect.t :=
  entry "fire" "Fire Particles"
    "Realistic fire simulation with heat distortion" particles high
    [("temperature", jnum 1.0); ("spread", jnum 1.0); ("turbulence", jnum 0.8)].

(** A new manager after [enableEffect('fire', 1.5)]. *)
Definition burning : t :=
  fold_left run_call [EnableEffect "fire" (Some 1.5) 0] new.


(** [burning] after an override of one parameter of the fire effect. *)
Definition hotter : t :=
  fold_left run_call
    [SetEffectParameters "fire" (list_to_map [("temperature", jnum 5)]) 1] burning.

(** [hotter] with two more effects, another intensity and a global
    intensity of one half. *)
Definition busy : t :=
  fold_left run_call
    [EnableEffect "bloom" None 2; EnableEffect "snow" (Some 3) 3;
     SetEffectIntensity "bloom" 0.25 4; SetGlobalIntensity 0.5] hotter.

End EffectManager.

(** ** SceneManager

    The scene-object registry of [SceneManager] and its
    performance-based optimizations (src/SceneManager.ts, first
    document).  A [THREE.Object3D] is a handle with the three
    properties these methods read or write; the calls made on the THREE
    scene and on the registered update callbacks are recorded in
    [calls].  The lighting, camera and fog settings, the frame counter
    and the animation sequencer of the class are not part of this
    model. *)

Module SceneManager.

Inductive objectType := particle_system | geometry | light | camera | environment.

(** A THREE object: its identity [handle], [object.visible],
    [object.userData.particleCount] and, for a light that has a shadow,
    the scalar of [object.shadow.mapSize].  Scene objects with the same
    handle hold the same object: a change of a property of the object
    is made in every scene object that holds it ([updateObject]). *)
Record Object3D := mkObject {
  handle : nat;
  visible : bool;
  particleCount : option Q;
  shadowMapSize : option Q
}.

Record SceneObject := mkSceneObject {
  id : string;
  object : Object3D;
  type : objectType;
  priority : Q;
  active : bool;
  lastUpdate : Z
}.

Inductive sceneCall :=
| SceneAdd (object : nat)
| SceneRemove (object : nat)
| Dispose (object : nat)
| Callback (callback : nat) (deltaTime : Q).

Record t := mk {
  effectManager : EffectManager.t;
  performanceOptimizer : PerformanceOptimizer.t;
  sceneObjects : JsMap.t SceneObject;
  updateCallbacks : JsMap.t nat;
  calls : list sceneCall
}.

(** [Array.prototype.sort] with the comparator
    [(a, b) => b.priority - a.priority]: the sort is stable, so its
    result is the one of this insertion sort. *)
Fixpoint insertByPriority {A} (priorityOf : A -> Q) (x : A) (l : list A) : list A :=
  match l with
  | [] => [x]
  | y :: l' =>
      if Qltb (priorityOf x) (priorityOf y)
      then y :: insertByPriority priorityOf x l'
      else x :: y :: l'
  end.

Definition sortByPriority {A} (priorityOf : A -> Q) (l : list A) : list A :=
  foldr (insertByPriority priorityOf) [] l.

Definition setObjects (objects : JsMap.t SceneObject) (s : t) : t :=
  {| effectManager := effectManager s; performanceOptimizer := performanceOptimizer s;
     sceneObjects := objects; updateCallbacks := updateCallbacks s; calls := calls s |}.

Definition log (cs : list sceneCall) (s : t) : t :=
  {| effectManager := effectManager s; performanceOptimizer := performanceOptimizer s;
     sceneObjects := sceneObjects s; updateCallbacks := updateCallbacks s;
     calls := calls s ++ cs |}.

Definition sortSceneObjects (s : t) : t :=
  let sortedEntries :=
    sortByPriority (λ entry : string * SceneObject, priority entry.2) (sceneObjects s) in
  setObjects (fold_left (λ m entry, JsMap.set entry.1 entry.2 m) sortedEntries []) s.

Definition getSceneObject (i : string) (s : t) : option SceneObject :=
  JsMap.get i (sceneObjects s).

Definition getAllSceneObjects (s : t) : list SceneObject :=
  JsMap.values (sceneObjects s).

Definition sameType (a b : objectType) : bool :=
  match a, b with
  | particle_system, particle_system | geometry, geometry | light, light
  | camera, camera | environment, environment => true
  | _, _ => false
  end.

Definition getSceneObjectsByType (ty : objectType) (s : t) : list SceneObject :=
  List.filter (λ obj, sameType (type obj) ty) (getAllSceneObjects s).

(** [disposeObject] traverses the object inside THREE. *)
Definition removeSceneObject (i : string) (s : t) : bool * t :=
  match JsMap.get i (sceneObjects s) with
  | Some sceneObject =>
      (true,
       {| effectManager := effectManager s;
          performanceOptimizer := performanceOptimizer s;
          sceneObjects := JsMap.remove i (sceneObjects s);
          updateCallbacks := JsMap.remove i (updateCallbacks s);
          calls := calls s ++ [SceneRemove (handle (object sceneObject));
                               Dispose (handle (object sceneObject))] |})
  | None => (false, s)
  end.

(** [addSceneObject(id, object, type, priority = 5)]. *)
Definition addSceneObject (i : string) (o : Object3D) (ty : objectType)
    (p : option Q) (now : Z) (s : t) : t :=
  let s1 := if JsMap.has i (sceneObjects s) then (removeSceneObject i s).2 else s in
  let sceneObject :=
    {| id := i; object := o; type := ty; priority := default 5 p; active := true;
       lastUpdate := now |} in
  sortSceneObjects
    (log [SceneAdd (handle o)]
       (setObjects (JsMap.set i sceneObject (sceneObjects s1)) s1)).

(** A change of the THREE object with the handle [h]: every scene
    object that holds that object sees it. *)
Definition changed (h : nat) (f : Object3D -> Object3D) (sceneObject : SceneObject)
    : SceneObject :=
  if decide (handle (object sceneObject) = h)
  then {| id := id sceneObject; object := f (object sceneObject);
          type := type sceneObject; priority := priority sceneObject;
          active := active sceneObject; lastUpdate := lastUpdate sceneObject |}
  else sceneObject.

Definition updateObject (h : nat) (f : Object3D -> Object3D)
    (objects : JsMap.t SceneObject) : JsMap.t SceneObject :=
  map (λ entry : string * SceneObject, (entry.1, changed h f entry.2)) objects.

Definition setVisible (a : bool) (o : Object3D) : Object3D :=
  {| handle := handle o; visible := a; particleCount := particleCount o;
     shadowMapSize := shadowMapSize o |}.

Definition setObjectActive (i : string) (a : bool) (s : t) : t :=
  match JsMap.get i (sceneObjects s) with
  | Some sceneObject =>
      setObjects
        (updateObject (handle (object sceneObject)) (setVisible a)
           (JsMap.set i
              {| id := id sceneObject; object := object sceneObject;
                 type := type sceneObject; priority := priority sceneObject;
                 active := a; lastUpdate := lastUpdate sceneObject |}
              (sceneObjects s))) s
  | None => s
  end.

Definition registerUpdateCallback (i : string) (callback : nat) (s : t) : t :=
  {| effectManager := effectManager s; performanceOptimizer := performanceOptimizer s;
     sceneObjects := sceneObjects s;
     updateCallbacks := JsMap.set i callback (updateCallbacks s);
     calls := calls s |}.

(** The objects [updateSceneObjects] visits, in the order it visits
    them. *)
Definition updateOrder (s : t) : list SceneObject :=
  sortByPriority priority (List.filter active (getAllSceneObjects s)).

(** The body of the loop of [updateSceneObjects]: the visited object,
    which the registry holds under its id, gets its [lastUpdate], and
    its callback is called if there is one.  A callback that throws is
    caught; what a callback does is outside the model. *)
Definition touch (now : Z) (sceneObject : SceneObject) : SceneObject :=
  {| id := id sceneObject; object := object sceneObject; type := type sceneObject;
     priority := priority sceneObject; active := active sceneObject;
     lastUpdate := now |}.

Definition updateSceneObject (deltaTime : Q) (now : Z) (s : t)
    (sceneObject : SceneObject) : t :=
  let s1 :=
    setObjects (JsMap.set (id sceneObject) (touch now sceneObject) (sceneObjects s)) s in
  match JsMap.get (id sceneObject) (updateCallbacks s1) with
  | Some callback => log [Callback callback deltaTime] s1
  | None => s1
  end.

Definition updateSceneObjects (deltaTime : Q) (now : Z) (s : t) : t :=
  fold_left (updateSceneObject deltaTime now) (updateOrder s) s.

(** [if (object.userData.particleCount) ... *= 0.5]: zero and a
    missing count are falsy. *)
Definition halveParticles (o : Object3D) : Object3D :=
  match particleCount o with
  | Some count =>
      if Qeq_bool count 0 then o
      else {| handle := handle o; visible := visible o;
              particleCount := Some (count * 0.5);
              shadowMapSize := shadowMapSize o |}
  | None => o
  end.

(** [if (directionalLight?.shadow) directionalLight.shadow.mapSize.setScalar(1024)]. *)
Definition reduceShadow (o : Object3D) : Object3D :=
  match shadowMapSize o with
  | Some _ =>
      {| handle := handle o; visible := visible o; particleCount := particleCount o;
         shadowMapSize := Some 1024 |}
  | None => o
  end.

Definition expensiveEffects : list string := ["plasma"; "liquid"; "procedural_terrain"].

Definition setEffectManager (manager : EffectManager.t) (s : t) : t :=
  {| effectManager := manager; performanceOptimizer := performanceOptimizer s;
     sceneObjects := sceneObjects s; updateCallbacks := updateCallbacks s;
     calls := calls s |}.

Definition applyPerformanceOptimizations (s : t) : t :=
  let performanceLevel :=
    PerformanceOptimizer.getPerformanceLevel (performanceOptimizer s) in
  let s1 :=
    if Qltb performanceLevel 0.5 then
      let lit :=
        match getSceneObject "directional_light" s with
        | Some directionalLight =>
            setObjects
              (updateObject (handle (object directionalLight)) reduceShadow
                 (sceneObjects s)) s
        | None => s
        end in
      setObjects
        (fold_left
           (λ objects obj, updateObject (handle (object obj)) halveParticles objects)
           (getSceneObjectsByType particle_system lit) (sceneObjects lit)) lit
    else s in
  if Qltb performanceLevel 0.3 then
    setEffectManager
      (fold_left
         (λ manager effectId,
            if EffectManager.isEffectActive effectId manager
            then (EffectManager.disableEffect effectId manager).2 else manager)
         expensiveEffects (effectManager s1)) s1
  else s1.

(** The fields of the class that the model has, after the
    constructor: the two default lights are added, and the listener of
    the manager, handle 0, is registered with the effect manager.  That
    listener reacts to the ids [fog_enhancement] and
    [global_illumination] only, which no library entry has. *)
Definition new (now : Z) : t :=
  let s0 :=
    {| effectManager := EffectManager.addListener 0 EffectManager.new;
       performanceOptimizer := PerformanceOptimizer.new;
       sceneObjects := []; updateCallbacks := []; calls := [] |} in
  let ambientLight :=
    {| handle := 0; visible := true; particleCount := None; shadowMapSize := None |} in
  let directionalLight :=
    {| handle := 1; visible := true; particleCount := None;
       shadowMapSize := Some 2048 |} in
  addSceneObject "directional_light" directionalLight light (Some 9) now
    (addSceneObject "ambient_light" ambientLight light (Some 10) now s0).

(** A registry without duplicate ids whose entries are in descending
    order of priority. *)
Definition ordered (objects : JsMap.t SceneObject) : Prop :=
  NoDup (JsMap.keys objects) /\
  StronglySorted (λ a b : string * SceneObject, priority b.2 <= priority a.2) objects.

(** The THREE objects that the scene objects hold, by their handles. *)
Definition handles (objects : JsMap.t SceneObject) : list nat :=
  (λ entry : string * SceneObject, handle (object entry.2)) <$> objects.

(** No THREE object is held by two scene objects. *)
Definition unshared (objects : JsMap.t SceneObject) : Prop := NoDup (handles objects).

(** Every scene object is stored under its own id, once: the way
    [addSceneObject] stores it. *)
Definition registered (objects : JsMap.t SceneObject) : Prop :=
  NoDup (JsMap.keys objects) /\
  Forall (λ entry : string * SceneObject, id entry.2 = entry.1) objects.

(** *** Scenarios *)

(** A particle system of 8000 particles. *)
Definition sparks : Object3D :=
  {| handle := 7; visible := true; particleCount := Some 8000; shadowMapSize := None |}.

(** A new manager with [sparks] at the default priority, a mesh at
    priority 9.5, and update callbacks for both. *)
Definition stage : t :=
  registerUpdateCallback "mesh" 2
    (registerUpdateCallback "sparks" 1
       (addSceneObject "mesh"
          {| handle := 8; visible := true; particleCount := None; shadowMapSize := None |}
          geometry (Some 9.5) 2
          (addSceneObject "sparks" sparks particle_system None 1 (new 0)))).

(** [stage] after enabling three effects and sixty frames at 20 FPS. *)
Definition struggling : t :=
  {| effectManager :=
       fold_left EffectManager.run_call
         [EffectManager.EnableEffect "plasma" None 3;
          EffectManager.EnableEffect "bloom" None 3;
          EffectManager.EnableEffect "liquid" None 3]
         (effectManager stage);
     performanceOptimizer :=
       PerformanceOptimizer.addFrames (repeat (1 / 20) 60) (performanceOptimizer stage);
     sceneObjects := sceneObjects stage; updateCallbacks := updateCallbacks stage;
     calls := calls stage |}.

End SceneManager.

(** * Part II: lemmas and theorems *)

(** ** Numbers *)

Lemma Qltb_lt (x y : Q) : Qltb x y = true <-> x < y.
Proof.
  unfold Qltb. rewrite negb_true_iff. split; intros H.
  - apply Qnot_le_lt. intros Hle. apply Qle_bool_iff in Hle. congruence.
  - destruct (Qle_bool y x) eqn:E; [|reflexivity].
    apply Qle_bool_iff in E. exfalso. apply (Qlt_not_le _ _ H E).
Qed.

Lemma Qltb_ge (x y : Q) : Qltb x y = false <-> y <= x.
Proof. unfold Qltb. rewrite negb_false_iff. apply Qle_bool_iff. Qed.

Lemma Qgeb_ge (x y : Q) : Qgeb x y = true <-> y <= x.
Proof. apply Qle_bool_iff. Qed.

Lemma Qgeb_lt (x y : Q) : Qgeb x y = false <-> x < y.
Proof.
  unfold Qgeb. split; intros H.
  - apply Qnot_le_lt. intros Hle. apply Qle_bool_iff in Hle. congruence.
  - destruct (Qle_bool y x) eqn:E; [|reflexivity].
    apply Qle_bool_iff in E. exfalso. apply (Qlt_not_le _ _ H E).
Qed.

Lemma Qle_bool_false (x y : Q) : Qle_bool x y = false <-> y < x.
Proof. apply (Qgeb_lt y x). Qed.

Lemma clamp_bounds (lo hi x : Q) : lo <= hi -> lo <= clamp lo hi x <= hi.
Proof.
  intros H. unfold clamp. split.
  - apply Q.le_max_l.
  - apply Q.max_lub; [assumption | apply Q.le_min_l].
Qed.

Lemma clamp_id (lo hi x : Q) : lo <= x <= hi -> clamp lo hi x == x.
Proof.
  intros [H1 H2]. unfold clamp.
  rewrite (Q.min_r hi x) by assumption.
  apply Q.max_r. assumption.
Qed.

(** ** PerformanceOptimizer *)

Section PerformanceOptimizerFacts.

Import PerformanceOptimizer.

Lemma level_bounds (s : t) : 0 <= getPerformanceLevel s <= 1.
Proof.
  unfold getPerformanceLevel. split.
  - apply Q.min_glb; [lra | apply Q.le_max_l].
  - apply Q.le_min_l.
Qed.

Lemma floor_le (x : Q) : floor x <= x.
Proof. apply Qfloor_le. Qed.

Lemma floor_mono (x y : Q) : x <= y -> floor x <= floor y.
Proof.
  intros H. unfold floor. rewrite <- Zle_Qle. apply Qfloor_resp_le, H.
Qed.

Lemma floor_scale_mono (q a b : Q) :
  0 <= q -> a <= b -> floor (q * a) <= floor (q * b).
Proof. intros Hq Hab. apply floor_mono. nra. Qed.

Lemma floor_scale_le (q a : Q) : 0 <= q -> a <= 1 -> floor (q * a) <= q.
Proof.
  intros Hq Ha. apply Qle_trans with (q * a); [apply floor_le | nra].
Qed.

Lemma tail_drop {A} (k : nat) (l : list A) : tail (drop k l) = drop (S k) l.
Proof.
  revert l. induction k as [|k IH]; intros [|x l]; simpl; try reflexivity.
  apply IH.
Qed.

Lemma lastn_snoc {A} (n : nat) (l : list A) (y : A) :
  lastn n (l ++ [y]) =
  if (n <? length (lastn n l ++ [y]))%nat
  then tail (lastn n l ++ [y]) else lastn n l ++ [y].
Proof.
  unfold lastn. rewrite !length_app, length_drop. simpl.
  destruct (Nat.ltb_spec n (length l - (length l - n) + 1)) as [H|H].
  - replace (length l + 1 - n)%nat with (S (length l - n)) by lia.
    rewrite <- (tail_drop (length l - n) (l ++ [y])).
    rewrite drop_app_le by lia. reflexivity.
  - replace (length l + 1 - n)%nat with 0%nat by lia.
    replace (length l - n)%nat with 0%nat by lia. reflexivity.
Qed.

Lemma run_snoc (cs : list call) (c : call) : run (cs ++ [c]) = run_call (run cs) c.
Proof. unfold run. rewrite fold_left_app. reflexivity. Qed.

Lemma run_length (cs : list call) : (length (frameRates (run cs)) <= maxSamples)%nat.
Proof.
  induction cs as [|c cs IH] using rev_ind.
  - simpl. unfold maxSamples. lia.
  - rewrite run_snoc. destruct c as [dt|]; simpl.
    + unfold addFrameTime.
      destruct (Nat.ltb_spec maxSamples (length (frameRates (run cs) ++ [1 / dt]))) as [H|H];
        simpl.
      * rewrite length_app in H. simpl in H.
        destruct (frameRates (run cs)) as [|q l]; simpl in *; [lia|].
        rewrite length_app. simpl. lia.
      * exact H.
    + unfold maxSamples. lia.
Qed.

Lemma run_window (dts : list Q) :
  frameRates (run (map AddFrameTime dts)) = lastn maxSamples (map (Qdiv 1) dts).
Proof.
  induction dts as [|dt dts IH] using rev_ind.
  - reflexivity.
  - rewrite !map_app. simpl. rewrite run_snoc. simpl.
    unfold addFrameTime. rewrite IH, lastn_snoc.
    destruct (maxSamples <? _)%nat; reflexivity.
Qed.

(** C9.  Whatever calls were made on a new optimizer, the sample buffer
    holds at most 60 samples and the performance level lies in [0, 1];
    the average of an empty buffer is 60; and after a run of
    [addFrameTime] calls the buffer holds the samples of the last 60 of
    them, the oldest having been evicted first. *)
Theorem frame_buffer_bounded (cs : list call) (dts : list Q) :
  (length (frameRates (run cs)) <= 60)%nat /\
  0 <= getPerformanceLevel (run cs) <= 1 /\
  getAverageFPS (reset (run cs)) = 60 /\
  frameRates (run (map AddFrameTime dts)) = lastn 60 (map (Qdiv 1) dts).
Proof.
  split; [apply run_length|].
  split; [apply level_bounds|].
  split; [reflexivity | apply run_window].
Qed.

(** A hundred recorded frames leave exactly sixty samples. *)
Example hundred_frames :
  length (frameRates (run (repeat (AddFrameTime (1 / 60)) 100))) = 60%nat.
Proof. vm_compute. reflexivity. Qed.

(** C5 (amended).  [adjustParticleCount] returns the floor of 25%, 50%
    or 75% of the requested count when the performance level is below
    0.3, 0.6 or 0.8, and the requested count itself, not floored,
    otherwise.  The result is an integer when the level is below 0.8 or
    the requested count is an integer; for a requested count that is
    not negative it is at most the count and does not decrease when the
    performance level increases. *)
Theorem adjustParticleCount_spec (s : t) (requested : Q) :
  let level := getPerformanceLevel s in
  let result := adjustParticleCount requested s in
  (level < 0.3 -> result = floor (requested * 0.25)) /\
  (0.3 <= level < 0.6 -> result = floor (requested * 0.5)) /\
  (0.6 <= level < 0.8 -> result = floor (requested * 0.75)) /\
  (0.8 <= level -> result = requested) /\
  (level < 0.8 \/ (exists n : Z, requested = inject_Z n) ->
   exists k : Z, result = inject_Z k) /\
  (0 <= requested ->
   result <= requested /\
   forall s', level <= getPerformanceLevel s' ->
              result <= adjustParticleCount requested s').
Proof.
  intros level result.
  subst result. unfold adjustParticleCount. fold level.
  destruct (Qltb level 0.3) eqn:E1;
    [apply Qltb_lt in E1 | apply Qltb_ge in E1;
     destruct (Qltb level 0.6) eqn:E2;
       [apply Qltb_lt in E2 | apply Qltb_ge in E2;
        destruct (Qltb level 0.8) eqn:E3;
          [apply Qltb_lt in E3 | apply Qltb_ge in E3]]].
  all: repeat split; try reflexivity; try (intros; exfalso; lra).
  all: try (intros _; eexists; reflexivity).
  all: try (intros [Hlt|Hint]; [exfalso; lra | exact Hint]).
  all: try (apply floor_scale_le; [assumption | lra]).
  all: try apply Qle_refl.
  all: intros s' Hs'; set (level' := getPerformanceLevel s') in *.
  all: destruct (Qltb level' 0.3) eqn:F1;
    [apply Qltb_lt in F1 | apply Qltb_ge in F1;
     destruct (Qltb level' 0.6) eqn:F2;
       [apply Qltb_lt in F2 | apply Qltb_ge in F2;
        destruct (Qltb level' 0.8) eqn:F3;
          [apply Qltb_lt in F3 | apply Qltb_ge in F3]]].
  all: try (exfalso; lra).
  all: try apply Qle_refl.
  all: try (apply floor_scale_mono; [assumption | lra]).
  all: apply floor_scale_le; [assumption | lra].
Qed.

Lemma adjustParticleCount_spec_witness :
  adjustParticleCount 10000 (steady 45) = floor (10000 * 0.5) /\
  (exists k : Z, adjustParticleCount 10000 (steady 45) = inject_Z k) /\
  adjustParticleCount 10000 (steady 45) <= 10000 /\
  adjustParticleCount 10000 (steady 45) <= adjustParticleCount 10000 (steady 60) /\
  adjustParticleCount 10.5 (steady 60) = 10.5.
Proof.
  destruct (adjustParticleCount_spec (steady 45) 10000)
    as (_ & H2 & _ & _ & H5 & H6).
  destruct (adjustParticleCount_spec (steady 60) 10.5) as (_ & _ & _ & H4 & _).
  destruct H6 as [H6 H7]; [vm_compute; discriminate|].
  split; [apply H2; vm_compute; split; [discriminate | reflexivity]|].
  split; [apply H5; left; vm_compute; reflexivity|].
  split; [exact H6|].
  split; [apply H7; vm_compute; discriminate|].
  apply H4. vm_compute. discriminate.
Defined.

(** C5 as stated fails: with an empty buffer the performance level is 1
    and a requested count of 10.5 is returned as it is, which is no
    integer; and after one frame at 20 FPS the level is 0 and a
    requested count of -3 gives the floor of -0.75, which is -1 and
    more than the requested count. *)
Lemma flooredAndBounded_counterexample :
  adjustParticleCount 10.5 new = 10.5 /\
  ~ flooredAndBounded 10.5 new /\
  adjustParticleCount (-3) (addFrameTime (1 / 20) new) = -1 /\
  ~ flooredAndBounded (-3) (addFrameTime (1 / 20) new).
Proof.
  split; [reflexivity|]. split.
  - intros [[k Hk] _].
    change (adjustParticleCount 10.5 new) with 10.5 in Hk.
    unfold Qeq in Hk. cbn [Qnum Qden inject_Z] in Hk. lia.
  - split; [reflexivity|]. intros [_ H]. vm_compute in H. apply H. reflexivity.
Qed.

(** Average frame rates 20, 30, 45 and 60 give the levels 0, 0, 1/2 and 1
    and, of 10000 requested particles, 2500, 2500, 5000 and 10000. *)
Example adjustParticleCount_sequence :
  map (λ fps, Qred (getPerformanceLevel (steady fps))) [20; 30; 45; 60]
    = [0; 0; 1 # 2; 1] /\
  map (λ fps, Qred (adjustParticleCount 10000 (steady fps))) [20; 30; 45; 60]
    = [2500; 2500; 5000; 10000].
Proof. split; vm_compute; reflexivity. Qed.

End PerformanceOptimizerFacts.

(** ** AnimationSequencer: interpolation *)

Section InterpolationFacts.

Import AnimationSequencer.

Lemma findSegment_step (a b : AnimationKeyframe) (rest : list AnimationKeyframe)
    (t : Q) :
  findSegment (a :: b :: rest) t =
  if Qgeb t (time a) && Qle_bool t (time b) then Some (a, b)
  else findSegment (b :: rest) t.
Proof. reflexivity. Qed.

Lemma findSegment_later (kfs : list AnimationKeyframe) (t : Q) :
  Forall (λ k, t < time k) kfs -> findSegment kfs t = None.
Proof.
  induction 1 as [|a rest Ha Hrest IH]; [reflexivity|].
  simpl. destruct rest as [|b rest']; [reflexivity|].
  replace (Qgeb t (time a)) with false; [exact IH|].
  symmetry. apply Qgeb_lt, Ha.
Qed.

Lemma findSegment_earlier (kfs : list AnimationKeyframe) (t : Q) :
  Forall (λ k, time k < t) kfs -> findSegment kfs t = None.
Proof.
  induction 1 as [|a rest Ha Hrest IH]; [reflexivity|].
  simpl. destruct rest as [|b rest']; [reflexivity|].
  replace (Qle_bool t (time b)) with false;
    [rewrite andb_false_r; exact IH|].
  symmetry. apply Qle_bool_false. inversion Hrest; assumption.
Qed.

Lemma findSegment_final (init : list AnimationKeyframe)
    (a final : AnimationKeyframe) (t : Q) :
  Forall (λ k, time k < t) (init ++ [a]) -> t <= time final ->
  findSegment (init ++ [a; final]) t = Some (a, final).
Proof.
  intros Hinit Ht. induction init as [|k init IH]; simpl.
  - inversion Hinit as [|? ? Ha _]; subst.
    replace (Qgeb t (time a)) with true
      by (symmetry; apply Qgeb_ge, Qlt_le_weak, Ha).
    replace (Qle_bool t (time final)) with true
      by (symmetry; apply Qle_bool_iff, Ht).
    reflexivity.
  - inversion Hinit as [|? ? Hk Hrest]; subst.
    destruct (init ++ [a; final]) as [|b rest] eqn:E.
    { destruct init; discriminate. }
    replace (Qle_bool t (time b)) with false.
    { rewrite andb_false_r. apply IH, Hrest. }
    symmetry. apply Qle_bool_false.
    destruct init as [|k' init']; simpl in E; inversion E; subst.
    + inversion Hrest; assumption.
    + inversion Hrest; assumption.
Qed.

Lemma ascending_head (first : AnimationKeyframe) (rest : list AnimationKeyframe) :
  ascending (first :: rest) -> Forall (λ k, time first <= time k) rest.
Proof. intros H. inversion H; assumption. Qed.

Lemma ascending_last (init : list AnimationKeyframe) (final : AnimationKeyframe) :
  ascending (init ++ [final]) -> Forall (λ k, time k <= time final) init.
Proof.
  induction init as [|k init IH]; intros H; [constructor|].
  simpl in H. inversion H as [|? ? Hs Hk]; subst. constructor.
  - rewrite Forall_app in Hk. destruct Hk as [_ Hk].
    inversion Hk; assumption.
  - apply IH, Hs.
Qed.

Lemma last_snoc_inv {A} (l : list A) (x : A) :
  last l = Some x -> ∃ init, l = init ++ [x].
Proof.
  intros H. destruct l as [|y l'] using rev_ind; [discriminate|].
  rewrite last_snoc in H. inversion H; subst. eauto.
Qed.

Lemma List_last_snoc {A} (l : list A) (x d : A) : List.last (l ++ [x]) d = x.
Proof. apply List.last_last. Qed.

(** At or before the first keyframe the first bag is returned. *)
Lemma interpolateTrack_before (track : AnimationTrack)
    (first : AnimationKeyframe) (t : Q) :
  head (keyframes track) = Some first -> ascending (keyframes track) ->
  t <= time first -> interpolateTrack track t = properties first.
Proof.
  intros Hhead Hasc Ht. unfold interpolateTrack.
  destruct (keyframes track) as [|f rest]; [discriminate|].
  simpl in Hhead. inversion Hhead; subst f.
  assert (Hle : Qle_bool t (time first) = true) by (apply Qle_bool_iff, Ht).
  destruct rest as [|b rest'].
  { cbn [findSegment List.last]. rewrite Hle. reflexivity. }
  pose proof (ascending_head _ _ Hasc) as Hrest.
  rewrite findSegment_step.
  destruct (Qgeb t (time first) && Qle_bool t (time b)) eqn:E.
  { rewrite Hle. reflexivity. }
  assert (Hlt : t < time first).
  { apply andb_false_iff in E. destruct E as [E|E].
    - apply Qgeb_lt, E.
    - apply Qle_bool_false in E. inversion Hrest; subst. lra. }
  rewrite (findSegment_later (b :: rest')).
  - rewrite Hle. reflexivity.
  - eapply Forall_impl; [exact Hrest|]. simpl. intros k Hk. lra.
Qed.

(** Strictly after the last keyframe the last bag is returned. *)
Lemma interpolateTrack_after (track : AnimationTrack)
    (final : AnimationKeyframe) (t : Q) :
  last (keyframes track) = Some final -> ascending (keyframes track) ->
  time final < t -> interpolateTrack track t = properties final.
Proof.
  intros Hlast Hasc Ht. unfold interpolateTrack.
  destruct (last_snoc_inv _ _ Hlast) as [init Hkfs].
  rewrite Hkfs in *. clear Hlast.
  pose proof (ascending_last _ _ Hasc) as Hinit.
  assert (Hall : Forall (λ k, time k < t) (init ++ [final])).
  { rewrite Forall_app. split.
    - eapply Forall_impl; [exact Hinit|]. simpl. intros k Hk. lra.
    - repeat constructor. exact Ht. }
  rewrite (findSegment_earlier _ _ Hall).
  destruct (init ++ [final]) as [|f rest] eqn:E.
  { destruct init; discriminate. }
  rewrite <- E, List_last_snoc.
  assert (Hf : time f < t).
  { inversion Hall; assumption. }
  replace (Qle_bool t (time f)) with false
    by (symmetry; apply Qle_bool_false, Hf).
  replace (Qgeb t (time final)) with true
    by (symmetry; apply Qgeb_ge, Qlt_le_weak, Ht).
  reflexivity.
Qed.

(** Exactly at the last keyframe the last bag is returned when all the
    earlier keyframes are strictly earlier. *)
Lemma interpolateTrack_at_last (track : AnimationTrack)
    (init : list AnimationKeyframe) (final : AnimationKeyframe) (t : Q) :
  keyframes track = init ++ [final] ->
  Forall (λ k, time k < time final) init ->
  t == time final -> interpolateTrack track t = properties final.
Proof.
  intros Hkfs Hinit Ht. unfold interpolateTrack. rewrite Hkfs.
  assert (Hge : Qgeb t (time final) = true) by (apply Qgeb_ge; lra).
  assert (Hle : Qle_bool t (time final) = true) by (apply Qle_bool_iff; lra).
  destruct init as [|a init _] using rev_ind.
  { cbn [app findSegment List.last]. rewrite Hle. reflexivity. }
  replace ((init ++ [a]) ++ [final]) with (init ++ [a; final])
    by (rewrite <- app_assoc; reflexivity).
  assert (Hall : Forall (λ k, time k < t) (init ++ [a])).
  { eapply Forall_impl; [exact Hinit|]. simpl. intros k Hk. lra. }
  rewrite (findSegment_final init a final t Hall) by lra.
  destruct (init ++ [a; final]) as [|f rest] eqn:E.
  { destruct init; discriminate. }
  assert (Ha : time a < t).
  { rewrite Forall_app in Hall. destruct Hall as [_ Hall].
    inversion Hall; assumption. }
  replace (Qle_bool t (time a)) with false
    by (symmetry; apply Qle_bool_false, Ha).
  rewrite Hge. reflexivity.
Qed.

End InterpolationFacts.

Section InterpolationBoundary.

Import AnimationSequencer.

(** C6 (amended).  For a track whose keyframes are in ascending order, a
    query at or before the first keyframe's time returns exactly the
    first keyframe's property bag; a query after the last keyframe's
    time returns exactly the last keyframe's bag; and so does a query
    exactly at the last keyframe's time when every earlier keyframe is
    strictly earlier than the last one. *)
Theorem interpolateTrack_boundary (track : AnimationTrack)
    (init : list AnimationKeyframe) (first final : AnimationKeyframe) (t : Q) :
  keyframes track = init ++ [final] ->
  head (keyframes track) = Some first ->
  ascending (keyframes track) ->
  (t <= time first -> interpolateTrack track t = properties first) /\
  (time final < t -> interpolateTrack track t = properties final) /\
  (t == time final -> Forall (λ k, time k < time final) init ->
   interpolateTrack track t = properties final).
Proof.
  intros Hkfs Hhead Hasc. split; [|split].
  - apply interpolateTrack_before; assumption.
  - apply interpolateTrack_after; [|assumption].
    rewrite Hkfs. apply last_snoc.
  - intros Ht Hinit. apply (interpolateTrack_at_last track init); assumption.
Qed.

Lemma particlesTrack_ascending : ascending (keyframes particlesTrack).
Proof.
  unfold ascending. cbn [keyframes particlesTrack].
  repeat (constructor; try (vm_compute; discriminate)).
Defined.

Lemma interpolateTrack_boundary_witness :
  ascending (keyframes particlesTrack) /\
  interpolateTrack particlesTrack 0
    = properties (numeric 0 "intensity" 1.0 "count" 5000) /\
  interpolateTrack particlesTrack 75
    = properties (numeric 60 "intensity" 1.0 "count" 5000) /\
  interpolateTrack particlesTrack 60
    = properties (numeric 60 "intensity" 1.0 "count" 5000).
Proof.
  split; [exact particlesTrack_ascending|].
  pose proof (λ t, interpolateTrack_boundary particlesTrack
                [numeric 0 "intensity" 1.0 "count" 5000;
                 numeric 20 "intensity" 1.5 "count" 8000;
                 numeric 40 "intensity" 2.0 "count" 10000]
                (numeric 0 "intensity" 1.0 "count" 5000)
                (numeric 60 "intensity" 1.0 "count" 5000)
                t eq_refl eq_refl particlesTrack_ascending) as H.
  split; [|split].
  - destruct (H 0) as (H1 & _ & _). apply H1. vm_compute. discriminate.
  - destruct (H 75) as (_ & H2 & _). apply H2. vm_compute. reflexivity.
  - destruct (H 60) as (_ & _ & H3). apply H3.
    + vm_compute. reflexivity.
    + repeat (constructor; try (vm_compute; reflexivity)).
Defined.

(** C6 as stated fails: in [tiedTrack], whose keyframe times 0, 10, 10
    are ascending, a query at time 10 returns the bag of the second
    keyframe, not that of the last. *)
Lemma clampsToEndpoints_counterexample :
  ascending (keyframes tiedTrack) /\
  interpolateTrack tiedTrack 10 !! "x" = Some (jnum 1) /\
  ~ clampsToEndpoints tiedTrack.
Proof.
  split; [|split].
  - unfold ascending. cbn [keyframes tiedTrack].
    repeat (constructor; try (vm_compute; discriminate)).
  - vm_compute. reflexivity.
  - intros H.
    destruct (H (keyframe 0 [("x", jnum 0)]) (keyframe 10 [("x", jnum 2)]) 10
                eq_refl eq_refl) as [_ Hlast].
    assert (Hle : time (keyframe 10 [("x", jnum 2)]) <= 10) by apply Qle_refl.
    apply Hlast in Hle.
    apply (f_equal (λ m : bag, m !! "x")) in Hle.
    vm_compute in Hle. discriminate.
Qed.

(** The midpoint of a linear segment: between [x = 0] at 0 and [x = 100]
    at 10, time 5 gives [x = 50]. *)
Example interpolateTrack_midpoint :
  match interpolateTrack
          {| track_id := "x";
             keyframes := [keyframe 0 [("x", jnum 0)]; keyframe 10 [("x", jnum 100)]] |}
          5 !! "x" with
  | Some (JNum (Fin x)) => x == 50
  | _ => False
  end.
Proof. vm_compute. reflexivity. Qed.

End InterpolationBoundary.

(** ** AnimationSequencer: playback *)

Section PlaybackFacts.

Import AnimationSequencer.

Lemma loopEvents_app (s : t) (es : list event) (evs : list event) :
  events s = evs ++ es ->
  loopEvents s = (length (List.filter isLoop evs) + length (List.filter isLoop es))%nat.
Proof.
  intros H. unfold loopEvents. rewrite H, List.filter_app, length_app. reflexivity.
Qed.

(** C1 (amended).  When [update] is called on a playing, looping
    sequence and the computed progress has reached 1, the sequencer
    restarts the sequence: the progress becomes exactly 0, whatever the
    overshoot was, the start time becomes the current time, the
    sequencer keeps playing, exactly one [loop] event is fired, and the
    tracks are resolved at time 0 for the [update] event of this call. *)
Theorem update_loop_restarts (now : Z) (s : t) (current : AnimationSequence) :
  currentSequence s = Some current ->
  isPlaying s = true ->
  loop current = true ->
  1 <= rawProgress now s current ->
  progress (update now s) = 0 /\
  startTime (update now s) = inject_Z now /\
  isPlaying (update now s) = true /\
  loopEvents (update now s) = S (loopEvents s) /\
  events (update now s)
  = events s ++ [Loop (id current)]
    ++ (if onUpdate current then [CallOnUpdate (id current) 0] else [])
    ++ [Update (id current) 0 (frameData current (0 * duration current))].
Proof.
  intros Hcur Hplay Hloop Hp.
  assert (Hev : events (update now s)
                = events s ++ [Loop (id current)]
                  ++ (if onUpdate current then [CallOnUpdate (id current) 0] else [])
                  ++ [Update (id current) 0 (frameData current (0 * duration current))]
                /\ progress (update now s) = 0
                /\ startTime (update now s) = inject_Z now
                /\ isPlaying (update now s) = true).
  { unfold update. rewrite Hcur, Hplay. cbn [negb].
    replace (Qgeb (rawProgress now s current) 1) with true
      by (symmetry; apply Qgeb_ge, Hp).
    rewrite Hloop. cbn [events progress startTime isPlaying]. tauto. }
  destruct Hev as (Hev & H1 & H2 & H3).
  repeat split; try assumption.
  rewrite (loopEvents_app _ _ _ Hev). fold (loopEvents s).
  destruct (onUpdate current); cbn; lia.
Qed.

Lemma update_loop_restarts_witness :
  1 <= rawProgress 25000 playingTen ten /\
  progress (update 25000 playingTen) = 0 /\
  loopEvents (update 25000 playingTen) = 1%nat.
Proof.
  assert (H : 1 <= rawProgress 25000 playingTen ten) by (vm_compute; discriminate).
  split; [exact H|].
  destruct (update_loop_restarts 25000 playingTen ten eq_refl eq_refl eq_refl H)
    as (H1 & _ & _ & H4 & _).
  split; [exact H1 | exact H4].
Defined.

(** C1 as stated fails: a sequence of 10 seconds that loops, started at
    time 0 with speed 1 and updated after 25 seconds, has computed
    progress 2.5; the call leaves the progress at 0, not at 0.5, and has
    fired one [loop] event, not two. *)
Lemma wrapsModuloOne_counterexample :
  rawProgress 25000 playingTen ten == 2.5 /\
  progress (update 25000 playingTen) == 0 /\
  ~ progress (update 25000 playingTen) == 0.5 /\
  loopEvents (update 25000 playingTen) = 1%nat /\
  ~ wrapsModuloOne 25000 playingTen.
Proof.
  split; [vm_compute; reflexivity|].
  split; [vm_compute; reflexivity|].
  split; [vm_compute; discriminate|].
  split; [vm_compute; reflexivity|].
  intros H.
  assert (Hp : 1 <= rawProgress 25000 playingTen ten) by (vm_compute; discriminate).
  specialize (H ten eq_refl eq_refl eq_refl Hp).
  vm_compute in H. discriminate.
Qed.

(** Updated once per second, the same sequence loops at 10 s and at 20 s
    and is half way through after 25 s. *)
Example update_every_second :
  let s := fold_left (λ s' k, update (1000 * Z.of_nat k) s') (seq 1 25) playingTen in
  progress s == 0.5 /\ loopEvents s = 2%nat.
Proof. vm_compute. split; reflexivity. Qed.

(** A looping sequence never leaves the playing state in [update]; one
    that does not loop stops at progress 1 with one [complete] event and
    no [update] event. *)
Lemma update_complete (now : Z) (s : t) (current : AnimationSequence) :
  currentSequence s = Some current -> isPlaying s = true ->
  loop current = false -> 1 <= rawProgress now s current ->
  progress (update now s) = 1 /\ isPlaying (update now s) = false /\
  events (update now s)
  = events s ++ (if onComplete current then [CallOnComplete (id current)] else [])
    ++ [Complete (id current)].
Proof.
  intros Hcur Hplay Hloop Hp. unfold update. rewrite Hcur, Hplay. cbn [negb].
  replace (Qgeb (rawProgress now s current) 1) with true
    by (symmetry; apply Qgeb_ge, Hp).
  rewrite Hloop. cbn. tauto.
Qed.

(** [pause] keeps the progress and only clears the playing flag. *)
Lemma pause_keeps_progress (s : t) :
  progress (pause s) = progress s /\ startTime (pause s) = startTime s /\
  isPlaying (pause s) = false.
Proof. repeat split. Qed.

(** Resuming with [play()] restarts: whatever the progress was, the next
    [update] at the time of the [play] call computes progress 0. *)
Lemma play_restarts (now : Z) (s : t) (current : AnimationSequence) :
  currentSequence s = Some current ->
  progress (update now (play None now (pause s))) == 0.
Proof.
  intros Hcur. unfold play. cbn [pause emit currentSequence].
  rewrite Hcur. unfold update. cbn [currentSequence isPlaying negb].
  assert (Hraw : ∀ s', startTime s' = inject_Z now ->
                       rawProgress now s' current == 0).
  { intros s' Hs'. unfold rawProgress. rewrite Hs'.
    unfold Qdiv. ring. }
  match goal with
  | |- context [Qgeb (rawProgress now ?s' current) 1] =>
      pose proof (Hraw s' eq_refl) as H0;
      replace (Qgeb (rawProgress now s' current) 1) with false
        by (symmetry; apply Qgeb_lt; rewrite H0; reflexivity)
  end.
  cbn [progress]. exact H0.
Qed.

(** C3 at a concrete run.  The cosmic sequence (60 seconds) is started at
    time 0, updated at 30 s (progress 0.5) and paused; the pause keeps
    the progress 0.5.  It is resumed with [play()] at 40 s and updated at
    once, with no additional play time: the progress is 0, not 0.5. *)
Lemma pause_resume_restarts :
  progress pausedCosmic == 0.5 /\
  isPlaying pausedCosmic = false /\
  isPlaying (play None 40000 pausedCosmic) = true /\
  progress (update 40000 (play None 40000 pausedCosmic)) == 0 /\
  ~ progress (update 40000 (play None 40000 pausedCosmic)) == 0.5.
Proof.
  split; [vm_compute; reflexivity|].
  split; [reflexivity|].
  split; [reflexivity|].
  split; [vm_compute; reflexivity|].
  vm_compute. discriminate.
Qed.

(** [seek] followed by an [update] at the same time yields the progress
    that was sought. *)
Example seek_then_update :
  progress (update 7000 (seek 0.5 7000 playingTen)) == 0.5.
Proof. vm_compute. reflexivity. Qed.

End PlaybackFacts.

(** ** Maps and objects *)

Section JsMapFacts.

Context {V : Type}.
Implicit Types (m : JsMap.t V) (k : string) (v : V).

Lemma get_set k k' v m :
  JsMap.get k' (JsMap.set k v m) = if decide (k' = k) then Some v else JsMap.get k' m.
Proof.
  induction m as [|[k0 v0] m IH]; simpl.
  - destruct (decide (k' = k)); reflexivity.
  - destruct (decide (k = k0)) as [->|Hne]; simpl.
    + destruct (decide (k' = k0)); reflexivity.
    + destruct (decide (k' = k0)) as [->|].
      * rewrite decide_False by congruence. reflexivity.
      * apply IH.
Qed.

Lemma get_set_eq k v m : JsMap.get k (JsMap.set k v m) = Some v.
Proof. rewrite get_set, decide_True; reflexivity. Qed.

Lemma get_remove k k' m :
  JsMap.get k' (JsMap.remove k m) = if decide (k' = k) then None else JsMap.get k' m.
Proof.
  unfold JsMap.remove. induction m as [|[k0 v0] m IH].
  - simpl. destruct (decide (k' = k)); reflexivity.
  - rewrite filter_cons.
    destruct (decide ((k0, v0).1 ≠ k)) as [Hne|Heq]; cbn [fst JsMap.get] in *.
    + destruct (decide (k' = k0)) as [->|]; [|apply IH].
      rewrite decide_False by assumption. reflexivity.
    + apply dec_stable in Heq. subst k0.
      rewrite IH. destruct (decide (k' = k)); reflexivity.
Qed.

Lemma get_None k m : JsMap.get k m = None ↔ k ∉ JsMap.keys m.
Proof.
  unfold JsMap.keys. induction m as [|[k0 v0] m IH]; simpl.
  - split; [intros _; apply not_elem_of_nil | reflexivity].
  - rewrite not_elem_of_cons. destruct (decide (k = k0)) as [->|Hne].
    + split; [discriminate | intros [? _]; congruence].
    + rewrite IH. tauto.
Qed.

Lemma get_Some_elem k v m : JsMap.get k m = Some v → (k, v) ∈ m.
Proof.
  induction m as [|[k0 v0] m IH]; simpl; [discriminate|].
  destruct (decide (k = k0)) as [->|Hne].
  - intros [= ->]. apply list_elem_of_here.
  - intros H. apply list_elem_of_further, IH, H.
Qed.

Lemma elem_get k v m : NoDup (JsMap.keys m) → (k, v) ∈ m → JsMap.get k m = Some v.
Proof.
  unfold JsMap.keys. induction m as [|[k0 v0] m IH]; simpl; intros Hnd Hin.
  - apply elem_of_nil in Hin. contradiction.
  - apply NoDup_cons in Hnd. destruct Hnd as [Hk0 Hnd].
    apply elem_of_cons in Hin. destruct Hin as [[= -> ->]|Hin].
    + rewrite decide_True; reflexivity.
    + destruct (decide (k = k0)) as [->|Hne]; [|apply IH; assumption].
      exfalso. apply Hk0. apply (list_elem_of_fmap_2 fst) in Hin. exact Hin.
Qed.

Lemma has_get k m : JsMap.has k m = true ↔ is_Some (JsMap.get k m).
Proof.
  unfold JsMap.has. destruct (JsMap.get k m); split; intros H;
    try reflexivity; try discriminate; [eauto | destruct H; discriminate].
Qed.

Lemma has_false k m : JsMap.has k m = false ↔ JsMap.get k m = None.
Proof.
  unfold JsMap.has. destruct (JsMap.get k m); split; intros H;
    try reflexivity; discriminate.
Qed.

Lemma keys_set k v m :
  JsMap.keys (JsMap.set k v m)
  = if JsMap.has k m then JsMap.keys m else JsMap.keys m ++ [k].
Proof.
  unfold JsMap.keys, JsMap.has, fmap.
  induction m as [|[k0 v0] m IH]; simpl; [reflexivity|].
  destruct (decide (k = k0)) as [->|Hne]; simpl; [reflexivity|].
  rewrite IH. destruct (JsMap.get k m); reflexivity.
Qed.

Lemma NoDup_set k v m : NoDup (JsMap.keys m) → NoDup (JsMap.keys (JsMap.set k v m)).
Proof.
  intros Hnd. rewrite keys_set. destruct (JsMap.has k m) eqn:E; [assumption|].
  apply NoDup_app. split; [assumption|]. split; [|apply NoDup_singleton].
  intros x Hx Hin. apply list_elem_of_singleton in Hin. subst x.
  apply has_false, get_None in E. contradiction.
Qed.

Lemma NoDup_remove k m : NoDup (JsMap.keys m) → NoDup (JsMap.keys (JsMap.remove k m)).
Proof.
  unfold JsMap.keys, JsMap.remove. induction m as [|[k0 v0] m IH]; intros Hnd.
  - constructor.
  - cbn [fmap list_fmap fst] in Hnd.
    apply NoDup_cons in Hnd. destruct Hnd as [Hk0 Hnd].
    rewrite filter_cons.
    destruct (decide ((k0, v0).1 ≠ k)); [|apply IH, Hnd].
    cbn [fmap list_fmap fst]. apply NoDup_cons. split; [|apply IH, Hnd].
    intros Hin. apply Hk0. apply list_elem_of_fmap in Hin.
    destruct Hin as ([k1 v1] & -> & Hin). apply list_elem_of_filter in Hin.
    destruct Hin as [_ Hin]. apply (list_elem_of_fmap_2 fst) in Hin. exact Hin.
Qed.

Lemma Forall_set (P : string * V → Prop) k v m :
  Forall P m → P (k, v) → Forall P (JsMap.set k v m).
Proof.
  intros Hm Hkv. induction Hm as [|[k0 v0] m H0 Hm IH]; simpl.
  - repeat constructor. exact Hkv.
  - destruct (decide (k = k0)); constructor; assumption.
Qed.

Lemma Forall_remove (P : string * V → Prop) k m :
  Forall P m → Forall P (JsMap.remove k m).
Proof.
  intros Hm. rewrite Forall_forall in *. intros x Hx.
  apply list_elem_of_filter in Hx. apply Hm, Hx.
Qed.

Lemma Forall_get (P : string * V → Prop) k v m :
  Forall P m → JsMap.get k m = Some v → P (k, v).
Proof.
  intros Hm Hget. apply get_Some_elem in Hget.
  rewrite Forall_forall in Hm. apply Hm, Hget.
Qed.

(** Assignment to a property of an object. *)
Lemma get_object_set k k' v (o : JsObject.t V) :
  JsMap.get k' (JsObject.set k v o) = if decide (k' = k) then Some v else JsMap.get k' o.
Proof.
  induction o as [|[k0 v0] o IH]; simpl.
  - destruct (decide (k' = k)); reflexivity.
  - destruct (decide (k = k0)) as [->|Hne]; simpl.
    + destruct (decide (k' = k0)); reflexivity.
    + destruct (JsObject.before k k0 && negb (JsMap.has k o)); simpl.
      * destruct (decide (k' = k)); reflexivity.
      * destruct (decide (k' = k0)) as [->|]; [|apply IH].
        rewrite decide_False by congruence. reflexivity.
Qed.

Lemma NoDup_object_set k v (o : JsObject.t V) :
  NoDup (JsMap.keys o) → NoDup (JsMap.keys (JsObject.set k v o)).
Proof.
  unfold JsMap.keys. induction o as [|[k0 v0] o IH]; simpl; intros Hnd.
  - apply NoDup_singleton.
  - apply NoDup_cons in Hnd. destruct Hnd as [Hk0 Hnd].
    destruct (decide (k = k0)) as [->|Hne]; simpl.
    { apply NoDup_cons. split; assumption. }
    destruct (JsObject.before k k0 && negb (JsMap.has k o)) eqn:E; simpl.
    + apply andb_true_iff in E. destruct E as [_ E].
      apply negb_true_iff, has_false, get_None in E.
      apply NoDup_cons. split.
      * rewrite not_elem_of_cons. split; assumption.
      * apply NoDup_cons. split; assumption.
    + apply NoDup_cons. split; [|apply IH, Hnd].
      intros Hin. apply Hk0.
      assert (Hget : JsMap.get k0 (JsObject.set k v o) ≠ None).
      { intros Hnone. apply get_None in Hnone. contradiction. }
      rewrite get_object_set, decide_False in Hget by congruence.
      destruct (JsMap.get k0 o) eqn:G; [|congruence].
      apply get_Some_elem in G. apply (list_elem_of_fmap_2 fst) in G. exact G.
Qed.

(** Array-index keys are enumerated first, in numeric order, and the
    other keys in the order of their creation. *)
Example object_key_order :
  JsMap.keys (JsObject.set "1" 4 (JsObject.set "a" 3 (JsObject.set "10" 2
    (JsObject.set "b" 1 (JsObject.set "2" 0 [])))))%nat
  = ["1"; "2"; "10"; "b"; "a"].
Proof. reflexivity. Qed.

End JsMapFacts.

(** ** EffectManager: enabling an effect *)

Section EnableFacts.

Import EffectManager.

Lemma spread_empty (b : bag) : spread ∅ b = b.
Proof. unfold spread. apply (right_id_L ∅ (∪)). Qed.

Lemma isEffectActive_get (effectId : string) (s : t) :
  isEffectActive effectId s = true ↔ is_Some (JsMap.get effectId (activeEffects s)).
Proof. apply has_get. Qed.

Lemma missing_dependency (deps : list string) (dep : string) (s : t) :
  dep ∈ deps -> isEffectActive dep s = false ->
  (0 <? length (List.filter (λ d, negb (isEffectActive d s)) deps))%nat = true.
Proof.
  intros Hin Hdep. apply Nat.ltb_lt.
  assert (H : In dep (List.filter (λ d, negb (isEffectActive d s)) deps)).
  { apply List.filter_In. split; [apply list_elem_of_In, Hin|].
    rewrite Hdep. reflexivity. }
  destruct (List.filter _ deps); [contradiction | simpl; lia].
Qed.

Lemma no_missing_dependency (deps : list string) (s : t) :
  Forall (λ dep, isEffectActive dep s = true) deps ->
  List.filter (λ d, negb (isEffectActive d s)) deps = [].
Proof.
  induction 1 as [|d deps Hd _ IH]; [reflexivity|].
  simpl. rewrite Hd. exact IH.
Qed.

Lemma enableEffect_unknown (s : t) (effectId : string) (intensity : option Q)
    (now : Z) :
  JsMap.get effectId (effects s) = None ->
  enableEffect effectId intensity now s = (false, s).
Proof. intros Hnone. unfold enableEffect. rewrite Hnone. reflexivity. Qed.

Lemma enableEffect_missing (s : t) (effectId : string) (intensity : option Q)
    (now : Z) (effect : Effect.t) (deps : list string) (dep : string) :
  JsMap.get effectId (effects s) = Some effect ->
  Effect.dependencies effect = Some deps ->
  dep ∈ deps -> isEffectActive dep s = false ->
  enableEffect effectId intensity now s = (false, s).
Proof.
  intros Hget Hdeps Hin Hdep. unfold enableEffect.
  rewrite Hget, Hdeps, (missing_dependency deps dep s Hin Hdep). reflexivity.
Qed.

(** C4.  When the id is not in the catalog, or the effect has a declared
    dependency that is not active, [enableEffect] returns false and
    leaves the whole manager unchanged: the active effects, the global
    intensity, and the calls delivered to listeners. *)
Theorem enableEffect_rejects (s : t) (effectId : string) (intensity : option Q)
    (now : Z) :
  (JsMap.get effectId (effects s) = None \/
   exists effect deps dep,
     JsMap.get effectId (effects s) = Some effect /\
     Effect.dependencies effect = Some deps /\
     dep ∈ deps /\ isEffectActive dep s = false) ->
  enableEffect effectId intensity now s = (false, s).
Proof.
  intros [Hnone | (effect & deps & dep & Hget & Hdeps & Hin & Hdep)].
  - apply enableEffect_unknown, Hnone.
  - apply (enableEffect_missing s effectId intensity now effect deps dep);
      assumption.
Qed.

Lemma enableEffect_rejects_witness :
  enableEffect "aurora" (Some 1) 0 burning = (false, burning) /\
  enableEffect "audio_reactive" None 0 burning = (false, burning) /\
  enableEffect "stars" None 0 daytime = (false, daytime).
Proof.
  split; [|split].
  - apply enableEffect_rejects. left. reflexivity.
  - apply enableEffect_rejects. right.
    eexists _, ["audio_context"], "audio_context".
    split; [reflexivity|]. split; [reflexivity|].
    split; [apply list_elem_of_here | reflexivity].
  - apply enableEffect_rejects. right.
    eexists _, ["night"], "night".
    split; [reflexivity|]. split; [reflexivity|].
    split; [apply list_elem_of_here | reflexivity].
Defined.

(** What a successful [enableEffect] does, with the conflicts already
    disabled in [disableConflicts]. *)
Lemma enableEffect_accepts (s : t) (effectId : string) (intensity : option Q)
    (now : Z) (effect : Effect.t) :
  JsMap.get effectId (effects s) = Some effect ->
  dependenciesActive effect s ->
  enableEffect effectId intensity now s
  = (true,
     let s1 := disableConflicts (default [] (Effect.conflictsWith effect)) s in
     notifyListeners
       (setActive (JsMap.set effectId (freshState effect intensity now)
                     (activeEffects s1)) s1)).
Proof.
  intros Hget Hdeps. unfold enableEffect. rewrite Hget.
  replace (match Effect.dependencies effect with
           | Some deps => List.filter (λ dep, negb (isEffectActive dep s)) deps
           | None => []
           end) with (@nil string).
  2:{ destruct (Effect.dependencies effect) as [deps|] eqn:E; [|reflexivity].
      symmetry. apply no_missing_dependency, Hdeps, E. }
  cbn [length Nat.ltb Nat.leb]. rewrite spread_empty.
  destruct (Effect.conflictsWith effect); reflexivity.
Qed.

Lemma enableEffect_cases (s : t) (i : string) (v : option Q) (now : Z) :
  enableEffect i v now s = (false, s) \/
  ∃ effect,
    JsMap.get i (effects s) = Some effect /\
    enableEffect i v now s
    = (true,
       let s1 := disableConflicts (default [] (Effect.conflictsWith effect)) s in
       notifyListeners
         (setActive (JsMap.set i (freshState effect v now) (activeEffects s1)) s1)).
Proof.
  unfold enableEffect. destruct (JsMap.get i (effects s)) as [effect|]; [|left; reflexivity].
  destruct (0 <? length _)%nat; [left; reflexivity|].
  right. exists effect. split; [reflexivity|].
  rewrite spread_empty. destruct (Effect.conflictsWith effect); reflexivity.
Qed.

(** C10.  Enabling an effect that is already active, its dependencies
    being active, succeeds and replaces its state: the intensity is the
    argument clamped to [0, 2] (1 when absent) and the parameters are
    the effect's defaults from the catalog, whatever overrides the old
    state carried. *)
Theorem enableEffect_again_replaces (s : t) (effectId : string)
    (intensity : option Q) (now : Z) (effect : Effect.t) (old : EffectState.t) :
  JsMap.get effectId (effects s) = Some effect ->
  dependenciesActive effect s ->
  JsMap.get effectId (activeEffects s) = Some old ->
  (enableEffect effectId intensity now s).1 = true /\
  JsMap.get effectId (activeEffects (enableEffect effectId intensity now s).2)
  = Some {| EffectState.effect := effect;
            EffectState.enabled := true;
            EffectState.intensity := clamp 0 2 (default 1.0 intensity);
            EffectState.parameters := default ∅ (Effect.parameters effect);
            EffectState.lastUpdate := now |}.
Proof.
  intros Hget Hdeps _. rewrite (enableEffect_accepts s effectId intensity now effect)
    by assumption.
  split; [reflexivity|]. cbn [snd notifyListeners setActive activeEffects].
  apply get_set_eq.
Qed.

Lemma enableEffect_again_replaces_witness :
  match JsMap.get "fire" (activeEffects hotter) with
  | Some old => EffectState.parameters old !! "temperature"
  | None => None
  end = Some (jnum 5) /\
  (enableEffect "fire" (Some 3) 9 hotter).1 = true /\
  JsMap.get "fire" (activeEffects (enableEffect "fire" (Some 3) 9 hotter).2)
  = Some {| EffectState.effect := fireEffect;
            EffectState.enabled := true;
            EffectState.intensity := clamp 0 2 3;
            EffectState.parameters := default ∅ (Effect.parameters fireEffect);
            EffectState.lastUpdate := 9 |}.
Proof.
  split; [vm_compute; reflexivity|].
  destruct (JsMap.get "fire" (activeEffects hotter)) as [old|] eqn:E;
    [|vm_compute in E; discriminate].
  apply (enableEffect_again_replaces hotter "fire" (Some 3) 9 fireEffect old).
  - reflexivity.
  - intros deps Hdeps. discriminate.
  - exact E.
Defined.

End EnableFacts.

(** ** EffectManager: reachable states *)

Section ReachableFacts.

Import EffectManager.

Variable library : list Effect.t.
Variable P : t -> Prop.

Hypothesis P_create : P (create library).
Hypothesis P_enable : ∀ s i v now, P s -> P (enableEffect i v now s).2.
Hypothesis P_disable : ∀ s i, P s -> P (disableEffect i s).2.
Hypothesis P_intensity : ∀ s i v now, P s -> P (setEffectIntensity i v now s).2.
Hypothesis P_parameters : ∀ s i ps now, P s -> P (setEffectParameters i ps now s).2.
Hypothesis P_global : ∀ s v, P s -> P (setGlobalIntensity v s).
Hypothesis P_clear : ∀ s, P s -> P (disableAllEffects s).
Hypothesis P_listen : ∀ s l, P s -> P (addListener l s).
Hypothesis P_unlisten : ∀ s l, P s -> P (removeListener l s).

Lemma P_enableAll (ids : list string) (v : option Q) (now : Z) (s : t) :
  P s -> P (enableAll ids v now s).
Proof.
  unfold enableAll. revert s.
  induction ids as [|i ids IH]; intros s Hs; [exact Hs|].
  simpl. apply IH, P_enable, Hs.
Qed.

Lemma P_importEffect (now : Z) (s : t) (e : string * Configuration.settings) :
  P s -> P (importEffect now s e).
Proof.
  intros Hs. unfold importEffect.
  pose proof (P_enable s e.1 (Configuration.intensity e.2) now Hs) as H1.
  destruct (enableEffect e.1 (Configuration.intensity e.2) now s) as [[|] s1];
    simpl in H1; [|exact H1].
  destruct (Configuration.parameters e.2); [|exact H1].
  apply P_parameters, H1.
Qed.

Lemma P_import (config : Configuration.t) (now : Z) (s : t) :
  P s -> P (importConfiguration config now s).
Proof.
  intros Hs. unfold importConfiguration.
  set (s2 := match Configuration.globalIntensity config with
             | Some g => setGlobalIntensity g (disableAllEffects s)
             | None => disableAllEffects s
             end).
  assert (H2 : P s2).
  { subst s2. destruct (Configuration.globalIntensity config);
      [apply P_global|]; apply P_clear, Hs. }
  destruct (Configuration.activeEffects config) as [o|]; [|exact H2].
  unfold JsObject.entries. clearbody s2. revert s2 H2.
  induction o as [|e o IH]; intros s2 H2; [exact H2|].
  simpl. apply IH, P_importEffect, H2.
Qed.

Lemma P_run_call (s : t) (c : call) : P s -> P (run_call s c).
Proof.
  intros Hs. destruct c; simpl; auto.
  - unfold toggleEffect. destruct (isEffectActive effectId s); auto.
  - apply P_enableAll, Hs.
  - apply P_enableAll, P_clear, Hs.
  - apply P_import, Hs.
Qed.

(** A property that the constructor establishes and the primitive
    calls keep holds in every reachable state. *)
Lemma reachable_invariant (s : t) : reachable library s -> P s.
Proof.
  intros [calls ->].
  induction calls as [|c calls IH] using rev_ind; [exact P_create|].
  rewrite fold_left_app. simpl. apply P_run_call, IH.
Qed.

End ReachableFacts.

Section WellFormedFacts.

Import EffectManager.

Lemma clamp_intensity (v : Q) : 0 <= Qmax 0 (Qmin 2 v) <= 2.
Proof. apply (clamp_bounds 0 2 v). lra. Qed.

Lemma wellFormed_set (s : t) (i : string) (st : EffectState.t) :
  wellFormed s -> 0 <= EffectState.intensity st <= 2 ->
  wellFormed (notifyListeners (setActive (JsMap.set i st (activeEffects s)) s)).
Proof.
  intros (H1 & H2 & H3 & H4) Hst. repeat split; cbn; try tauto.
  - apply NoDup_set, H1.
  - apply Forall_set; assumption.
Qed.

Lemma wellFormed_remove (s : t) (i : string) :
  wellFormed s ->
  wellFormed (notifyListeners (setActive (JsMap.remove i (activeEffects s)) s)).
Proof.
  intros (H1 & H2 & H3 & H4). repeat split; cbn; try tauto.
  - apply NoDup_remove, H1.
  - apply Forall_remove, H3.
Qed.

Lemma wellFormed_disable (s : t) (i : string) :
  wellFormed s -> wellFormed (disableEffect i s).2.
Proof.
  intros Hs. unfold disableEffect, JsMap.delete.
  destruct (JsMap.has i (activeEffects s)); [|exact Hs].
  apply wellFormed_remove, Hs.
Qed.

Lemma wellFormed_disableConflicts (cs : list string) (s : t) :
  wellFormed s -> wellFormed (disableConflicts cs s).
Proof.
  unfold disableConflicts. revert s.
  induction cs as [|c cs IH]; intros s Hs; [exact Hs|].
  simpl. apply IH. destruct (isEffectActive c s); [|exact Hs].
  apply wellFormed_disable, Hs.
Qed.

Lemma wellFormed_enable (s : t) (i : string) (v : option Q) (now : Z) :
  wellFormed s -> wellFormed (enableEffect i v now s).2.
Proof.
  intros Hs. unfold enableEffect.
  destruct (JsMap.get i (effects s)) as [effect|]; [|exact Hs].
  destruct (0 <? length _)%nat; [exact Hs|].
  cbn [snd]. apply wellFormed_set; [|apply clamp_intensity].
  destruct (Effect.conflictsWith effect);
    [apply wellFormed_disableConflicts|]; exact Hs.
Qed.

(** Every reachable manager is well formed, whatever its library. *)
Lemma reachable_wellFormed (library : list Effect.t) (s : t) :
  reachable library s -> wellFormed s.
Proof.
  apply reachable_invariant.
  - repeat split; cbn; try constructor; lra.
  - intros. apply wellFormed_enable. assumption.
  - intros. apply wellFormed_disable. assumption.
  - intros s' i v now Hs. unfold setEffectIntensity.
    destruct (JsMap.get i (activeEffects s')); [|exact Hs].
    apply wellFormed_set; [exact Hs | apply clamp_intensity].
  - intros s' i ps now Hs. unfold setEffectParameters.
    destruct (JsMap.get i (activeEffects s')) as [st|] eqn:E; [|exact Hs].
    apply wellFormed_set; [exact Hs|].
    destruct Hs as (_ & _ & H3 & _). apply (Forall_get _ _ _ _ H3 E).
  - intros s' v (H1 & H2 & H3 & H4). repeat split; cbn; try tauto;
      apply clamp_intensity.
  - intros s' (H1 & H2 & H3 & H4). repeat split; cbn; try tauto; constructor.
  - intros s' l (H1 & H2 & H3 & H4). repeat split; cbn; try tauto.
    destruct (decide (l ∈ listeners s')); [exact H2|].
    apply NoDup_app. split; [exact H2|]. split; [|apply NoDup_singleton].
    intros x Hx Hin. apply list_elem_of_singleton in Hin. subst x. contradiction.
  - intros s' l (H1 & H2 & H3 & H4). repeat split; cbn; try tauto.
    apply NoDup_filter, H2.
Qed.

End WellFormedFacts.

(** ** EffectManager: intensities *)

Section IntensityFacts.

Import EffectManager.

Lemma burning_reachable : reachable defaultEffects burning.
Proof. exists [EnableEffect "fire" (Some 1.5) 0]. reflexivity. Defined.

(** C7.  In every reachable manager [getEffectiveIntensity] is 0 for an
    inactive id and, for an active id, the product of the effect's
    intensity and the global intensity, both of which lie in [0, 2]:
    [setGlobalIntensity], [setEffectIntensity] and [enableEffect] each
    store their argument clamped to [0, 2]. *)
Theorem getEffectiveIntensity_spec (library : list Effect.t) (s : t)
    (effectId : string) :
  reachable library s ->
  (isEffectActive effectId s = false -> getEffectiveIntensity effectId s = 0) /\
  (∀ st, JsMap.get effectId (activeEffects s) = Some st ->
         getEffectiveIntensity effectId s
         = EffectState.intensity st * globalIntensity s /\
         0 <= EffectState.intensity st <= 2) /\
  0 <= globalIntensity s <= 2 /\
  (∀ v, globalIntensity (setGlobalIntensity v s) = clamp 0 2 v) /\
  (∀ v now, isEffectActive effectId s = true ->
            EffectState.intensity
              <$> JsMap.get effectId (activeEffects (setEffectIntensity effectId v now s).2)
            = Some (clamp 0 2 v)) /\
  (∀ v now effect,
     JsMap.get effectId (effects s) = Some effect -> dependenciesActive effect s ->
     EffectState.intensity
       <$> JsMap.get effectId (activeEffects (enableEffect effectId v now s).2)
     = Some (clamp 0 2 (default 1.0 v))).
Proof.
  intros Hreach. apply reachable_wellFormed in Hreach.
  destruct Hreach as (_ & _ & Hint & Hglobal).
  split; [|split; [|split; [|split; [|split]]]].
  - intros H. apply has_false in H. unfold getEffectiveIntensity.
    rewrite H. reflexivity.
  - intros st Hst. unfold getEffectiveIntensity. rewrite Hst.
    split; [reflexivity|]. apply (Forall_get _ _ _ _ Hint Hst).
  - exact Hglobal.
  - reflexivity.
  - intros v now H. apply isEffectActive_get in H. destruct H as [st Hst].
    unfold setEffectIntensity. rewrite Hst.
    cbn [snd notifyListeners setActive activeEffects].
    rewrite get_set_eq. reflexivity.
  - intros v now effect Hget Hdeps.
    rewrite (enableEffect_accepts s effectId v now effect) by assumption.
    cbn [snd notifyListeners setActive activeEffects].
    rewrite get_set_eq. reflexivity.
Qed.

Lemma getEffectiveIntensity_spec_witness :
  reachable defaultEffects burning /\
  getEffectiveIntensity "snow" burning = 0 /\
  getEffectiveIntensity "fire" burning == 1.5 /\
  getEffectiveIntensity "fire" (setGlobalIntensity 0.5 burning) == 0.75.
Proof.
  split; [exact burning_reachable|].
  destruct (getEffectiveIntensity_spec defaultEffects burning "snow" burning_reachable)
    as (H1 & _).
  split; [apply H1; reflexivity|].
  split; vm_compute; reflexivity.
Defined.

(** Out-of-range intensities are clamped when they are stored. *)
Example intensities_clamped :
  getEffectiveIntensity "fire" (enableEffect "fire" (Some 7) 0 new).2 == 2 /\
  getEffectiveIntensity "fire" (setGlobalIntensity (-1) burning) == 0 /\
  getEffectiveIntensity "fire" (setGlobalIntensity 9 burning) == 3.
Proof. repeat split; vm_compute; reflexivity. Qed.

End IntensityFacts.

(** ** EffectManager: conflicts and notifications *)

Section ConflictFacts.

Import EffectManager.

Lemma calls_of_listener (l : nat) (ls : list nat) (active : list EffectState.t) :
  NoDup ls -> l ∈ ls ->
  length (filter (λ d : nat * list EffectState.t, d.1 = l)
            (map (λ listener, (listener, active)) ls)) = 1%nat.
Proof.
  induction ls as [|x ls IH]; intros Hnd Hin.
  - apply elem_of_nil in Hin. contradiction.
  - apply NoDup_cons in Hnd. destruct Hnd as [Hx Hnd].
    cbn [map]. rewrite filter_cons. cbn [fst].
    destruct (decide (x = l)) as [->|Hne].
    + cbn [length]. f_equal.
      clear IH Hin Hnd. induction ls as [|y ls IH]; [reflexivity|].
      rewrite not_elem_of_cons in Hx. destruct Hx as [Hy Hx].
      cbn [map]. rewrite filter_cons_False by (cbn; congruence).
      apply IH, Hx.
    + apply IH; [exact Hnd|].
      apply elem_of_cons in Hin. destruct Hin; [congruence | assumption].
Qed.

Lemma received_notify (l : nat) (s : t) :
  NoDup (listeners s) -> l ∈ listeners s ->
  received l (notifyListeners s) = S (received l s).
Proof.
  intros Hnd Hin. unfold received, notifyListeners. cbn [delivered].
  rewrite filter_app, length_app, calls_of_listener by assumption. lia.
Qed.

Lemma remove_filter (c : string) (cs : list string) (m : JsMap.t EffectState.t) :
  filter (λ p, p.1 ∉ cs) (JsMap.remove c m) = filter (λ p, p.1 ∉ c :: cs) m.
Proof.
  unfold JsMap.remove. induction m as [|[k v] m IH]; [reflexivity|].
  rewrite (filter_cons (λ p, p.1 ≠ c)). cbn [fst].
  destruct (decide (k ≠ c)) as [Hne|Heq].
  - rewrite !filter_cons. cbn [fst].
    destruct (decide (k ∉ cs)) as [Hk|Hk].
    + rewrite decide_True by (rewrite not_elem_of_cons; tauto). f_equal. exact IH.
    + rewrite decide_False by (rewrite not_elem_of_cons; tauto). exact IH.
  - rewrite (filter_cons_False _ (k, v)); [exact IH|].
    cbn. rewrite not_elem_of_cons. tauto.
Qed.

Lemma inactive_filter (c : string) (cs : list string) (m : JsMap.t EffectState.t) :
  JsMap.has c m = false ->
  filter (λ p, p.1 ∉ c :: cs) m = filter (λ p, p.1 ∉ cs) m /\
  length (filter (λ p, p.1 ∈ c :: cs) m) = length (filter (λ p, p.1 ∈ cs) m).
Proof.
  intros H. apply has_false, get_None in H. unfold JsMap.keys in H.
  induction m as [|[k v] m IH]; [split; reflexivity|].
  cbn [fmap list_fmap fst] in H. rewrite not_elem_of_cons in H.
  destruct H as [Hk H]. destruct (IH H) as [IH1 IH2].
  rewrite !filter_cons. cbn [fst].
  destruct (decide (k ∈ cs)) as [Hin|Hin].
  - rewrite (decide_False (P := k ∉ c :: cs)) by (rewrite not_elem_of_cons; tauto).
    rewrite (decide_False (P := k ∉ cs)) by tauto.
    rewrite (decide_True (P := k ∈ c :: cs)) by (rewrite elem_of_cons; tauto).
    cbn [length]. split; congruence.
  - rewrite (decide_True (P := k ∉ c :: cs)) by (rewrite not_elem_of_cons; split; congruence).
    rewrite (decide_True (P := k ∉ cs)) by tauto.
    rewrite (decide_False (P := k ∈ c :: cs)) by (rewrite elem_of_cons; intros [?|?]; congruence).
    split; congruence.
Qed.

Lemma active_filter (c : string) (cs : list string) (m : JsMap.t EffectState.t) :
  NoDup (JsMap.keys m) -> JsMap.has c m = true ->
  length (filter (λ p, p.1 ∈ c :: cs) m)
  = S (length (filter (λ p, p.1 ∈ cs) (JsMap.remove c m))).
Proof.
  unfold JsMap.keys, JsMap.remove.
  induction m as [|[k v] m IH]; intros Hnd Hhas; [discriminate|].
  cbn [fmap list_fmap fst] in Hnd. apply NoDup_cons in Hnd.
  destruct Hnd as [Hk Hnd].
  rewrite (filter_cons (λ p, p.1 ≠ c)), (filter_cons (λ p, p.1 ∈ c :: cs)). cbn [fst].
  destruct (decide (k = c)) as [->|Hne].
  - rewrite (decide_True (P := c ∈ c :: cs)) by apply list_elem_of_here.
    rewrite (decide_False (P := c ≠ c)) by tauto.
    cbn [length]. f_equal.
    assert (Hc : JsMap.has c m = false) by (apply has_false, get_None, Hk).
    destruct (inactive_filter c cs m Hc) as [_ ->].
    f_equal. f_equal. symmetry.
    clear -Hk. induction m as [|[k v] m IH]; [reflexivity|].
    cbn [fmap list_fmap fst] in Hk. rewrite not_elem_of_cons in Hk.
    rewrite filter_cons_True by (cbn; intros ->; tauto).
    f_equal. apply IH. tauto.
  - assert (Hm : JsMap.has c m = true).
    { unfold JsMap.has in *. cbn [JsMap.get] in Hhas.
      rewrite decide_False in Hhas by congruence. exact Hhas. }
    rewrite (decide_True (P := k ≠ c)) by assumption.
    rewrite (filter_cons (λ p, p.1 ∈ cs)). cbn [fst].
    destruct (decide (k ∈ cs)) as [Hin|Hin].
    + rewrite (decide_True (P := k ∈ c :: cs)) by (rewrite elem_of_cons; tauto).
      cbn [length]. f_equal. apply IH; assumption.
    + rewrite (decide_False (P := k ∈ c :: cs))
        by (rewrite elem_of_cons; intros [?|?]; congruence).
      apply IH; assumption.
Qed.

Lemma disableConflicts_cons (c : string) (cs : list string) (s : t) :
  disableConflicts (c :: cs) s
  = disableConflicts cs
      (if isEffectActive c s then (disableEffect c s).2 else s).
Proof. reflexivity. Qed.

Lemma filter_none (m : JsMap.t EffectState.t) : filter (λ p, p.1 ∉ []) m = m.
Proof.
  induction m as [|p m IHm]; [reflexivity|].
  rewrite filter_cons_True by apply not_elem_of_nil. f_equal. exact IHm.
Qed.

Lemma filter_no_conflicts (m : JsMap.t EffectState.t) :
  filter (λ p, p.1 ∈ []) m = [].
Proof.
  induction m as [|p m IHm]; [reflexivity|].
  rewrite filter_cons_False by apply not_elem_of_nil. exact IHm.
Qed.

(** The loop over the conflict list removes exactly the active effects
    that the list names, one notification each, and touches nothing
    else. *)
Lemma disableConflicts_spec (cs : list string) (s : t) (l : nat) :
  wellFormed s -> l ∈ listeners s ->
  activeEffects (disableConflicts cs s) = filter (λ p, p.1 ∉ cs) (activeEffects s) /\
  received l (disableConflicts cs s)
  = (received l s + length (activeConflicts cs s))%nat /\
  listeners (disableConflicts cs s) = listeners s /\
  effects (disableConflicts cs s) = effects s /\
  globalIntensity (disableConflicts cs s) = globalIntensity s.
Proof.
  unfold activeConflicts. revert s.
  induction cs as [|c cs IH]; intros s Hwf Hl.
  - change (disableConflicts [] s) with s.
    rewrite filter_none, filter_no_conflicts.
    repeat split. cbn. lia.
  - rewrite disableConflicts_cons. destruct (isEffectActive c s) eqn:E.
    + unfold disableEffect, JsMap.delete.
      unfold isEffectActive in E. rewrite E. cbn [snd].
      set (s1 := notifyListeners (setActive (JsMap.remove c (activeEffects s)) s)).
      assert (Hwf1 : wellFormed s1) by apply wellFormed_remove, Hwf.
      destruct (IH s1 Hwf1 Hl) as (H1 & H2 & H3 & H4 & H5).
      rewrite H1, H2, H3, H4, H5. subst s1.
      cbn [activeEffects notifyListeners setActive listeners effects globalIntensity].
      destruct Hwf as (Hnd & Hls & _).
      rewrite remove_filter, (active_filter c cs _ Hnd E).
      rewrite received_notify by assumption.
      repeat split. unfold received. cbn [setActive delivered]. lia.
    + destruct (IH s Hwf Hl) as (H1 & H2 & H3 & H4 & H5).
      rewrite H1, H2, H3, H4, H5.
      destruct (inactive_filter c cs _ E) as [-> ->]. repeat split.
Qed.

End ConflictFacts.

Section ConflictTheorem.

Import EffectManager.

Lemma get_filter_conflicts (k : string) (cs : list string)
    (m : JsMap.t EffectState.t) :
  JsMap.get k (filter (λ p, p.1 ∉ cs) m)
  = if decide (k ∈ cs) then None else JsMap.get k m.
Proof.
  induction m as [|[k0 v0] m IH].
  - destruct (decide (k ∈ cs)); reflexivity.
  - rewrite filter_cons. cbn [fst].
    destruct (decide (k0 ∉ cs)) as [Hk0|Hk0]; cbn [JsMap.get].
    + destruct (decide (k = k0)) as [->|Hne]; [|exact IH].
      rewrite decide_False by assumption. reflexivity.
    + rewrite IH. destruct (decide (k ∈ cs)) as [Hk|Hk]; [reflexivity|].
      rewrite decide_False; [reflexivity|]. intros ->. contradiction.
Qed.

Lemma daytime_reachable : reachable sky daytime.
Proof. exists [AddListener 0%nat; EnableEffect "day" None 0]. reflexivity. Defined.

(** The loop over [conflictsWith], for a library that has conflict
    lists (the built-in one has none): enabling an effect whose
    dependencies are active and whose conflict list is [conflicts]
    succeeds and disables every active effect the list names, leaves
    all other effects as they were (the conflicts of a disabled effect
    are not looked at), and makes the effect itself active; every
    registered listener is called once for each effect that was
    disabled and once more at the end. *)
Lemma enableEffect_disables_conflicts (library : list Effect.t) (s : t)
    (effectId : string) (intensity : option Q) (now : Z) (effect : Effect.t)
    (conflicts : list string) (listener : nat) :
  reachable library s ->
  JsMap.get effectId (effects s) = Some effect ->
  dependenciesActive effect s ->
  Effect.conflictsWith effect = Some conflicts ->
  listener ∈ listeners s ->
  let r := enableEffect effectId intensity now s in
  r.1 = true /\
  (∀ c, c ∈ conflicts -> c ≠ effectId -> isEffectActive c r.2 = false) /\
  isEffectActive effectId r.2 = true /\
  (∀ other, other ∉ conflicts -> other ≠ effectId ->
            JsMap.get other (activeEffects r.2) = JsMap.get other (activeEffects s)) /\
  received listener r.2
  = (received listener s + length (activeConflicts conflicts s) + 1)%nat.
Proof.
  intros Hreach Hget Hdeps Hconf Hl r. subst r.
  apply reachable_wellFormed in Hreach.
  rewrite (enableEffect_accepts s effectId intensity now effect) by assumption.
  rewrite Hconf. change (default [] (Some conflicts)) with conflicts.
  cbn [fst snd].
  destruct (disableConflicts_spec conflicts s listener Hreach Hl)
    as (Hactive & Hreceived & Hlisteners & _ & _).
  set (s1 := disableConflicts conflicts s) in *. clearbody s1.
  split; [reflexivity|].
  split; [|split; [|split]].
  - intros c Hc Hne. apply has_false.
    cbn [activeEffects notifyListeners setActive].
    rewrite get_set, decide_False by assumption.
    rewrite Hactive, get_filter_conflicts, decide_True by assumption. reflexivity.
  - apply has_get. cbn [activeEffects notifyListeners setActive].
    rewrite get_set_eq. eauto.
  - intros other Hother Hne. cbn [activeEffects notifyListeners setActive].
    rewrite get_set, decide_False by assumption.
    rewrite Hactive, get_filter_conflicts, decide_False by assumption. reflexivity.
  - rewrite received_notify.
    + unfold received at 1. cbn [delivered setActive].
      fold (received listener s1). rewrite Hreceived. lia.
    + cbn [listeners setActive]. rewrite Hlisteners. apply Hreach.
    + cbn [listeners setActive]. rewrite Hlisteners. exact Hl.
Qed.

Lemma enableEffect_disables_conflicts_sky :
  reachable sky daytime /\
  (enableEffect "night" None 1 daytime).1 = true /\
  isEffectActive "day" (enableEffect "night" None 1 daytime).2 = false /\
  isEffectActive "night" (enableEffect "night" None 1 daytime).2 = true /\
  received 0 (enableEffect "night" None 1 daytime).2
  = (received 0 daytime + length (activeConflicts ["day"] daytime) + 1)%nat.
Proof.
  split; [exact daytime_reachable|].
  assert (Hdeps : dependenciesActive night daytime)
    by (intros deps Hdeps; discriminate).
  assert (Hl : 0%nat ∈ listeners daytime) by apply list_elem_of_here.
  destruct (enableEffect_disables_conflicts sky daytime "night" None 1 night
              ["day"] 0%nat daytime_reachable eq_refl Hdeps eq_refl Hl)
    as (H1 & H2 & H3 & _ & H5).
  split; [exact H1|].
  split; [apply H2; [apply list_elem_of_here | discriminate]|].
  split; [exact H3 | exact H5].
Defined.

(** Over the library [sky], with the effect [day] active and one
    listener registered, [enableEffect('night')], whose conflict list
    names [day], calls the listener twice: once when [day] is disabled
    and once at the end. *)
Example sky_notifies_twice :
  isEffectActive "day" daytime = true /\
  (enableEffect "night" None 1 daytime).1 = true /\
  received 0 daytime = 1%nat /\
  received 0 (enableEffect "night" None 1 daytime).2 = 3%nat /\
  ~ notifiesOnce "night" None 1 daytime.
Proof.
  split; [reflexivity|].
  split; [reflexivity|].
  split; [vm_compute; reflexivity|].
  split; [vm_compute; reflexivity|].
  intros H.
  assert (Hl : 0%nat ∈ listeners daytime) by apply list_elem_of_here.
  apply H in Hl. vm_compute in Hl. discriminate.
Qed.

End ConflictTheorem.

(** ** EffectManager: export and import *)

Section RoundTripFacts.

Import EffectManager.

Lemma independent_spec (catalog : JsMap.t Effect.t) (i : string) (effect : Effect.t) :
  independent catalog = true -> JsMap.get i catalog = Some effect ->
  Effect.conflictsWith effect = None /\
  ∀ deps, Effect.dependencies effect = Some deps ->
          ∃ dep, dep ∈ deps /\ JsMap.get dep catalog = None.
Proof.
  intros Hind Hget. unfold independent in Hind.
  rewrite forallb_forall in Hind.
  apply get_Some_elem, list_elem_of_In in Hget.
  specialize (Hind _ Hget). cbn [snd] in Hind.
  apply andb_true_iff in Hind. destruct Hind as [Hc Hd]. split.
  - destruct (Effect.conflictsWith effect); [discriminate | reflexivity].
  - intros deps Hdeps. rewrite Hdeps in Hd.
    apply existsb_exists in Hd. destruct Hd as (dep & Hin & Hdep).
    exists dep. split; [apply list_elem_of_In, Hin|].
    apply has_false, negb_true_iff, Hdep.
Qed.

Lemma defaultEffects_independent : independent (effects new) = true.
Proof. vm_compute. reflexivity. Qed.

Lemma spread_defaults (d : bag) : spread d d = d.
Proof. unfold spread. apply (idemp_L (∪)). Qed.

Lemma spread_override (d old ps : bag) :
  spread d old = old -> spread d (spread old ps) = spread old ps.
Proof.
  unfold spread. intros H. rewrite <- (assoc_L (∪)), H. reflexivity.
Qed.

Lemma restorable_set (catalog : JsMap.t Effect.t) (s : t) (i : string)
    (st : EffectState.t) :
  restorable catalog s ->
  JsMap.get i catalog = Some (EffectState.effect st) ->
  Effect.dependencies (EffectState.effect st) = None ->
  Effect.conflictsWith (EffectState.effect st) = None ->
  spread (default ∅ (Effect.parameters (EffectState.effect st)))
         (EffectState.parameters st) = EffectState.parameters st ->
  restorable catalog
    (notifyListeners (setActive (JsMap.set i st (activeEffects s)) s)).
Proof.
  intros [H1 H2] Hget Hdeps Hconf Hps. split; [exact H1|].
  cbn [activeEffects notifyListeners setActive].
  apply Forall_set; [exact H2|]. cbn [fst snd]. tauto.
Qed.

Lemma restorable_inactive (catalog : JsMap.t Effect.t) (s : t) (dep : string) :
  restorable catalog s -> JsMap.get dep catalog = None ->
  isEffectActive dep s = false.
Proof.
  intros [_ H2] Hnone. apply has_false.
  destruct (JsMap.get dep (activeEffects s)) as [st|] eqn:E; [|reflexivity].
  pose proof (Forall_get _ _ _ _ H2 E) as (Hget & _). cbn [fst snd] in Hget.
  congruence.
Qed.

Lemma restorable_enable (catalog : JsMap.t Effect.t) (s : t) (i : string)
    (v : option Q) (now : Z) :
  independent catalog = true -> restorable catalog s ->
  restorable catalog (enableEffect i v now s).2.
Proof.
  intros Hind Hs. pose proof Hs as [Heff _].
  destruct (JsMap.get i (effects s)) as [effect|] eqn:Hget.
  2:{ rewrite enableEffect_unknown by exact Hget. exact Hs. }
  rewrite Heff in Hget.
  destruct (independent_spec catalog i effect Hind Hget) as [Hconf Hdeps].
  destruct (Effect.dependencies effect) as [deps|] eqn:Ed.
  - destruct (Hdeps deps eq_refl) as (dep & Hin & Hnone).
    rewrite (enableEffect_missing s i v now effect deps dep); try assumption.
    + rewrite Heff. exact Hget.
    + apply (restorable_inactive catalog); assumption.
  - rewrite (enableEffect_accepts s i v now effect).
    + rewrite Hconf. change (disableConflicts (default [] None) s) with s.
      cbn [snd]. apply restorable_set; cbn; try assumption.
      apply spread_defaults.
    + rewrite Heff. exact Hget.
    + intros deps Hd. congruence.
Qed.

(** Every manager reachable over an independent library is
    restorable. *)
Lemma reachable_restorable (library : list Effect.t) (s : t) :
  independent (effects (create library)) = true ->
  reachable library s -> restorable (effects (create library)) s.
Proof.
  intros Hind. apply reachable_invariant.
  - split; [reflexivity | constructor].
  - intros. apply restorable_enable; assumption.
  - intros s' i [H1 H2]. unfold disableEffect, JsMap.delete.
    destruct (JsMap.has i (activeEffects s')); [|split; assumption].
    split; [exact H1|]. apply Forall_remove, H2.
  - intros s' i v now Hs. unfold setEffectIntensity.
    destruct (JsMap.get i (activeEffects s')) as [st|] eqn:E; [|exact Hs].
    pose proof (Forall_get _ _ _ _ (proj2 Hs) E) as (Hg & Hd & Hc & Hp).
    apply restorable_set; assumption.
  - intros s' i ps now Hs. unfold setEffectParameters.
    destruct (JsMap.get i (activeEffects s')) as [st|] eqn:E; [|exact Hs].
    pose proof (Forall_get _ _ _ _ (proj2 Hs) E) as (Hg & Hd & Hc & Hp).
    apply restorable_set; try assumption.
    cbn [EffectState.effect EffectState.parameters].
    apply spread_override, Hp.
  - intros s' v [H1 H2]. split; assumption.
  - intros s' [H1 H2]. split; [exact H1 | constructor].
  - intros s' l [H1 H2]. split; assumption.
  - intros s' l [H1 H2]. split; assumption.
Qed.

(** The object that [exportConfiguration] fills. *)
Lemma export_entries (m : JsMap.t EffectState.t) (o0 : JsObject.t Configuration.settings) :
  NoDup (JsMap.keys m) -> NoDup (JsMap.keys o0) ->
  let o := fold_left (λ o e, JsObject.set e.1 (settingsOf e.2) o) m o0 in
  NoDup (JsMap.keys o) /\
  ∀ i, JsMap.get i o
       = match JsMap.get i m with
         | Some st => Some (settingsOf st)
         | None => JsMap.get i o0
         end.
Proof.
  revert o0. induction m as [|[k st] m IH]; intros o0 Hm Ho0.
  - split; [exact Ho0 | reflexivity].
  - unfold JsMap.keys in Hm. cbn [fmap list_fmap fst] in Hm.
    apply NoDup_cons in Hm. destruct Hm as [Hk Hm].
    cbn [fold_left fst snd].
    destruct (IH (JsObject.set k (settingsOf st) o0) Hm (NoDup_object_set _ _ _ Ho0))
      as [H1 H2].
    split; [exact H1|]. intros i. rewrite H2. cbn [JsMap.get].
    destruct (decide (i = k)) as [->|Hne].
    + replace (JsMap.get k m) with (@None EffectState.t)
        by (symmetry; apply get_None, Hk).
      rewrite get_object_set, decide_True; reflexivity.
    + rewrite get_object_set, decide_False by assumption. reflexivity.
Qed.

End RoundTripFacts.

(** ** EffectManager: notifications of [enableEffect] *)

Section NotificationTheorem.

Import EffectManager.





End NotificationTheorem.

Section RoundTrip.

Import EffectManager.

(** One step of [importConfiguration] for an effect without
    dependencies and conflicts. *)
Lemma importEffect_spec (now : Z) (s : t) (i : string) (e : Configuration.settings)
    (effect : Effect.t) :
  JsMap.get i (effects s) = Some effect ->
  Effect.dependencies effect = None -> Effect.conflictsWith effect = None ->
  effects (importEffect now s (i, e)) = effects s /\
  globalIntensity (importEffect now s (i, e)) = globalIntensity s /\
  ∀ k, JsMap.get k (activeEffects (importEffect now s (i, e)))
       = if decide (k = i) then Some (restoredState now e effect)
         else JsMap.get k (activeEffects s).
Proof.
  intros Hget Hdeps Hconf. unfold importEffect. cbn [fst snd].
  rewrite (enableEffect_accepts s i (Configuration.intensity e) now effect);
    [|exact Hget | intros deps Hd; congruence].
  rewrite Hconf. change (disableConflicts (default [] None) s) with s. cbv zeta.
  unfold restoredState.
  destruct (Configuration.parameters e) as [ps|].
  - unfold setEffectParameters.
    cbn [activeEffects notifyListeners setActive].
    rewrite get_set_eq.
    cbn [snd activeEffects notifyListeners setActive effects globalIntensity].
    repeat split. intros k. rewrite get_set.
    destruct (decide (k = i)); [reflexivity|].
    rewrite get_set, decide_False by assumption. reflexivity.
  - cbn [snd activeEffects notifyListeners setActive effects globalIntensity].
    repeat split. intros k. rewrite get_set.
    destruct (decide (k = i)); reflexivity.
Qed.

(** The loop of [importConfiguration] over entries whose effects have
    neither dependencies nor conflicts. *)
Lemma import_entries (now : Z) (entries : list (string * Configuration.settings))
    (s : t) :
  NoDup (JsMap.keys entries) ->
  Forall (λ p, ∃ effect, JsMap.get p.1 (effects s) = Some effect /\
                         Effect.dependencies effect = None /\
                         Effect.conflictsWith effect = None) entries ->
  let r := fold_left (importEffect now) entries s in
  globalIntensity r = globalIntensity s /\
  ∀ k, JsMap.get k (activeEffects r)
       = match JsMap.get k entries with
         | Some e => restoredState now e <$> JsMap.get k (effects s)
         | None => JsMap.get k (activeEffects s)
         end.
Proof.
  revert s. induction entries as [|[i e] entries IH]; intros s Hnd Hall.
  - split; reflexivity.
  - unfold JsMap.keys in Hnd. cbn [fmap list_fmap fst] in Hnd.
    apply NoDup_cons in Hnd. destruct Hnd as [Hi Hnd].
    inversion Hall as [|? ? (effect & Hget & Hdeps & Hconf) Hrest]; subst.
    cbn [fst] in Hget.
    destruct (importEffect_spec now s i e effect Hget Hdeps Hconf)
      as (Heff & Hglobal & Hactive).
    cbn [fold_left].
    destruct (IH (importEffect now s (i, e)) Hnd) as [H1 H2].
    { eapply Forall_impl; [exact Hrest|]. intros p Hp. cbn beta in Hp |- *.
      rewrite Heff. exact Hp. }
    split; [rewrite H1; exact Hglobal|].
    intros k. rewrite H2, Heff, Hactive. cbn [JsMap.get].
    destruct (decide (k = i)) as [->|Hne].
    + replace (JsMap.get i entries) with (@None Configuration.settings)
        by (symmetry; apply get_None, Hi).
      rewrite Hget. reflexivity.
    + reflexivity.
Qed.

Lemma exportConfiguration_settings (s : t) :
  exportConfiguration s
  = {| Configuration.globalIntensity := Some (globalIntensity s);
       Configuration.activeEffects :=
         Some (fold_left (λ o e, JsObject.set e.1 (settingsOf e.2) o)
                 (activeEffects s) []) |}.
Proof. reflexivity. Qed.

Lemma busy_reachable : reachable defaultEffects busy.
Proof.
  exists [EnableEffect "fire" (Some 1.5) 0;
          SetEffectParameters "fire" (list_to_map [("temperature", jnum 5)]) 1;
          EnableEffect "bloom" None 2; EnableEffect "snow" (Some 3) 3;
          SetEffectIntensity "bloom" 0.25 4; SetGlobalIntensity 0.5].
  reflexivity.
Defined.

(** C8.  For every manager [s] reachable from the constructor,
    importing the configuration that [s] exports, into [s] itself or
    into any other reachable manager, yields the global intensity of
    [s] and the active ids of [s], each with the effect, intensity and
    parameter bag it has in [s]. *)
Theorem export_import_roundtrip (s target : t) (now : Z) :
  reachable defaultEffects s -> reachable defaultEffects target ->
  sameConfiguration (importConfiguration (exportConfiguration s) now target) s.
Proof.
  intros Hs Ht.
  pose proof (reachable_wellFormed _ _ Hs) as (Hnd & _ & Hint & Hglobal).
  pose proof (reachable_restorable _ _ defaultEffects_independent Hs) as [_ Hres].
  pose proof (reachable_restorable _ _ defaultEffects_independent Ht) as [Hcat _].
  fold new in Hres, Hcat.
  rewrite exportConfiguration_settings. unfold importConfiguration, JsObject.entries.
  cbn [Configuration.globalIntensity Configuration.activeEffects].
  destruct (export_entries (activeEffects s) [] Hnd (NoDup_nil_2 (A := string))) as [Ho Hget].
  set (o := fold_left (λ o e, JsObject.set e.1 (settingsOf e.2) o) (activeEffects s) [])
    in *. clearbody o.
  set (s2 := setGlobalIntensity (globalIntensity s) (disableAllEffects target)).
  assert (Hentries : Forall (λ p, ∃ effect,
                        JsMap.get p.1 (effects s2) = Some effect /\
                        Effect.dependencies effect = None /\
                        Effect.conflictsWith effect = None) o).
  { rewrite Forall_forall. intros [i e] Hin. cbn [fst].
    apply (elem_get _ _ _ Ho) in Hin. rewrite Hget in Hin.
    destruct (JsMap.get i (activeEffects s)) as [st|] eqn:E; [|discriminate].
    pose proof (Forall_get _ _ _ _ Hres E) as (Hg & Hd & Hc & _).
    cbn [fst snd] in Hg. exists (EffectState.effect st).
    subst s2. cbn [effects setGlobalIntensity notifyListeners disableAllEffects setActive].
    rewrite Hcat. tauto. }
  destruct (import_entries now o s2 Ho Hentries) as [Hg Ha].
  split.
  - rewrite Hg. subst s2. cbn [globalIntensity setGlobalIntensity notifyListeners].
    apply (clamp_id 0 2), Hglobal.
  - intros i. rewrite Ha, Hget.
    destruct (JsMap.get i (activeEffects s)) as [st|] eqn:E.
    + pose proof (Forall_get _ _ _ _ Hres E) as (Hcatalog & _ & _ & Hps).
      pose proof (Forall_get _ _ _ _ Hint E) as Hbounds.
      cbn [fst snd] in Hcatalog, Hps, Hbounds.
      subst s2. cbn [effects setGlobalIntensity notifyListeners disableAllEffects setActive].
      rewrite Hcat, Hcatalog. cbn [fmap option_fmap option_map].
      unfold restoredState, settingsOf.
      cbn [EffectState.effect EffectState.intensity EffectState.parameters
           Configuration.intensity Configuration.parameters].
      split; [reflexivity|]. split; [|exact Hps].
      apply (clamp_id 0 2), Hbounds.
    + subst s2. reflexivity.
Qed.

Lemma export_import_roundtrip_witness :
  reachable defaultEffects busy /\ reachable defaultEffects burning /\
  sameConfiguration (importConfiguration (exportConfiguration busy) 9 burning) busy.
Proof.
  split; [exact busy_reachable|].
  split; [exact burning_reachable|].
  apply (export_import_roundtrip busy burning 9 busy_reachable burning_reachable).
Defined.

(** The export of [busy] names the three active effects, and importing
    it into a new manager restores the override and the intensities. *)
Example export_import_busy :
  let restored := importConfiguration (exportConfiguration busy) 9 new in
  JsMap.keys (activeEffects restored) = ["fire"; "bloom"; "snow"] /\
  getEffectiveIntensity "fire" restored == getEffectiveIntensity "fire" busy /\
  getEffectiveIntensity "snow" restored == 1 /\
  match JsMap.get "fire" (activeEffects restored) with
  | Some st => EffectState.parameters st !! "temperature"
  | None => None
  end = Some (jnum 5).
Proof. vm_compute. repeat split; reflexivity. Qed.

(** With a library that has dependencies the same round trip can lose
    an effect: over [sky], [stars] stays active when [night], on which
    it depends, is disabled, and cannot be enabled again on import. *)
Example export_import_sky :
  let s := fold_left run_call
             [EnableEffect "night" None 0; EnableEffect "stars" None 1;
              DisableEffect "night"] (create sky) in
  isEffectActive "stars" s = true /\
  isEffectActive "stars" (importConfiguration (exportConfiguration s) 2 s) = false.
Proof. vm_compute. split; reflexivity. Qed.

End RoundTrip.

(** * Part III: further properties of the three classes *)

(** ** PerformanceOptimizer: the window and the derived settings *)

Section OptimizerWindow.

Import PerformanceOptimizer.

Lemma addFrames_snoc (dts : list Q) (dt : Q) (s : t) :
  addFrames (dts ++ [dt]) s = addFrameTime dt (addFrames dts s).
Proof. unfold addFrames. rewrite fold_left_app. reflexivity. Qed.

Lemma addFrames_window (dts : list Q) (s : t) :
  (length (frameRates s) <= maxSamples)%nat ->
  frameRates (addFrames dts s)
  = lastn maxSamples (frameRates s ++ map (Qdiv 1) dts).
Proof.
  intros Hs. induction dts as [|dt dts IH] using rev_ind.
  - cbn [addFrames fold_left map]. rewrite app_nil_r. unfold lastn.
    replace (length (frameRates s) - maxSamples)%nat with 0%nat by lia.
    reflexivity.
  - rewrite addFrames_snoc, map_app, app_assoc. cbn [map].
    unfold addFrameTime. rewrite IH, lastn_snoc.
    destruct (maxSamples <? _)%nat; reflexivity.
Qed.

Lemma run_addFrames (cs : list call) (dts : list Q) :
  run (cs ++ map AddFrameTime dts) = addFrames dts (run cs).
Proof.
  unfold run, addFrames. rewrite fold_left_app.
  generalize (fold_left run_call cs new). induction dts as [|dt dts IH]; intros s.
  - reflexivity.
  - cbn [map fold_left]. apply IH.
Qed.

(** X1.  The sample buffer is a sliding window: once sixty or more
    frames have been recorded in a row, the buffer holds the samples of
    the last sixty of them, whatever calls were made before. *)
Theorem window_forgets (cs : list call) (dts : list Q) :
  (60 <= length dts)%nat ->
  frameRates (run (cs ++ map AddFrameTime dts)) = lastn 60 (map (Qdiv 1) dts).
Proof.
  intros Hlen. rewrite run_addFrames, addFrames_window by apply run_length.
  pose proof (run_length cs) as Hcs.
  unfold lastn, maxSamples in *. rewrite length_app, !length_map.
  rewrite drop_app_ge by lia. f_equal. lia.
Qed.

Lemma window_forgets_witness :
  (60 <= length (repeat (1 / 15) 60))%nat /\
  frameRates (run ([AddFrameTime (1 / 60); Reset; AddFrameTime (1 / 30)]
                   ++ map AddFrameTime (repeat (1 / 15) 60)))
  = lastn 60 (map (Qdiv 1) (repeat (1 / 15) 60)).
Proof.
  assert (H : (60 <= length (repeat (1 / 15) 60))%nat) by (vm_compute; lia).
  split; [exact H|].
  apply (window_forgets [AddFrameTime (1 / 60); Reset; AddFrameTime (1 / 30)]
           (repeat (1 / 15) 60) H).
Defined.

End OptimizerWindow.

Section OptimizerSettings.

Import PerformanceOptimizer.

Ltac bands :=
  repeat match goal with
         | |- context [Qltb ?a ?b] => destruct (Qltb a b) eqn:?
         end;
  repeat match goal with
         | H : Qltb _ _ = true |- _ => apply Qltb_lt in H
         | H : Qltb _ _ = false |- _ => apply Qltb_ge in H
         end.

Lemma sum_lower (lo : Q) (l : list Q) (a : Q) :
  Forall (λ x, lo <= x) l ->
  a + lo * inject_Z (Z.of_nat (length l)) <= fold_left Qplus l a.
Proof.
  intros H. revert a. induction H as [|x l Hlo _ IH]; intros a.
  - cbn [fold_left length Z.of_nat]. ring_simplify. apply Qle_refl.
  - cbn [fold_left length]. rewrite Nat2Z.inj_succ, <- Z.add_1_r, inject_Z_plus.
    eapply Qle_trans; [|exact (IH (a + x))].
    change (inject_Z 1) with 1. nra.
Qed.

Lemma sum_upper (hi : Q) (l : list Q) (a : Q) :
  Forall (λ x, x <= hi) l ->
  fold_left Qplus l a <= a + hi * inject_Z (Z.of_nat (length l)).
Proof.
  intros H. revert a. induction H as [|x l Hhi _ IH]; intros a.
  - cbn [fold_left length Z.of_nat]. ring_simplify. apply Qle_refl.
  - cbn [fold_left length]. rewrite Nat2Z.inj_succ, <- Z.add_1_r, inject_Z_plus.
    eapply Qle_trans; [exact (IH (a + x))|].
    change (inject_Z 1) with 1. nra.
Qed.

Lemma samples_positive (x : Q) (l : list Q) :
  0 < inject_Z (Z.of_nat (length (x :: l))).
Proof.
  replace 0 with (inject_Z 0) by reflexivity.
  rewrite <- Zlt_Qlt. cbn [length]. lia.
Qed.

Lemma average_lower (lo : Q) (s : t) :
  lo <= 60 -> Forall (λ fps, lo <= fps) (frameRates s) -> lo <= getAverageFPS s.
Proof.
  intros H60 Hall. unfold getAverageFPS.
  destruct (frameRates s) as [|x l] eqn:E; [exact H60|].
  pose proof (sum_lower lo (x :: l) 0 Hall) as H1.
  apply Qle_shift_div_l; [apply samples_positive|]. lra.
Qed.

Lemma average_upper (hi : Q) (s : t) :
  frameRates s ≠ [] -> Forall (λ fps, fps <= hi) (frameRates s) ->
  getAverageFPS s <= hi.
Proof.
  intros Hne Hall. unfold getAverageFPS.
  destruct (frameRates s) as [|x l] eqn:E; [contradiction|].
  pose proof (sum_upper hi (x :: l) 0 Hall) as H1.
  apply Qle_shift_div_r; [apply samples_positive|]. lra.
Qed.

Lemma level_one (s : t) : 60 <= getAverageFPS s -> getPerformanceLevel s == 1.
Proof.
  intros H. unfold getPerformanceLevel, targetFPS, minFPS.
  apply Q.min_l. eapply Qle_trans; [|apply Q.le_max_r].
  apply Qle_shift_div_l; lra.
Qed.

Lemma level_zero (s : t) : getAverageFPS s <= 30 -> getPerformanceLevel s == 0.
Proof.
  intros H. unfold getPerformanceLevel, targetFPS, minFPS.
  assert (Hx : (getAverageFPS s - 30) / (60 - 30) <= 0)
    by (apply Qle_shift_div_r; lra).
  rewrite (Q.max_l 0 _ Hx). apply Q.min_r. lra.
Qed.

(** X3.  When every sample in the buffer is at least 60 FPS, and also
    when the buffer is empty, nothing is degraded: the level is 1, the
    particle count is the requested one, the level of detail is 0, the
    render scale is 1, the shadows are [high] and expensive operations
    are not skipped.  When the buffer is not empty and every sample is
    at most 30 FPS, everything is at its lowest: level 0, a quarter of
    the particles, level of detail 3, render scale 0.5, no shadows, and
    expensive operations are skipped. *)
Theorem quality_extremes (s : t) (requested : Q) :
  (Forall (λ fps, 60 <= fps) (frameRates s) ->
   getPerformanceLevel s == 1 /\
   adjustParticleCount requested s = requested /\
   getRecommendedLOD s = 0%nat /\ getRenderScale s = 1 /\
   getShadowQuality s = high /\ shouldSkipExpensiveOperations s = false) /\
  (frameRates s ≠ [] -> Forall (λ fps, fps <= 30) (frameRates s) ->
   getPerformanceLevel s == 0 /\
   adjustParticleCount requested s = floor (requested * 0.25) /\
   getRecommendedLOD s = 3%nat /\ getRenderScale s = 0.5 /\
   getShadowQuality s = none /\ shouldSkipExpensiveOperations s = true).
Proof.
  split.
  - intros Hall.
    assert (H1 : getPerformanceLevel s == 1)
      by (apply level_one, average_lower; [lra | exact Hall]).
    split; [exact H1|].
    unfold adjustParticleCount, getRecommendedLOD, getRenderScale,
      getShadowQuality, shouldSkipExpensiveOperations.
    set (level := getPerformanceLevel s) in *.
    bands; try (exfalso; lra). repeat split.
  - intros Hne Hall.
    assert (H0 : getPerformanceLevel s == 0)
      by (apply level_zero, average_upper; assumption).
    split; [exact H0|].
    unfold adjustParticleCount, getRecommendedLOD, getRenderScale,
      getShadowQuality, shouldSkipExpensiveOperations.
    set (level := getPerformanceLevel s) in *.
    bands; try (exfalso; lra). repeat split.
Qed.

Lemma quality_extremes_witness :
  Forall (λ fps, 60 <= fps) (frameRates (steady 75)) /\
  adjustParticleCount 1000 (steady 75) = 1000 /\
  frameRates (steady 20) ≠ [] /\ Forall (λ fps, fps <= 30) (frameRates (steady 20)) /\
  adjustParticleCount 1000 (steady 20) = floor (1000 * 0.25) /\
  getShadowQuality (steady 20) = none.
Proof.
  assert (H75 : Forall (λ fps, 60 <= fps) (frameRates (steady 75)))
    by (repeat constructor; vm_compute; discriminate).
  assert (Hne : frameRates (steady 20) ≠ []) by discriminate.
  assert (H20 : Forall (λ fps, fps <= 30) (frameRates (steady 20)))
    by (repeat constructor; vm_compute; discriminate).
  destruct (quality_extremes (steady 75) 1000) as [Hfast _].
  destruct (quality_extremes (steady 20) 1000) as [_ Hslow].
  destruct (Hfast H75) as (_ & Hcount & _).
  destruct (Hslow Hne H20) as (_ & Hquarter & _ & _ & Hshadow & _).
  repeat split; assumption.
Defined.

(** X4.  The derived settings never get worse when the performance
    level rises: the level of detail does not increase, the render
    scale and the shadow quality do not decrease, and expensive
    operations that are skipped at the higher level are skipped at the
    lower one. *)
Theorem settings_monotone (s1 s2 : t) :
  getPerformanceLevel s1 <= getPerformanceLevel s2 ->
  (getRecommendedLOD s2 <= getRecommendedLOD s1)%nat /\
  getRenderScale s1 <= getRenderScale s2 /\
  (shadowRank (getShadowQuality s1) <= shadowRank (getShadowQuality s2))%nat /\
  (shouldSkipExpensiveOperations s2 = true ->
   shouldSkipExpensiveOperations s1 = true).
Proof.
  intros H.
  unfold getRecommendedLOD, getRenderScale, getShadowQuality,
    shouldSkipExpensiveOperations.
  set (l1 := getPerformanceLevel s1) in *.
  set (l2 := getPerformanceLevel s2) in *.
  bands; try (exfalso; lra);
    (repeat split; cbn [shadowRank];
     try lia; try (vm_compute; discriminate); try reflexivity; try discriminate).
Qed.

Lemma settings_monotone_witness :
  getPerformanceLevel (steady 36) <= getPerformanceLevel (steady 50) /\
  (getRecommendedLOD (steady 50) <= getRecommendedLOD (steady 36))%nat /\
  getRenderScale (steady 36) <= getRenderScale (steady 50).
Proof.
  assert (H : getPerformanceLevel (steady 36) <= getPerformanceLevel (steady 50))
    by (vm_compute; discriminate).
  split; [exact H|].
  destruct (settings_monotone (steady 36) (steady 50) H) as (H1 & H2 & _).
  split; assumption.
Defined.

(** X5.  The derived settings agree with each other at every level:
    shadows are off exactly when the level of detail is 3, and [high]
    exactly when it is 0; whenever expensive operations are skipped the
    level of detail is at least 2, the shadows are at most [low] and
    the render scale is at most 0.75; and at level of detail 0 the
    render scale is 1 and the particle count is the requested one. *)
Theorem settings_consistent (s : t) (requested : Q) :
  (getShadowQuality s = none <-> getRecommendedLOD s = 3%nat) /\
  (getShadowQuality s = high <-> getRecommendedLOD s = 0%nat) /\
  (shouldSkipExpensiveOperations s = true ->
   (2 <= getRecommendedLOD s)%nat /\
   (shadowRank (getShadowQuality s) <= 1)%nat /\
   getRenderScale s <= 0.75) /\
  (getRecommendedLOD s = 0%nat ->
   getRenderScale s = 1 /\ adjustParticleCount requested s = requested).
Proof.
  unfold getRecommendedLOD, getRenderScale, getShadowQuality,
    shouldSkipExpensiveOperations, adjustParticleCount.
  set (level := getPerformanceLevel s) in *.
  bands; try (exfalso; lra);
    (repeat split; cbn [shadowRank]; intros;
     try lia; try (vm_compute; discriminate); try reflexivity; try discriminate).
Qed.

End OptimizerSettings.

Lemma settings_consistent_witness :
  PerformanceOptimizer.shouldSkipExpensiveOperations (PerformanceOptimizer.steady 40) = true /\
  (2 <= PerformanceOptimizer.getRecommendedLOD (PerformanceOptimizer.steady 40))%nat /\
  (PerformanceOptimizer.getShadowQuality (PerformanceOptimizer.steady 20)
   = PerformanceOptimizer.none
   <-> PerformanceOptimizer.getRecommendedLOD (PerformanceOptimizer.steady 20) = 3%nat).
Proof.
  assert (H : PerformanceOptimizer.shouldSkipExpensiveOperations
                (PerformanceOptimizer.steady 40) = true) by reflexivity.
  split; [exact H|].
  destruct (settings_consistent (PerformanceOptimizer.steady 40) 0) as (_ & _ & H3 & _).
  destruct (settings_consistent (PerformanceOptimizer.steady 20) 0) as (H1 & _).
  split; [apply (H3 H) | exact H1].
Defined.

(** ** AnimationSequencer: the catalog of sequences and the playback calls *)

Section SequencerCalls.

Import AnimationSequencer.

(** X6.  A sequence that is added can be looked up under its id and
    replaces an earlier one of the same id; removing an id makes the
    lookup fail and leaves the other sequences alone; removing an
    unknown id changes nothing, not even the event log; and removing a
    sequence never touches the current sequence or the playing flag:
    a removed sequence that is playing goes on playing. *)
Theorem sequence_catalog (sequence : AnimationSequence) (i : string) (s : t) :
  getSequence (id sequence) (addSequence sequence s) = Some sequence /\
  (i ≠ id sequence -> getSequence i (addSequence sequence s) = getSequence i s) /\
  getSequence i (removeSequence i s) = None /\
  (∀ j, j ≠ i -> getSequence j (removeSequence i s) = getSequence j s) /\
  (getSequence i s = None -> removeSequence i s = s) /\
  currentSequence (removeSequence i s) = currentSequence s /\
  isPlaying (removeSequence i s) = isPlaying s.
Proof.
  unfold getSequence, addSequence, removeSequence, JsMap.delete.
  cbn [emit sequences].
  split; [apply get_set_eq|].
  split; [intros Hne; rewrite get_set, decide_False by assumption; reflexivity|].
  destruct (JsMap.has i (sequences s)) eqn:E; cbn [emit sequences currentSequence isPlaying].
  - split; [rewrite get_remove, decide_True; reflexivity|].
    split; [intros j Hj; rewrite get_remove, decide_False by assumption; reflexivity|].
    split; [|split; reflexivity].
    intros Hnone. apply has_false in Hnone. congruence.
  - apply has_false in E. repeat split; try assumption; reflexivity.
Qed.

Lemma sequence_catalog_witness :
  getSequence "ten" (addSequence ten new) = Some ten /\
  getSequence "cosmic" (removeSequence "cosmic" new) = None /\
  removeSequence "aurora" new = new /\
  isPlaying (removeSequence "ten" playingTen) = true.
Proof.
  destruct (sequence_catalog ten "cosmic" new) as (H1 & _ & H3 & _).
  destruct (sequence_catalog ten "aurora" new) as (_ & _ & _ & _ & H5 & _).
  destruct (sequence_catalog ten "ten" playingTen) as (_ & _ & _ & _ & _ & _ & H7).
  split; [exact H1|]. split; [exact H3|].
  split; [apply H5; reflexivity | exact H7].
Defined.

(** X7.  [play] with an id that is not in the catalog, and [play]
    without an id when there is no current sequence, leave the
    sequencer exactly as it was.  [play] with a known id makes that
    sequence current, sets the playing flag and the start time, and
    fires [play]; it does not touch the stored progress, which keeps
    its old value until the next [update]. *)
Theorem play_spec (sequenceId : string) (now : Z) (s : t) :
  sequenceId ≠ "" ->
  (getSequence sequenceId s = None -> play (Some sequenceId) now s = s) /\
  (currentSequence s = None -> play None now s = s) /\
  (∀ sequence, getSequence sequenceId s = Some sequence ->
     currentSequence (play (Some sequenceId) now s) = Some sequence /\
     isPlaying (play (Some sequenceId) now s) = true /\
     startTime (play (Some sequenceId) now s) = inject_Z now /\
     progress (play (Some sequenceId) now s) = progress s /\
     last (events (play (Some sequenceId) now s)) = Some (Play (id sequence))).
Proof.
  intros Hne. unfold getSequence, play.
  rewrite decide_False by assumption.
  split; [intros ->; reflexivity|].
  split; [intros ->; reflexivity|].
  intros sequence ->. cbn [currentSequence isPlaying startTime progress events].
  repeat split. rewrite app_assoc. apply last_snoc.
Qed.

Lemma play_spec_witness :
  "aurora" ≠ "" /\ play (Some "aurora") 5 pausedCosmic = pausedCosmic /\
  play None 5 new = new /\
  currentSequence (play (Some "fire") 5 pausedCosmic) = Some fire /\
  progress (play (Some "fire") 5 pausedCosmic) = progress pausedCosmic.
Proof.
  assert (H1 : "aurora" ≠ "") by discriminate.
  assert (H2 : "fire" ≠ "") by discriminate.
  split; [exact H1|].
  destruct (play_spec "aurora" 5 pausedCosmic H1) as (Hunknown & _ & _).
  destruct (play_spec "aurora" 5 new H1) as (_ & Hnone & _).
  destruct (play_spec "fire" 5 pausedCosmic H2) as (_ & _ & Hknown).
  destruct (Hknown fire eq_refl) as (Hc & _ & _ & Hp & _).
  split; [apply Hunknown; reflexivity|].
  split; [apply Hnone; reflexivity|].
  split; assumption.
Defined.

Lemma update_idle (now : Z) (s : t) :
  isPlaying s = false \/ currentSequence s = None -> update now s = s.
Proof.
  intros [H|H]; unfold update; rewrite H; [|reflexivity].
  destruct (currentSequence s); reflexivity.
Qed.

(** X8.  A sequence that does not loop ends once: the [update] that
    computes a progress of 1 or more sets the progress to exactly 1,
    clears the playing flag, calls the completion callback if there is
    one and fires one [complete] event and no [update] event; every
    later [update] leaves the sequencer as it is. *)
Theorem update_completes_once (now later : Z) (s : t) (current : AnimationSequence) :
  currentSequence s = Some current -> isPlaying s = true ->
  loop current = false -> 1 <= rawProgress now s current ->
  progress (update now s) = 1 /\
  isPlaying (update now s) = false /\
  events (update now s)
  = events s ++ (if onComplete current then [CallOnComplete (id current)] else [])
    ++ [Complete (id current)] /\
  update later (update now s) = update now s.
Proof.
  intros Hcur Hplay Hloop Hp.
  destruct (update_complete now s current Hcur Hplay Hloop Hp) as (H1 & H2 & H3).
  repeat split; try assumption.
  apply update_idle. left. exact H2.
Qed.

Lemma update_completes_once_witness :
  1 <= rawProgress 7000 playingOnce once /\
  progress (update 7000 playingOnce) = 1 /\
  length (List.filter isComplete (events (update 9000 (update 7000 playingOnce)))) = 1%nat.
Proof.
  assert (H : 1 <= rawProgress 7000 playingOnce once) by (vm_compute; discriminate).
  split; [exact H|].
  destruct (update_completes_once 7000 9000 playingOnce once eq_refl eq_refl eq_refl H)
    as (H1 & _ & _ & H4).
  split; [exact H1|]. rewrite H4. vm_compute. reflexivity.
Defined.

(** X9.  While the sequencer is paused or stopped, [update] does
    nothing: the progress stays frozen however much time passes.
    [stop] also resets the progress and the start time to 0; [pause]
    keeps both. *)
Theorem update_ignored_when_idle (now : Z) (s : t) :
  update now (pause s) = pause s /\
  update now (stop s) = stop s /\
  progress (stop s) = 0 /\ startTime (stop s) = 0 /\
  progress (pause s) = progress s /\ startTime (pause s) = startTime s /\
  currentSequence (stop s) = currentSequence s.
Proof.
  split; [apply update_idle; left; reflexivity|].
  split; [apply update_idle; left; reflexivity|].
  repeat split.
Qed.

(** X10.  [seek] without a current sequence does nothing; otherwise it
    stores the requested progress clamped to [0, 1].  The position a
    [seek] moved to does not survive [play()]: [play] sets the start
    time to its own clock reading, so that after the next [update] the
    sequencer is in the state it would be in without the [seek], apart
    from the [seek] event in the event log. *)
Theorem seek_lost_on_play (p : Q) (t now now' : Z) (s : AnimationSequencer.t) :
  (currentSequence s = None -> seek p t s = s) /\
  (is_Some (currentSequence s) -> progress (seek p t s) = Qmax 0 (Qmin 1 p)) /\
  let a := update now' (play None now (seek p t s)) in
  let b := update now' (play None now s) in
  sequences a = sequences b /\ currentSequence a = currentSequence b /\
  startTime a = startTime b /\ isPlaying a = isPlaying b /\
  speed a = speed b /\ progress a = progress b /\
  ∃ later,
    events b = events s ++ later /\
    events a
    = events s
      ++ match currentSequence s with
         | Some _ => [Seek (Qmax 0 (Qmin 1 p))]
         | None => []
         end ++ later.
Proof.
  unfold seek. destruct (currentSequence s) as [current|] eqn:Hcur.
  - split; [discriminate|]. split; [reflexivity|].
    unfold play, emit. cbn [currentSequence]. rewrite Hcur.
    unfold update, rawProgress.
    cbn [currentSequence isPlaying negb startTime speed sequences events progress].
    destruct (Qgeb _ 1); [destruct (loop current)|];
      cbn [sequences currentSequence startTime isPlaying speed progress events];
      repeat split; eexists; (split; [rewrite <- !app_assoc; reflexivity|]);
      rewrite <- !app_assoc; reflexivity.
  - split; [reflexivity|]. split; [intros [x Hx]; discriminate|].
    cbv zeta. repeat split. exists []. rewrite !app_nil_r.
    unfold play, update. rewrite Hcur. cbn [currentSequence]. rewrite Hcur.
    split; reflexivity.
Qed.

(** A sequencer paused on its cosmic sequence, put at one half and
    played again, is at the beginning after the next update. *)
Example seek_lost_cosmic :
  progress (seek 0.5 9000 pausedCosmic) = Qmax 0 (Qmin 1 0.5) /\
  progress (update 9000 (play None 9000 (seek 0.5 9000 pausedCosmic))) == 0.
Proof. split; vm_compute; reflexivity. Qed.

End SequencerCalls.

(** ** AnimationSequencer: invariants of a run *)

Section SequencerInvariants.

Import AnimationSequencer.

Lemma sequencer_run_snoc (cs : list call) (c : call) :
  run (cs ++ [c]) = run_call (run cs) c.
Proof. unfold run. rewrite fold_left_app. reflexivity. Qed.

Lemma speed_bounds (v : Q) : 0.1 <= Qmax 0.1 (Qmin 5 v) <= 5.
Proof. apply (clamp_bounds 0.1 5 v). lra. Qed.

Lemma speed_kept (s : t) (c : call) :
  match c with OpSetSpeed _ => True | _ => speed (run_call s c) = speed s end.
Proof.
  destruct c; cbn [run_call]; try reflexivity; try exact I.
  - unfold removeSequence, JsMap.delete.
    destruct (JsMap.has sequence (sequences s)); reflexivity.
  - unfold play. destruct sequenceId as [i|].
    + destruct (decide (i = "")); [destruct (currentSequence s); reflexivity|].
      destruct (JsMap.get i (sequences s)); reflexivity.
    + destruct (currentSequence s); reflexivity.
  - unfold seek. destruct (currentSequence s); reflexivity.
  - unfold update. destruct (currentSequence s) as [current|]; [|reflexivity].
    destruct (isPlaying s); [|reflexivity]. cbn [negb].
    destruct (Qgeb _ 1); [destruct (loop current)|]; reflexivity.
Qed.

(** X11.  Whatever calls are made on a new sequencer, its speed stays
    within [0.1, 5]; in particular it is never zero or negative. *)
Theorem speed_always_bounded (cs : list call) :
  0.1 <= speed (run cs) <= 5 /\ 0 < speed (run cs).
Proof.
  assert (H : 0.1 <= speed (run cs) <= 5).
  { induction cs as [|c cs IH] using rev_ind.
    - cbn. lra.
    - rewrite sequencer_run_snoc. pose proof (speed_kept (run cs) c) as Hc.
      destruct c; try (rewrite Hc; exact IH).
      cbn [run_call setSpeed emit speed]. apply speed_bounds. }
  split; [exact H | lra].
Qed.

Lemma quotient_nonneg (a b : Q) : 0 <= a -> 0 < b -> 0 <= a / b.
Proof. intros Ha Hb. apply Qle_shift_div_l; [exact Hb | lra]. Qed.

Lemma rawProgress_nonneg (now : Z) (s : t) (current : AnimationSequence) :
  startTime s <= inject_Z now -> 0 < speed s -> 0 < duration current ->
  0 <= rawProgress now s current.
Proof.
  intros Hstart Hspeed Hduration. unfold rawProgress. cbv zeta.
  apply quotient_nonneg; [|exact Hduration]. nra.
Qed.

Lemma inTime_later (now later : Z) (s : t) :
  inTime now s -> (now <= later)%Z -> inTime later s.
Proof.
  intros (H0 & H1 & H2) Hle. split; [lia|]. split; [|exact H2].
  apply Qle_trans with (inject_Z now); [exact H1|]. rewrite <- Zle_Qle. exact Hle.
Qed.

Lemma inTime_update (now : Z) (s : t) : inTime now s -> inTime now (update now s).
Proof.
  intros Hs. pose proof Hs as (H0 & Hstart & Hprogress & Hspeed & Hall & Hcur).
  unfold update. destruct (currentSequence s) as [current|] eqn:E; [|exact Hs].
  destruct (isPlaying s); [|exact Hs]. cbn [negb].
  pose proof (rawProgress_nonneg now s current Hstart ltac:(lra) Hcur) as Hraw.
  destruct (Qgeb (rawProgress now s current) 1) eqn:G.
  - destruct (loop current); unfold inTime;
      cbn [startTime progress speed sequences currentSequence];
      repeat split; try assumption; try lra; try apply Hspeed; try apply Qle_refl.
  - apply Qgeb_lt in G. unfold inTime.
    cbn [startTime progress speed sequences currentSequence].
    repeat split; try assumption; try lra; apply Hspeed.
Qed.

Lemma inTime_seek (p : Q) (now : Z) (s : t) : inTime now s -> inTime now (seek p now s).
Proof.
  intros Hs. pose proof Hs as (H0 & Hstart & Hprogress & Hspeed & Hall & Hcur).
  unfold seek. destruct (currentSequence s) as [current|] eqn:E; [|exact Hs].
  pose proof (clamp_bounds 0 1 p ltac:(lra)) as Hp. unfold clamp in Hp.
  unfold inTime. cbn [emit startTime progress speed sequences currentSequence].
  repeat split; try assumption; try apply Hp; try apply Hspeed.
  assert (Hq : 0 <= Qmax 0 (Qmin 1 p) * duration current * 1000 / speed s).
  { apply quotient_nonneg; [|lra].
    set (q := Qmax 0 (Qmin 1 p)) in *. nra. }
  lra.
Qed.

Lemma inTime_play (i : option string) (now : Z) (s : t) :
  inTime now s -> inTime now (play i now s).
Proof.
  intros Hs. pose proof Hs as (H0 & Hstart & Hprogress & Hspeed & Hall & Hcur).
  assert (Hok : ∀ current, 0 < duration current ->
            inTime now
              {| sequences := sequences s; currentSequence := Some current;
                 startTime := inject_Z now; isPlaying := true; speed := speed s;
                 progress := progress s;
                 events := events s
                           ++ (if onStart current then [CallOnStart (id current)] else [])
                           ++ [Play (id current)] |}).
  { intros current Hd. unfold inTime.
    cbn [startTime progress speed sequences currentSequence].
    repeat split; try assumption; try apply Hprogress; try apply Hspeed.
    apply Qle_refl. }
  unfold play. destruct i as [i|].
  - destruct (decide (i = "")).
    + destruct (currentSequence s) as [current|]; [apply Hok, Hcur | exact Hs].
    + destruct (JsMap.get i (sequences s)) as [sequence|] eqn:G; [|exact Hs].
      apply Hok. apply (Forall_get _ _ _ _ Hall G).
  - destruct (currentSequence s) as [current|]; [apply Hok, Hcur | exact Hs].
Qed.

Lemma inTime_run_call (now : Z) (s : t) (c : call) :
  inTime now s ->
  match c with OpAddSequence sequence => 0 < duration sequence | _ => True end ->
  match clock c with
  | Some later => (now <= later)%Z -> inTime later (run_call s c)
  | None => inTime now (run_call s c)
  end.
Proof.
  intros Hs Hc. pose proof Hs as (H0 & Hstart & Hprogress & Hspeed & Hall & Hcur).
  destruct c; cbn [clock run_call].
  - unfold inTime, addSequence.
    cbn [emit startTime progress speed sequences currentSequence].
    repeat split; try assumption; try apply Hprogress; try apply Hspeed.
    apply Forall_set; [exact Hall | exact Hc].
  - unfold removeSequence, JsMap.delete.
    destruct (JsMap.has sequence (sequences s)); [|exact Hs].
    unfold inTime. cbn [emit startTime progress speed sequences currentSequence].
    repeat split; try assumption; try apply Hprogress; try apply Hspeed.
    apply Forall_remove, Hall.
  - intros Hle. apply inTime_play, (inTime_later now); assumption.
  - unfold inTime, pause.
    cbn [emit startTime progress speed sequences currentSequence].
    repeat split; try assumption; try apply Hprogress; try apply Hspeed.
  - unfold inTime, stop.
    cbn [emit startTime progress speed sequences currentSequence].
    repeat split; try assumption; try lra; try apply Hspeed.
    replace 0 with (inject_Z 0) by reflexivity. rewrite <- Zle_Qle. exact H0.
  - unfold inTime, setSpeed.
    cbn [emit startTime progress speed sequences currentSequence].
    repeat split; try assumption; try apply Hprogress; apply speed_bounds.
  - intros Hle. apply inTime_seek, (inTime_later now); assumption.
  - intros Hle. apply inTime_update, (inTime_later now); assumption.
Qed.

Lemma inTime_new : inTime 0 new.
Proof.
  unfold inTime. split; [lia|].
  split; [vm_compute; discriminate|].
  split; [split; vm_compute; discriminate|].
  split; [split; vm_compute; discriminate|].
  split; [|exact I].
  repeat (apply List.Forall_cons; [reflexivity|]). apply List.Forall_nil.
Qed.

Lemma inTime_fold (cs : list call) (now : Z) (s : t) :
  inTime now s -> chronological now cs -> positiveDurations cs ->
  ∃ later, inTime later (fold_left run_call cs s).
Proof.
  revert now s. induction cs as [|c cs IH]; intros now s Hs Hchron Hpos.
  - exists now. exact Hs.
  - inversion Hpos as [|? ? Hc Hcs]; subst.
    pose proof (inTime_run_call now s c Hs Hc) as Hstep.
    cbn [fold_left]. cbn [chronological] in Hchron.
    destruct (clock c) as [later|].
    + destruct Hchron as [Hle Hchron]. apply (IH later); auto.
    + apply (IH now); auto.
Qed.

(** X12.  When the clock never runs backwards (and starts at or after
    0) and every added sequence has a positive duration, the progress
    of the sequencer stays within [0, 1] through any calls. *)
Theorem progress_always_bounded (cs : list call) :
  chronological 0 cs -> positiveDurations cs ->
  0 <= progress (run cs) <= 1.
Proof.
  intros Hchron Hpos.
  destruct (inTime_fold cs 0 new inTime_new Hchron Hpos) as (later & H).
  apply H.
Qed.

Lemma progress_always_bounded_witness :
  chronological 0 [OpAddSequence ten; OpPlay (Some "ten") 100; OpUpdate 4100;
                   OpSetSpeed 9; OpUpdate 5100; OpSeek 0.9 5100; OpUpdate 9100] /\
  0 <= progress (run [OpAddSequence ten; OpPlay (Some "ten") 100; OpUpdate 4100;
                      OpSetSpeed 9; OpUpdate 5100; OpSeek 0.9 5100; OpUpdate 9100]) <= 1.
Proof.
  assert (H1 : chronological 0
                 [OpAddSequence ten; OpPlay (Some "ten") 100; OpUpdate 4100;
                  OpSetSpeed 9; OpUpdate 5100; OpSeek 0.9 5100; OpUpdate 9100])
    by (cbn; lia).
  split; [exact H1|].
  apply (progress_always_bounded _ H1).
  repeat (constructor; [first [exact I | reflexivity]|]). constructor.
Defined.

(** Without the assumption the bound fails: an [update] with a clock
    reading before the start time computes a negative progress. *)
Example progress_negative :
  progress (run [OpPlay (Some "cosmic") 6000; OpUpdate 0]) < 0.
Proof. vm_compute. reflexivity. Qed.

End SequencerInvariants.

(** ** AnimationSequencer: inside a segment *)

Section SegmentFacts.

Import AnimationSequencer.











End SegmentFacts.

(** ** AnimationSequencer: the data of a tick *)

Section FrameDataFacts.

Import AnimationSequencer.

(** X16.  The data of an [update] event has one own entry for every
    track id of the sequence other than [__proto__], and no other: the
    entry of an id is the interpolation of the last track with that
    id.  A track with the id [__proto__] adds no entry: the
    interpolation of the last such track becomes the prototype of the
    data. *)
Theorem frameData_tracks (sequence : AnimationSequence) (t : Q) (i : string) :
  own (frameData sequence t) !! i
  = (if decide (i = "__proto__") then None
     else (λ track, interpolateTrack track t)
            <$> last (filter (λ track, track_id track = i) (tracks sequence))) /\
  prototype (frameData sequence t)
  = (λ track, interpolateTrack track t)
      <$> last (filter (λ track, track_id track = "__proto__") (tracks sequence)).
Proof.
  unfold frameData. induction (tracks sequence) as [|track l [IH1 IH2]] using rev_ind.
  - cbn [fold_left own prototype filter]. rewrite lookup_empty.
    destruct (decide (i = "__proto__")); split; reflexivity.
  - rewrite fold_left_app, !filter_app. cbn [fold_left]. unfold assign at 1 3.
    destruct (decide (track_id track = "__proto__")) as [Hproto|Hproto];
      cbn [own prototype].
    + rewrite (filter_cons_True (λ track, track_id track = "__proto__")) by assumption.
      rewrite filter_nil, last_snoc. split; [|reflexivity].
      rewrite IH1. destruct (decide (i = "__proto__")) as [Hi|Hi]; [reflexivity|].
      rewrite filter_cons_False, filter_nil, app_nil_r by congruence. reflexivity.
    + rewrite (filter_cons_False (λ track, track_id track = "__proto__")) by assumption.
      rewrite filter_nil, app_nil_r. split; [|exact IH2].
      destruct (decide (track_id track = i)) as [<-|Hne].
      * rewrite lookup_insert_eq, decide_False by assumption.
        rewrite filter_cons_True, filter_nil, last_snoc by reflexivity. reflexivity.
      * rewrite lookup_insert_ne by assumption. rewrite IH1.
        rewrite filter_cons_False, filter_nil, app_nil_r by assumption. reflexivity.
Qed.

(** The cosmic sequence resolves its three tracks and nothing else. *)
Example frameData_cosmic :
  dom (own (frameData cosmic 10)) = {["camera"; "particles"; "lighting"]} /\
  own (frameData cosmic 10) !! "particles" = Some (interpolateTrack particlesTrack 10) /\
  prototype (frameData cosmic 10) = None.
Proof. repeat split; vm_compute; reflexivity. Qed.

(** A track with the id [__proto__] leaves no entry behind. *)
Example frameData_proto :
  let sequence :=
    {| id := id ten; name := name ten; description := description ten;
       tracks := [{| track_id := "__proto__";
                     keyframes := keyframes particlesTrack |}];
       duration := duration ten; loop := loop ten; onStart := onStart ten;
       onUpdate := onUpdate ten; onComplete := onComplete ten |} in
  own (frameData sequence 0) = ∅ /\
  prototype (frameData sequence 0) = Some (interpolateTrack particlesTrack 0).
Proof. split; reflexivity. Qed.

End FrameDataFacts.

(** ** EffectManager: the single calls *)

Section EffectCalls.

Import EffectManager.

(** X17.  [disableEffect] on an id that is not active returns false and
    changes nothing; on an active id it returns true, removes that
    effect only, keeps the global intensity, and calls every registered
    listener exactly once. *)
Theorem disableEffect_spec (library : list Effect.t) (s : t) (effectId : string)
    (listener : nat) :
  reachable library s -> listener ∈ listeners s ->
  (isEffectActive effectId s = false -> disableEffect effectId s = (false, s)) /\
  (isEffectActive effectId s = true ->
   (disableEffect effectId s).1 = true /\
   isEffectActive effectId (disableEffect effectId s).2 = false /\
   (∀ other, other ≠ effectId ->
      JsMap.get other (activeEffects (disableEffect effectId s).2)
      = JsMap.get other (activeEffects s)) /\
   globalIntensity (disableEffect effectId s).2 = globalIntensity s /\
   received listener (disableEffect effectId s).2 = S (received listener s)).
Proof.
  intros Hreach Hl. apply reachable_wellFormed in Hreach.
  destruct Hreach as (_ & Hls & _).
  unfold disableEffect, JsMap.delete, isEffectActive.
  split; intros ->; [reflexivity|].
  cbn [fst snd activeEffects notifyListeners setActive globalIntensity].
  split; [reflexivity|].
  split; [apply has_false; rewrite get_remove, decide_True; reflexivity|].
  split; [intros other Hne; rewrite get_remove, decide_False by assumption; reflexivity|].
  split; [reflexivity|].
  apply (received_notify listener (setActive _ s)); assumption.
Qed.

Lemma disableEffect_spec_witness :
  reachable sky daytime /\ 0%nat ∈ listeners daytime /\
  disableEffect "night" daytime = (false, daytime) /\
  isEffectActive "day" (disableEffect "day" daytime).2 = false /\
  received 0 (disableEffect "day" daytime).2 = S (received 0 daytime).
Proof.
  assert (Hl : 0%nat ∈ listeners daytime) by apply list_elem_of_here.
  split; [exact daytime_reachable|]. split; [exact Hl|].
  destruct (disableEffect_spec sky daytime "night" 0%nat daytime_reachable Hl) as [H1 _].
  destruct (disableEffect_spec sky daytime "day" 0%nat daytime_reachable Hl) as [_ H2].
  destruct (H2 eq_refl) as (_ & H3 & _ & _ & H4).
  split; [apply H1; reflexivity|]. split; assumption.
Defined.

(** X18.  [setEffectParameters] and [setEffectIntensity] on an id that
    is not active return false and change nothing.  On an active id
    [setEffectParameters] merges: a key of the argument takes the
    argument's value, every other key keeps its value, and the
    intensity, the effect and all other active effects stay as they
    are. *)
Theorem setEffectParameters_merges (s : t) (effectId : string) (parameters : bag)
    (v : Q) (now : Z) :
  (isEffectActive effectId s = false ->
   setEffectParameters effectId parameters now s = (false, s) /\
   setEffectIntensity effectId v now s = (false, s)) /\
  (∀ st, JsMap.get effectId (activeEffects s) = Some st ->
     (setEffectParameters effectId parameters now s).1 = true /\
     (∃ st', JsMap.get effectId
               (activeEffects (setEffectParameters effectId parameters now s).2)
             = Some st' /\
             (∀ key, EffectState.parameters st' !! key
                     = match parameters !! key with
                       | Some value => Some value
                       | None => EffectState.parameters st !! key
                       end) /\
             EffectState.intensity st' = EffectState.intensity st /\
             EffectState.effect st' = EffectState.effect st) /\
     (∀ other, other ≠ effectId ->
        JsMap.get other (activeEffects (setEffectParameters effectId parameters now s).2)
        = JsMap.get other (activeEffects s))).
Proof.
  unfold setEffectParameters, setEffectIntensity. split.
  - intros H. apply has_false in H. rewrite H. split; reflexivity.
  - intros st ->. cbn [fst snd activeEffects notifyListeners setActive].
    split; [reflexivity|]. split.
    + eexists. split; [apply get_set_eq|].
      cbn [EffectState.parameters EffectState.intensity EffectState.effect].
      split; [|split; reflexivity].
      intros key. unfold spread. rewrite lookup_union.
      destruct (parameters !! key), (EffectState.parameters st !! key); reflexivity.
    + intros other Hne. rewrite get_set, decide_False by assumption. reflexivity.
Qed.

Lemma setEffectParameters_merges_witness :
  isEffectActive "snow" burning = false /\
  setEffectParameters "snow" (list_to_map [("density", jnum 2)]) 1 burning
  = (false, burning) /\
  match JsMap.get "fire" (activeEffects hotter) with
  | Some st => EffectState.parameters st !! "temperature" = Some (jnum 5) /\
               EffectState.parameters st !! "spread" = Some (jnum 1.0)
  | None => False
  end.
Proof.
  assert (H : isEffectActive "snow" burning = false) by reflexivity.
  split; [exact H|].
  destruct (setEffectParameters_merges burning "snow"
              (list_to_map [("density", jnum 2)]) 0 1) as [Hinactive _].
  split; [apply Hinactive, H|].
  vm_compute. split; reflexivity.
Defined.

(** X19.  [disableAllEffects] leaves no effect active, so that every
    effective intensity is 0; it keeps the global intensity and calls
    every registered listener exactly once, with an empty list. *)
Theorem disableAllEffects_spec (library : list Effect.t) (s : t) (effectId : string)
    (listener : nat) :
  reachable library s -> listener ∈ listeners s ->
  getActiveEffects (disableAllEffects s) = [] /\
  isEffectActive effectId (disableAllEffects s) = false /\
  getEffectiveIntensity effectId (disableAllEffects s) = 0 /\
  globalIntensity (disableAllEffects s) = globalIntensity s /\
  received listener (disableAllEffects s) = S (received listener s) /\
  last (delivered (disableAllEffects s)) = (λ l, (l, [])) <$> last (listeners s).
Proof.
  intros Hreach Hl. apply reachable_wellFormed in Hreach.
  destruct Hreach as (_ & Hls & _).
  repeat split.
  - apply (received_notify listener (setActive [] s)); assumption.
  - unfold disableAllEffects, notifyListeners.
    cbn [delivered setActive listeners getActiveEffects activeEffects JsMap.values
         fmap list_fmap].
    destruct (listeners s) as [|l ls _] using rev_ind.
    + apply elem_of_nil in Hl. contradiction.
    + rewrite map_app, app_assoc. cbn [map]. rewrite !last_snoc. reflexivity.
Qed.

Lemma disableAllEffects_spec_witness :
  reachable sky daytime /\ 0%nat ∈ listeners daytime /\
  getEffectiveIntensity "day" (disableAllEffects daytime) = 0 /\
  received 0 (disableAllEffects daytime) = S (received 0 daytime).
Proof.
  assert (Hl : 0%nat ∈ listeners daytime) by apply list_elem_of_here.
  split; [exact daytime_reachable|]. split; [exact Hl|].
  destruct (disableAllEffects_spec sky daytime "day" 0%nat daytime_reachable Hl)
    as (_ & _ & H3 & _ & H5 & _).
  split; assumption.
Defined.

(** X20.  [toggleEffect] on an effect of the catalog whose
    dependencies are active succeeds and flips the effect: an active
    effect becomes inactive and an inactive one active.  On an id that
    is neither active nor in the catalog it returns false and changes
    nothing. *)
Theorem toggleEffect_flips (s : t) (effectId : string) (intensity : option Q)
    (now : Z) :
  (∀ effect, JsMap.get effectId (effects s) = Some effect ->
     dependenciesActive effect s ->
     (toggleEffect effectId intensity now s).1 = true /\
     isEffectActive effectId (toggleEffect effectId intensity now s).2
     = negb (isEffectActive effectId s)) /\
  (JsMap.get effectId (effects s) = None -> isEffectActive effectId s = false ->
   toggleEffect effectId intensity now s = (false, s)).
Proof.
  unfold toggleEffect. split.
  - intros effect Hget Hdeps. destruct (isEffectActive effectId s) eqn:E.
    + unfold disableEffect, JsMap.delete. unfold isEffectActive in E. rewrite E.
      cbn [fst snd negb]. split; [reflexivity|].
      apply has_false. cbn [activeEffects notifyListeners setActive].
      rewrite get_remove, decide_True; reflexivity.
    + rewrite (enableEffect_accepts s effectId intensity now effect) by assumption.
      cbn [fst snd negb]. split; [reflexivity|].
      apply has_get. cbn [activeEffects notifyListeners setActive].
      rewrite get_set_eq. eauto.
  - intros Hnone ->. apply enableEffect_unknown, Hnone.
Qed.

Lemma toggleEffect_flips_witness :
  dependenciesActive fireEffect burning /\
  isEffectActive "fire" (toggleEffect "fire" None 3 burning).2 = false /\
  isEffectActive "fire" (toggleEffect "fire" None 3 new).2 = true /\
  toggleEffect "aurora" None 3 burning = (false, burning).
Proof.
  assert (Hdeps : ∀ s, dependenciesActive fireEffect s)
    by (intros s deps Hd; discriminate).
  split; [apply Hdeps|].
  destruct (toggleEffect_flips burning "fire" None 3) as [H1 _].
  destruct (toggleEffect_flips new "fire" None 3) as [H2 _].
  destruct (toggleEffect_flips burning "aurora" None 3) as [_ H3].
  destruct (H1 fireEffect eq_refl (Hdeps _)) as [_ Hoff].
  destruct (H2 fireEffect eq_refl (Hdeps _)) as [_ Hon].
  split; [exact Hoff|]. split; [exact Hon|].
  apply H3; reflexivity.
Defined.

End EffectCalls.

(** ** EffectManager: the catalog and the active effects *)

Section CatalogFacts.

Import EffectManager.

Lemma disableConflicts_keeps (P : string * EffectState.t -> Prop)
    (cs : list string) (s : t) :
  Forall P (activeEffects s) ->
  Forall P (activeEffects (disableConflicts cs s)) /\
  effects (disableConflicts cs s) = effects s /\
  listeners (disableConflicts cs s) = listeners s /\
  globalIntensity (disableConflicts cs s) = globalIntensity s.
Proof.
  revert s. induction cs as [|c cs IH]; intros s Hs.
  - repeat split. exact Hs.
  - rewrite disableConflicts_cons. destruct (isEffectActive c s).
    + unfold disableEffect, JsMap.delete.
      destruct (JsMap.has c (activeEffects s)); cbn [snd]; [|apply IH, Hs].
      destruct (IH (notifyListeners (setActive (JsMap.remove c (activeEffects s)) s)))
        as (H1 & H2 & H3 & H4).
      { cbn [activeEffects notifyListeners setActive]. apply Forall_remove, Hs. }
      rewrite H2, H3, H4. repeat split. exact H1.
    + apply IH, Hs.
Qed.

Lemma create_catalog (library : list Effect.t) :
  NoDup (JsMap.keys (effects (create library))) /\
  ∀ k effect, JsMap.get k (effects (create library)) = Some effect ->
              Effect.id effect = k.
Proof.
  unfold create. cbn [effects].
  induction library as [|e library IH] using rev_ind.
  - split; [constructor | discriminate].
  - rewrite fold_left_app. cbn [fold_left]. destruct IH as [IH1 IH2]. split.
    + apply NoDup_set, IH1.
    + intros k effect. rewrite get_set.
      destruct (decide (k = Effect.id e)) as [->|Hne]; [|apply IH2].
      intros [= <-]. reflexivity.
Qed.

Lemma catalogued_set (library : list Effect.t) (s : t) (i : string)
    (st : EffectState.t) (active : JsMap.t EffectState.t) :
  effects s = effects (create library) ->
  Forall (λ p : string * EffectState.t,
            JsMap.get p.1 (effects (create library)) = Some (EffectState.effect p.2) /\
            EffectState.enabled p.2 = true) active ->
  JsMap.get i (effects (create library)) = Some (EffectState.effect st) ->
  EffectState.enabled st = true ->
  catalogued library (notifyListeners (setActive (JsMap.set i st active) s)).
Proof.
  intros H1 H2 Hget Hen. split; [exact H1|].
  cbn [activeEffects notifyListeners setActive].
  apply Forall_set; [exact H2|]. cbn [fst snd]. tauto.
Qed.

Lemma reachable_catalogued (library : list Effect.t) (s : t) :
  reachable library s -> catalogued library s.
Proof.
  apply reachable_invariant.
  - split; [reflexivity | constructor].
  - intros s' i v now [H1 H2].
    destruct (enableEffect_cases s' i v now) as [->|(effect & Hget & ->)];
      [split; assumption|].
    cbv zeta. cbn [snd].
    destruct (disableConflicts_keeps _ (default [] (Effect.conflictsWith effect)) s' H2)
      as (H3 & H4 & _).
    apply catalogued_set; try assumption; try reflexivity.
    + rewrite H4. exact H1.
    + cbn [freshState EffectState.effect]. rewrite <- H1. exact Hget.
  - intros s' i [H1 H2]. unfold disableEffect, JsMap.delete.
    destruct (JsMap.has i (activeEffects s')); [|split; assumption].
    split; [exact H1|]. apply Forall_remove, H2.
  - intros s' i v now [H1 H2]. unfold setEffectIntensity.
    destruct (JsMap.get i (activeEffects s')) as [st|] eqn:E; [|split; assumption].
    pose proof (Forall_get _ _ _ _ H2 E) as [Hg He].
    apply catalogued_set; assumption.
  - intros s' i ps now [H1 H2]. unfold setEffectParameters.
    destruct (JsMap.get i (activeEffects s')) as [st|] eqn:E; [|split; assumption].
    pose proof (Forall_get _ _ _ _ H2 E) as [Hg He].
    apply catalogued_set; assumption.
  - intros s' v [H1 H2]. split; assumption.
  - intros s' [H1 H2]. split; [exact H1 | constructor].
  - intros s' l [H1 H2]. split; assumption.
  - intros s' l [H1 H2]. split; assumption.
Qed.

(** X21.  In every reachable manager, whatever its library, the
    catalog is the one the constructor built, and every active effect
    is the catalog entry stored under its id, carries that id, and is
    flagged as enabled: there is no state for an effect that is unknown
    or disabled. *)
Theorem active_effects_catalogued (library : list Effect.t) (s : t)
    (effectId : string) (st : EffectState.t) :
  reachable library s ->
  JsMap.get effectId (activeEffects s) = Some st ->
  JsMap.get effectId (effects s) = Some (EffectState.effect st) /\
  Effect.id (EffectState.effect st) = effectId /\
  EffectState.enabled st = true /\
  effects s = effects (create library).
Proof.
  intros Hreach Hget. destruct (reachable_catalogued library s Hreach) as [H1 H2].
  pose proof (Forall_get _ _ _ _ H2 Hget) as [Hg He]. cbn [fst snd] in Hg, He.
  rewrite H1. repeat split; try assumption.
  apply (proj2 (create_catalog library) _ _ Hg).
Qed.

Lemma active_effects_catalogued_witness :
  reachable defaultEffects busy /\
  match JsMap.get "bloom" (activeEffects busy) with
  | Some st => JsMap.get "bloom" (effects busy) = Some (EffectState.effect st) /\
               Effect.id (EffectState.effect st) = "bloom"
  | None => False
  end.
Proof.
  split; [exact busy_reachable|].
  destruct (JsMap.get "bloom" (activeEffects busy)) as [st|] eqn:E;
    [|vm_compute in E; discriminate].
  destruct (active_effects_catalogued defaultEffects busy "bloom" st busy_reachable E)
    as (H1 & H2 & _).
  split; assumption.
Defined.

Lemma count_total (l : list EffectState.t) (acc : PerformanceSummary.t) :
  let r := fold_left countImpact l acc in
  PerformanceSummary.total r = (PerformanceSummary.total acc + length l)%nat /\
  (PerformanceSummary.low r + PerformanceSummary.medium r + PerformanceSummary.high r
   = PerformanceSummary.low acc + PerformanceSummary.medium acc
     + PerformanceSummary.high acc + length l)%nat.
Proof.
  revert acc. induction l as [|st l IH]; intros acc.
  - cbn. lia.
  - cbn [fold_left length]. destruct (IH (countImpact acc st)) as [H1 H2].
    cbv zeta. rewrite H1, H2. unfold countImpact.
    cbn [PerformanceSummary.total PerformanceSummary.low PerformanceSummary.medium
         PerformanceSummary.high].
    destruct (Effect.performanceImpact (EffectState.effect st)); lia.
Qed.

(** X22.  The performance summary counts every active effect exactly
    once: its total is the number of active effects and equals the sum
    of its three classes. *)
Theorem getPerformanceSummary_total (s : t) :
  PerformanceSummary.total (getPerformanceSummary s) = length (getActiveEffects s) /\
  (PerformanceSummary.low (getPerformanceSummary s)
   + PerformanceSummary.medium (getPerformanceSummary s)
   + PerformanceSummary.high (getPerformanceSummary s)
   = PerformanceSummary.total (getPerformanceSummary s))%nat.
Proof.
  unfold getPerformanceSummary, getActiveEffects.
  destruct (count_total (JsMap.values (activeEffects s))
              {| PerformanceSummary.low := 0; PerformanceSummary.medium := 0;
                 PerformanceSummary.high := 0; PerformanceSummary.total := 0 |})
    as [H1 H2].
  cbv zeta in H1, H2. rewrite H1, H2. cbn. lia.
Qed.

(** The summary of [busy]: fire is high, bloom medium and snow low. *)
Example getPerformanceSummary_busy :
  getPerformanceSummary busy
  = {| PerformanceSummary.low := 1; PerformanceSummary.medium := 1;
       PerformanceSummary.high := 1; PerformanceSummary.total := 3 |}.
Proof. reflexivity. Qed.

End CatalogFacts.

(** ** EffectManager: bulk calls, listeners and the built-in library *)

Section BulkFacts.

Import EffectManager.

Lemma recommended_elem (p : performanceImpact) (s : t) (i : string) :
  i ∈ getRecommendedSettings p s ->
  ∃ effect, (i, effect) ∈ effects s /\
            (impactRank (Effect.performanceImpact effect) <= impactRank p)%nat.
Proof.
  unfold getRecommendedSettings, JsMap.keys. intros Hin.
  apply list_elem_of_fmap in Hin. destruct Hin as ([k effect] & -> & Hin).
  apply list_elem_of_In, List.filter_In in Hin. destruct Hin as [Hin Hf].
  exists effect. split; [apply list_elem_of_In, Hin|]. cbn [fst snd] in *.
  destruct p, (Effect.performanceImpact effect); cbn; try lia; discriminate.
Qed.

Lemma enableAll_within (catalog : JsMap.t Effect.t) (allowed ids : list string)
    (v : option Q) (now : Z) (s : t) :
  Forall (λ i, i ∈ allowed) ids ->
  effects s = catalog ->
  Forall (λ p : string * EffectState.t,
            p.1 ∈ allowed /\ JsMap.get p.1 catalog = Some (EffectState.effect p.2))
         (activeEffects s) ->
  Forall (λ p : string * EffectState.t,
            p.1 ∈ allowed /\ JsMap.get p.1 catalog = Some (EffectState.effect p.2))
         (activeEffects (enableAll ids v now s)).
Proof.
  unfold enableAll. intros Hids. revert s.
  induction Hids as [|i ids Hi _ IH]; intros s Hcat Hs; [exact Hs|].
  cbn [fold_left].
  destruct (enableEffect_cases s i v now) as [->|(effect & Hget & ->)];
    [apply IH; assumption|].
  cbv zeta. cbn [snd].
  destruct (disableConflicts_keeps _ (default [] (Effect.conflictsWith effect)) s Hs)
    as (H3 & H4 & _).
  apply IH.
  - cbn [effects notifyListeners setActive]. rewrite H4. exact Hcat.
  - cbn [activeEffects notifyListeners setActive].
    apply Forall_set; [exact H3|]. cbn [fst snd freshState EffectState.effect].
    rewrite <- Hcat. split; assumption.
Qed.

(** X23.  After [applyRecommendedSettings] for a performance target,
    every active effect is one of the recommended ids and has a
    performance impact within the target: only [low] effects for
    [low], no [high] effect for [medium]. *)
Theorem applyRecommendedSettings_budget (library : list Effect.t) (s : t)
    (target : performanceImpact) (now : Z) (effectId : string) (st : EffectState.t) :
  reachable library s ->
  JsMap.get effectId (activeEffects (applyRecommendedSettings target now s)) = Some st ->
  effectId ∈ getRecommendedSettings target s /\
  (impactRank (Effect.performanceImpact (EffectState.effect st))
   <= impactRank target)%nat.
Proof.
  intros Hreach Hget. destruct (reachable_catalogued library s Hreach) as [Hcat _].
  destruct (create_catalog library) as [Hnd _]. rewrite <- Hcat in Hnd.
  unfold applyRecommendedSettings in Hget.
  change (getRecommendedSettings target (disableAllEffects s))
    with (getRecommendedSettings target s) in Hget.
  pose proof (enableAll_within (effects s) (getRecommendedSettings target s)
                (getRecommendedSettings target s) None now (disableAllEffects s)) as H.
  assert (Hall : Forall (λ i, i ∈ getRecommendedSettings target s)
                   (getRecommendedSettings target s))
    by (apply Forall_forall; auto).
  specialize (H Hall eq_refl (Forall_nil_2 _)).
  pose proof (Forall_get _ _ _ _ H Hget) as [Hin Hentry]. cbn [fst snd] in Hin, Hentry.
  split; [exact Hin|].
  destruct (recommended_elem target s effectId Hin) as (effect & Helem & Hrank).
  apply (elem_get _ _ _ Hnd) in Helem. congruence.
Qed.

Lemma applyRecommendedSettings_budget_witness :
  reachable defaultEffects busy /\
  JsMap.keys (activeEffects (applyRecommendedSettings low 9 busy))
  = ["snow"; "geometric_shapes"; "chromatic_aberration"; "film_grain"; "pixelation"] /\
  match JsMap.get "snow" (activeEffects (applyRecommendedSettings low 9 busy)) with
  | Some st => (impactRank (Effect.performanceImpact (EffectState.effect st))
                <= impactRank low)%nat
  | None => False
  end.
Proof.
  split; [exact busy_reachable|]. split; [vm_compute; reflexivity|].
  destruct (JsMap.get "snow" (activeEffects (applyRecommendedSettings low 9 busy)))
    as [st|] eqn:E; [|vm_compute in E; discriminate].
  apply (applyRecommendedSettings_budget defaultEffects busy low 9 "snow" st
           busy_reachable E).
Defined.

Lemma inSync_notify (s : t) : inSync (notifyListeners s).
Proof. exists (delivered s). reflexivity. Qed.

Lemma notified_enable (s0 s : t) (i : string) (v : option Q) (now : Z) :
  s = s0 \/ inSync s ->
  (enableEffect i v now s).2 = s0 \/ inSync (enableEffect i v now s).2.
Proof.
  intros Hs. destruct (enableEffect_cases s i v now) as [->|(effect & _ & ->)];
    [exact Hs|].
  right. apply inSync_notify.
Qed.

Lemma notified_parameters (s0 s : t) (i : string) (ps : bag) (now : Z) :
  s = s0 \/ inSync s ->
  (setEffectParameters i ps now s).2 = s0 \/ inSync (setEffectParameters i ps now s).2.
Proof.
  intros Hs. unfold setEffectParameters.
  destruct (JsMap.get i (activeEffects s)); [|exact Hs].
  right. apply inSync_notify.
Qed.

(** X24.  No change goes unnoticed: after any call other than
    [addListener] and [removeListener], either the manager is exactly
    as it was before the call, or the last call of every registered
    listener carried the list of effects that are active after the
    call.  This holds for the bulk calls too. *)
Theorem changes_are_notified (s : t) (c : call) :
  match c with AddListener _ | RemoveListener _ => False | _ => True end ->
  run_call s c = s \/ inSync (run_call s c).
Proof.
  intros Hc. destruct c; try contradiction; cbn [run_call].
  - apply notified_enable. left. reflexivity.
  - unfold disableEffect, JsMap.delete.
    destruct (JsMap.has effectId (activeEffects s)); [right; apply inSync_notify|].
    left. reflexivity.
  - unfold toggleEffect. destruct (isEffectActive effectId s).
    + unfold disableEffect, JsMap.delete.
      destruct (JsMap.has effectId (activeEffects s)); [right; apply inSync_notify|].
      left. reflexivity.
    + apply notified_enable. left. reflexivity.
  - unfold setEffectIntensity.
    destruct (JsMap.get effectId (activeEffects s)); [right; apply inSync_notify|].
    left. reflexivity.
  - apply notified_parameters. left. reflexivity.
  - right. apply inSync_notify.
  - apply (P_enableAll (λ r, r = s \/ inSync r)).
    + intros. apply notified_enable. assumption.
    + left. reflexivity.
  - right. apply inSync_notify.
  - right.
    assert (H : applyRecommendedSettings targetPerformance now s = disableAllEffects s
                \/ inSync (applyRecommendedSettings targetPerformance now s)).
    { apply (P_enableAll (λ r, r = disableAllEffects s \/ inSync r)).
      - intros. apply notified_enable. assumption.
      - left. reflexivity. }
    destruct H as [->|H]; [apply inSync_notify | exact H].
  - apply (P_import (λ r, r = s \/ inSync r)).
    + intros. apply notified_enable. assumption.
    + intros. apply notified_parameters. assumption.
    + intros. right. apply inSync_notify.
    + intros. right. apply inSync_notify.
    + left. reflexivity.
Qed.

Lemma changes_are_notified_witness :
  last (delivered (run_call daytime (EnableEffect "night" None 1)))
  = Some (0%nat, getActiveEffects (run_call daytime (EnableEffect "night" None 1))) /\
  run_call daytime (EnableEffect "stars" None 1) = daytime.
Proof.
  destruct (changes_are_notified daytime (EnableEffect "night" None 1) I) as [H|H].
  - exfalso. apply (f_equal (isEffectActive "night")) in H. vm_compute in H.
    discriminate.
  - split; [|reflexivity]. destruct H as [earlier ->].
    change (listeners (run_call daytime (EnableEffect "night" None 1)))
      with [0%nat].
    cbn [map]. apply last_snoc.
Defined.

End BulkFacts.

Section ListenerFacts.

Import EffectManager.

Lemma received_notify_absent (l : nat) (s : t) :
  l ∉ listeners s -> received l (notifyListeners s) = received l s.
Proof.
  intros Hl. unfold received, notifyListeners. cbn [delivered].
  rewrite filter_app, length_app.
  replace (filter (λ d : nat * list EffectState.t, d.1 = l)
             (map (λ listener, (listener, getActiveEffects s)) (listeners s)))
    with (@nil (nat * list EffectState.t)); [cbn; lia|].
  symmetry. induction (listeners s) as [|x ls IH]; [reflexivity|].
  rewrite not_elem_of_cons in Hl. destruct Hl as [Hx Hl].
  cbn [map]. rewrite filter_cons_False by (cbn; congruence). apply IH, Hl.
Qed.

(** A manager in which [l] is not registered and has been called [n]
    times. *)
Lemma silent_notify (l : nat) (n : nat) (s : t) (active : JsMap.t EffectState.t) :
  (l ∉ listeners s) /\ received l s = n ->
  (l ∉ listeners (notifyListeners (setActive active s))) /\
  received l (notifyListeners (setActive active s)) = n.
Proof.
  intros [H1 H2]. split; [exact H1|].
  rewrite received_notify_absent by exact H1. exact H2.
Qed.

Lemma silent_disable (l : nat) (n : nat) (s : t) (i : string) :
  (l ∉ listeners s) /\ received l s = n ->
  (l ∉ listeners (disableEffect i s).2) /\ received l (disableEffect i s).2 = n.
Proof.
  intros Hs. unfold disableEffect, JsMap.delete.
  destruct (JsMap.has i (activeEffects s)); [|exact Hs].
  apply silent_notify, Hs.
Qed.

Lemma silent_conflicts (l : nat) (n : nat) (cs : list string) (s : t) :
  (l ∉ listeners s) /\ received l s = n ->
  (l ∉ listeners (disableConflicts cs s)) /\ received l (disableConflicts cs s) = n.
Proof.
  revert s. induction cs as [|c cs IH]; intros s Hs; [exact Hs|].
  rewrite disableConflicts_cons. apply IH.
  destruct (isEffectActive c s); [apply silent_disable|]; exact Hs.
Qed.

Lemma silent_enable (l : nat) (n : nat) (s : t) (i : string) (v : option Q) (now : Z) :
  (l ∉ listeners s) /\ received l s = n ->
  (l ∉ listeners (enableEffect i v now s).2) /\ received l (enableEffect i v now s).2 = n.
Proof.
  intros Hs. destruct (enableEffect_cases s i v now) as [->|(effect & _ & ->)];
    [exact Hs|].
  cbv zeta. cbn [snd]. apply silent_notify, silent_conflicts, Hs.
Qed.

Lemma silent_parameters (l : nat) (n : nat) (s : t) (i : string) (ps : bag) (now : Z) :
  (l ∉ listeners s) /\ received l s = n ->
  (l ∉ listeners (setEffectParameters i ps now s).2) /\
  received l (setEffectParameters i ps now s).2 = n.
Proof.
  intros Hs. unfold setEffectParameters.
  destruct (JsMap.get i (activeEffects s)); [|exact Hs].
  apply silent_notify, Hs.
Qed.

Lemma silent_global (l : nat) (n : nat) (s : t) (v : Q) :
  (l ∉ listeners s) /\ received l s = n ->
  (l ∉ listeners (setGlobalIntensity v s)) /\ received l (setGlobalIntensity v s) = n.
Proof.
  intros [H1 H2]. split; [exact H1|]. unfold setGlobalIntensity.
  rewrite received_notify_absent by exact H1. exact H2.
Qed.

Lemma silent_run_call (l : nat) (n : nat) (s : t) (c : call) :
  c ≠ AddListener l ->
  (l ∉ listeners s) /\ received l s = n ->
  (l ∉ listeners (run_call s c)) /\ received l (run_call s c) = n.
Proof.
  intros Hc Hs. destruct c; cbn [run_call].
  - apply silent_enable, Hs.
  - apply silent_disable, Hs.
  - unfold toggleEffect. destruct (isEffectActive effectId s);
      [apply silent_disable | apply silent_enable]; exact Hs.
  - unfold setEffectIntensity.
    destruct (JsMap.get effectId (activeEffects s)); [|exact Hs].
    apply silent_notify, Hs.
  - apply silent_parameters, Hs.
  - apply silent_global, Hs.
  - apply (P_enableAll (λ r, (l ∉ listeners r) /\ received l r = n));
      [intros; apply silent_enable; assumption | exact Hs].
  - apply silent_notify, Hs.
  - apply (P_enableAll (λ r, (l ∉ listeners r) /\ received l r = n));
      [intros; apply silent_enable; assumption|].
    apply silent_notify, Hs.
  - destruct Hs as [H1 H2]. split; [|exact H2]. cbn [addListener listeners].
    destruct (decide (listener ∈ listeners s)); [exact H1|].
    rewrite not_elem_of_app, not_elem_of_cons. repeat split; try assumption.
    + intros ->. apply Hc. reflexivity.
    + apply not_elem_of_nil.
  - destruct Hs as [H1 H2]. split; [|exact H2]. cbn [removeListener listeners].
    intros Hin. apply list_elem_of_filter in Hin. apply H1, Hin.
  - apply (P_import (λ r, (l ∉ listeners r) /\ received l r = n)).
    + intros. apply silent_enable. assumption.
    + intros. apply silent_parameters. assumption.
    + intros. apply silent_global. assumption.
    + intros. apply silent_notify. assumption.
    + exact Hs.
Qed.

(** X25.  A listener that has been removed is never called again:
    whatever calls follow [removeListener], as long as the listener is
    not added again, the number of calls it has received stays the
    same.  Adding a listener that is already registered changes
    nothing. *)
Theorem removed_listener_silent (s : t) (listener : nat) (cs : list call) :
  Forall (λ c, c ≠ AddListener listener) cs ->
  received listener (fold_left run_call cs (removeListener listener s))
  = received listener s /\
  (listener ∈ listeners s -> addListener listener s = s).
Proof.
  intros Hcs. split.
  - assert (H : (listener ∉ listeners (fold_left run_call cs (removeListener listener s)))
                /\ received listener (fold_left run_call cs (removeListener listener s))
                   = received listener s).
    { induction cs as [|c cs IH] using rev_ind.
      - split; [|reflexivity]. cbn [fold_left removeListener listeners].
        intros Hin. apply list_elem_of_filter in Hin. destruct Hin as [Hne _].
        apply Hne. reflexivity.
      - rewrite Forall_app in Hcs. destruct Hcs as [Hcs Hc].
        inversion Hc; subst.
        rewrite fold_left_app. cbn [fold_left]. apply silent_run_call; auto. }
    apply H.
  - intros Hin. unfold addListener. rewrite decide_True by assumption.
    destruct s; reflexivity.
Qed.

Lemma removed_listener_silent_witness :
  received 0 (fold_left run_call
                [EnableEffect "night" None 1; AddListener 7%nat; DisableAllEffects]
                (removeListener 0 daytime))
  = received 0 daytime.
Proof.
  apply (removed_listener_silent daytime 0
           [EnableEffect "night" None 1; AddListener 7%nat; DisableAllEffects]).
  repeat (constructor; [discriminate|]). constructor.
Defined.

(** X26.  In the built-in library the effect [audio_reactive] can
    never be enabled: it depends on [audio_context], which is not an
    effect of the library, so in every reachable manager it is inactive
    and [enableEffect] rejects it.  Every other effect of the library
    can be enabled in every reachable manager. *)
Theorem audio_reactive_unavailable (s : t) (effectId : string) (v : option Q) (now : Z) :
  reachable defaultEffects s ->
  isEffectActive "audio_reactive" s = false /\
  enableEffect "audio_reactive" v now s = (false, s) /\
  (effectId ∈ JsMap.keys (effects s) -> effectId ≠ "audio_reactive" ->
   (enableEffect effectId v now s).1 = true /\
   isEffectActive effectId (enableEffect effectId v now s).2 = true).
Proof.
  intros Hreach.
  pose proof (reachable_restorable _ _ defaultEffects_independent Hreach) as Hres.
  pose proof Hres as [Hcat Hactive]. fold new in Hres, Hcat, Hactive.
  assert (Hcontext : isEffectActive "audio_context" s = false)
    by (apply (restorable_inactive (effects new)); [exact Hres | reflexivity]).
  assert (Hreject : enableEffect "audio_reactive" v now s = (false, s)).
  { destruct (JsMap.get "audio_reactive" (effects new)) as [effect|] eqn:E;
      [|vm_compute in E; discriminate].
    apply (enableEffect_missing s "audio_reactive" v now effect
             ["audio_context"] "audio_context").
    - rewrite Hcat. exact E.
    - vm_compute in E. injection E as <-. reflexivity.
    - apply list_elem_of_here.
    - exact Hcontext. }
  split; [|split; [exact Hreject|]].
  - apply has_false.
    destruct (JsMap.get "audio_reactive" (activeEffects s)) as [st|] eqn:E;
      [|reflexivity].
    pose proof (Forall_get _ _ _ _ Hactive E) as (Hg & Hd & _). cbn [fst snd] in Hg, Hd.
    assert (Hentry : ∃ effect, JsMap.get "audio_reactive" (effects new) = Some effect /\
                               Effect.dependencies effect = Some ["audio_context"])
      by (eexists; split; reflexivity).
    destruct Hentry as (effect & He & Hdeps). rewrite He in Hg.
    injection Hg as ->. congruence.
  - intros Hin Hne.
    assert (Hget : ∃ effect, JsMap.get effectId (effects s) = Some effect).
    { destruct (JsMap.get effectId (effects s)) as [effect|] eqn:E; [eauto|].
      apply get_None in E. contradiction. }
    destruct Hget as [effect Hget].
    assert (Hdeps : Effect.dependencies effect = None).
    { rewrite Hcat in Hget. apply get_Some_elem in Hget.
      assert (Hall : Forall (λ p : string * Effect.t,
                               p.1 = "audio_reactive" \/ Effect.dependencies p.2 = None)
                       (effects new)).
      { repeat (apply List.Forall_cons; [first [right; reflexivity | left; reflexivity]|]).
        apply List.Forall_nil. }
      rewrite Forall_forall in Hall. destruct (Hall _ Hget) as [H|H]; [contradiction|].
      exact H. }
    rewrite (enableEffect_accepts s effectId v now effect Hget)
      by (intros deps Hd; congruence).
    cbv zeta. cbn [fst snd]. split; [reflexivity|].
    apply has_get. cbn [activeEffects notifyListeners setActive].
    rewrite get_set_eq. eauto.
Qed.

Lemma audio_reactive_unavailable_witness :
  reachable defaultEffects busy /\
  enableEffect "audio_reactive" None 9 busy = (false, busy) /\
  "liquid" ∈ JsMap.keys (effects busy) /\
  isEffectActive "liquid" (enableEffect "liquid" None 9 busy).2 = true.
Proof.
  assert (Hin : "liquid" ∈ JsMap.keys (effects busy))
    by (apply list_elem_of_In; vm_compute; tauto).
  split; [exact busy_reachable|].
  destruct (audio_reactive_unavailable busy "liquid" None 9 busy_reachable)
    as (_ & H2 & H3).
  split; [exact H2|]. split; [exact Hin|].
  apply H3; [exact Hin | discriminate].
Defined.

End ListenerFacts.

(** ** SceneManager: the registry of scene objects *)

Section SceneObjectFacts.

Import SceneManager.

Context {A : Type} (priorityOf : A -> Q).

Lemma insertByPriority_perm (x : A) (l : list A) :
  insertByPriority priorityOf x l ≡ₚ x :: l.
Proof.
  induction l as [|y l IH]; [reflexivity|]. cbn [insertByPriority].
  destruct (Qltb (priorityOf x) (priorityOf y)); [|reflexivity].
  rewrite IH. apply Permutation_swap.
Qed.

Lemma sortByPriority_perm (l : list A) : sortByPriority priorityOf l ≡ₚ l.
Proof.
  unfold sortByPriority. induction l as [|x l IH]; [reflexivity|].
  cbn [foldr]. rewrite insertByPriority_perm, IH. reflexivity.
Qed.

Lemma insertByPriority_sorted (x : A) (l : list A) :
  StronglySorted (λ a b, priorityOf b <= priorityOf a) l ->
  StronglySorted (λ a b, priorityOf b <= priorityOf a) (insertByPriority priorityOf x l).
Proof.
  induction 1 as [|y l Hs IH Hy]; cbn [insertByPriority].
  - repeat constructor.
  - destruct (Qltb (priorityOf x) (priorityOf y)) eqn:E.
    + apply Qltb_lt in E. constructor; [exact IH|].
      rewrite insertByPriority_perm. constructor; [lra | exact Hy].
    + apply Qltb_ge in E. constructor; [constructor; assumption|].
      constructor; [exact E|].
      eapply Forall_impl; [exact Hy|]. cbn beta. intros z Hz. lra.
Qed.

Lemma sortByPriority_sorted (l : list A) :
  StronglySorted (λ a b, priorityOf b <= priorityOf a) (sortByPriority priorityOf l).
Proof.
  unfold sortByPriority. induction l as [|x l IH]; [constructor|].
  cbn [foldr]. apply insertByPriority_sorted, IH.
Qed.

End SceneObjectFacts.

Section SceneRegistry.

Import SceneManager.

Lemma set_fresh {V} (k : string) (v : V) (m : JsMap.t V) :
  k ∉ JsMap.keys m -> JsMap.set k v m = m ++ [(k, v)].
Proof.
  unfold JsMap.keys. induction m as [|[k0 v0] m IH]; intros Hk; [reflexivity|].
  cbn [fmap list_fmap fst] in Hk. rewrite not_elem_of_cons in Hk.
  destruct Hk as [Hne Hk]. cbn [JsMap.set app].
  rewrite decide_False by assumption. f_equal. apply IH, Hk.
Qed.

Lemma refill {V} (l acc : JsMap.t V) :
  NoDup (JsMap.keys (acc ++ l)) ->
  fold_left (λ m entry, JsMap.set entry.1 entry.2 m) l acc = acc ++ l.
Proof.
  revert acc. induction l as [|[k v] l IH]; intros acc Hnd.
  - rewrite app_nil_r. reflexivity.
  - cbn [fold_left fst snd].
    assert (Hk : k ∉ JsMap.keys acc).
    { unfold JsMap.keys in *. rewrite fmap_app in Hnd. apply NoDup_app in Hnd.
      destruct Hnd as (_ & Hdisj & _). intros Hin. apply (Hdisj k Hin).
      apply list_elem_of_here. }
    rewrite (set_fresh k v acc Hk), IH; rewrite <- app_assoc; [reflexivity|exact Hnd].
Qed.

Lemma get_perm {V} (k : string) (m m' : JsMap.t V) :
  NoDup (JsMap.keys m) -> m ≡ₚ m' -> JsMap.get k m' = JsMap.get k m.
Proof.
  intros Hnd Hperm.
  assert (Hnd' : NoDup (JsMap.keys m')).
  { unfold JsMap.keys in *. rewrite <- Hperm. exact Hnd. }
  destruct (JsMap.get k m) as [v|] eqn:E.
  - apply get_Some_elem in E. rewrite Hperm in E. apply elem_get; assumption.
  - apply get_None in E. apply get_None. unfold JsMap.keys in *.
    rewrite <- Hperm. exact E.
Qed.

Lemma sortSceneObjects_objects (s : t) :
  NoDup (JsMap.keys (sceneObjects s)) ->
  sceneObjects (sortSceneObjects s)
  = sortByPriority (λ entry : string * SceneObject, priority entry.2) (sceneObjects s).
Proof.
  intros Hnd. unfold sortSceneObjects. cbn [sceneObjects setObjects].
  apply (refill _ []). cbn [app]. unfold JsMap.keys in *.
  rewrite sortByPriority_perm. exact Hnd.
Qed.

(** X27.  In a registry without duplicate ids, [addSceneObject] stores
    the object under its id as an active scene object with the given
    priority (5 when absent), replacing an object of the same id,
    leaves every other object as it is, hands the object to the scene,
    and leaves the registry without duplicates and in descending order
    of priority. *)
Theorem addSceneObject_ordered (i : string) (o : Object3D) (ty : objectType)
    (p : option Q) (now : Z) (s : t) :
  NoDup (JsMap.keys (sceneObjects s)) ->
  ordered (sceneObjects (addSceneObject i o ty p now s)) /\
  getSceneObject i (addSceneObject i o ty p now s)
  = Some {| id := i; object := o; type := ty; priority := default 5 p;
            active := true; lastUpdate := now |} /\
  (∀ j, j ≠ i ->
     getSceneObject j (addSceneObject i o ty p now s) = getSceneObject j s) /\
  last (calls (addSceneObject i o ty p now s)) = Some (SceneAdd (handle o)).
Proof.
  intros Hnd. unfold addSceneObject, getSceneObject.
  set (s1 := if JsMap.has i (sceneObjects s) then (removeSceneObject i s).2 else s).
  assert (H1 : NoDup (JsMap.keys (sceneObjects s1)) /\
               ∀ j, j ≠ i -> JsMap.get j (sceneObjects s1) = JsMap.get j (sceneObjects s)).
  { subst s1. destruct (JsMap.has i (sceneObjects s)) eqn:E; [|split; auto].
    unfold removeSceneObject. destruct (JsMap.get i (sceneObjects s)); [|split; auto].
    cbn [snd sceneObjects]. split; [apply NoDup_remove, Hnd|].
    intros j Hj. rewrite get_remove, decide_False by assumption. reflexivity. }
  destruct H1 as [Hnd1 Hother]. clearbody s1.
  set (entry := {| id := i; object := o; type := ty; priority := default 5 p;
                   active := true; lastUpdate := now |}).
  set (s2 := log [SceneAdd (handle o)]
               (setObjects (JsMap.set i entry (sceneObjects s1)) s1)).
  assert (Hnd2 : NoDup (JsMap.keys (sceneObjects s2))) by apply NoDup_set, Hnd1.
  rewrite (sortSceneObjects_objects s2 Hnd2).
  pose proof (sortByPriority_perm (λ e : string * SceneObject, priority e.2)
                (sceneObjects s2)) as Hperm.
  split; [|split; [|split]].
  - split.
    + unfold JsMap.keys in *. rewrite Hperm. exact Hnd2.
    + apply sortByPriority_sorted.
  - rewrite (get_perm i _ _ Hnd2) by (symmetry; exact Hperm).
    apply get_set_eq.
  - intros j Hj. rewrite (get_perm j _ _ Hnd2) by (symmetry; exact Hperm).
    cbn [s2 sceneObjects log setObjects].
    rewrite get_set, decide_False by assumption. apply Hother, Hj.
  - cbn [calls sortSceneObjects setObjects log]. apply last_snoc.
Qed.

Lemma addSceneObject_ordered_witness :
  NoDup (JsMap.keys (sceneObjects (new 0))) /\
  ordered (sceneObjects (addSceneObject "sparks" sparks particle_system None 1 (new 0))) /\
  JsMap.keys (sceneObjects stage)
  = ["ambient_light"; "mesh"; "directional_light"; "sparks"].
Proof.
  assert (Hnd : NoDup (JsMap.keys (sceneObjects (new 0))))
    by (vm_compute; repeat (constructor; [rewrite ?not_elem_of_cons; repeat split;
          first [discriminate | apply not_elem_of_nil]|]); constructor).
  split; [exact Hnd|].
  destruct (addSceneObject_ordered "sparks" sparks particle_system None 1 (new 0) Hnd)
    as (H1 & _).
  split; [exact H1 | reflexivity].
Defined.

(** X28.  [removeSceneObject] on an unknown id returns false and
    changes nothing.  On a known id it returns true, removes the
    object and its update callback and nothing else, and has the
    object removed from the scene and disposed of. *)
Theorem removeSceneObject_spec (i : string) (s : t) :
  (getSceneObject i s = None -> removeSceneObject i s = (false, s)) /\
  (∀ sceneObject, getSceneObject i s = Some sceneObject ->
     (removeSceneObject i s).1 = true /\
     getSceneObject i (removeSceneObject i s).2 = None /\
     JsMap.get i (updateCallbacks (removeSceneObject i s).2) = None /\
     (∀ j, j ≠ i ->
        getSceneObject j (removeSceneObject i s).2 = getSceneObject j s /\
        JsMap.get j (updateCallbacks (removeSceneObject i s).2)
        = JsMap.get j (updateCallbacks s)) /\
     calls (removeSceneObject i s).2
     = calls s ++ [SceneRemove (handle (object sceneObject));
                   Dispose (handle (object sceneObject))]).
Proof.
  unfold getSceneObject, removeSceneObject. split; [intros ->; reflexivity|].
  intros sceneObject ->. cbn [fst snd sceneObjects updateCallbacks calls].
  split; [reflexivity|].
  split; [rewrite get_remove, decide_True; reflexivity|].
  split; [rewrite get_remove, decide_True; reflexivity|].
  split; [|reflexivity].
  intros j Hj. rewrite !get_remove, !decide_False by assumption. split; reflexivity.
Qed.

Lemma removeSceneObject_spec_witness :
  removeSceneObject "fountain" stage = (false, stage) /\
  getSceneObject "sparks" (removeSceneObject "sparks" stage).2 = None /\
  JsMap.get "sparks" (updateCallbacks (removeSceneObject "sparks" stage).2) = None.
Proof.
  destruct (removeSceneObject_spec "fountain" stage) as [H1 _].
  destruct (removeSceneObject_spec "sparks" stage) as [_ H2].
  destruct (getSceneObject "sparks" stage) as [o|] eqn:E;
    [|vm_compute in E; discriminate].
  destruct (H2 o eq_refl) as (_ & H3 & H4 & _).
  split; [apply H1; reflexivity|]. split; assumption.
Defined.

End SceneRegistry.

(** ** SceneManager: the per-frame update *)

Section SceneUpdate.

Import SceneManager.

Lemma updateSceneObject_fields (deltaTime : Q) (now : Z) (s : t)
    (sceneObject : SceneObject) :
  calls (updateSceneObject deltaTime now s sceneObject)
  = calls s ++ match JsMap.get (id sceneObject) (updateCallbacks s) with
               | Some callback => [Callback callback deltaTime]
               | None => []
               end /\
  updateCallbacks (updateSceneObject deltaTime now s sceneObject) = updateCallbacks s /\
  sceneObjects (updateSceneObject deltaTime now s sceneObject)
  = JsMap.set (id sceneObject) (touch now sceneObject) (sceneObjects s).
Proof.
  unfold updateSceneObject. cbv zeta. cbn [updateCallbacks setObjects].
  destruct (JsMap.get (id sceneObject) (updateCallbacks s)).
  - repeat split.
  - cbn [calls setObjects]. rewrite app_nil_r. repeat split.
Qed.

Lemma updateSceneObjects_fold (deltaTime : Q) (now : Z) (l : list SceneObject) (s : t) :
  calls (fold_left (updateSceneObject deltaTime now) l s)
  = calls s ++ omap (λ sceneObject,
                       (λ callback, Callback callback deltaTime)
                         <$> JsMap.get (id sceneObject) (updateCallbacks s)) l /\
  updateCallbacks (fold_left (updateSceneObject deltaTime now) l s) = updateCallbacks s /\
  sceneObjects (fold_left (updateSceneObject deltaTime now) l s)
  = fold_left (λ objects sceneObject,
                 JsMap.set (id sceneObject) (touch now sceneObject) objects)
      l (sceneObjects s).
Proof.
  revert s. induction l as [|o l IH]; intros s.
  - cbn [fold_left omap list_omap]. rewrite app_nil_r. repeat split.
  - cbn [fold_left].
    destruct (updateSceneObject_fields deltaTime now s o) as (H1 & H2 & H3).
    destruct (IH (updateSceneObject deltaTime now s o)) as (I1 & I2 & I3).
    rewrite I1, I2, I3, H1, H2, H3. split; [|split; reflexivity].
    rewrite <- app_assoc. f_equal.
    change (omap ?f (o :: l)) with
      (match f o with Some y => y :: omap f l | None => omap f l end).
    cbv beta. destruct (JsMap.get (id o) (updateCallbacks s)); reflexivity.
Qed.

Lemma touched_get (now : Z) (i : string) (l : list SceneObject)
    (objects : JsMap.t SceneObject) :
  NoDup (id <$> l) ->
  (∀ sceneObject, sceneObject ∈ l ->
     JsMap.get (id sceneObject) objects = Some sceneObject) ->
  JsMap.get i
    (fold_left (λ objects sceneObject,
                  JsMap.set (id sceneObject) (touch now sceneObject) objects) l objects)
  = if decide (i ∈ id <$> l) then touch now <$> JsMap.get i objects
    else JsMap.get i objects.
Proof.
  revert objects. induction l as [|o l IH]; intros objects Hnd Hl.
  - cbn [fold_left fmap list_fmap]. rewrite decide_False by apply not_elem_of_nil.
    reflexivity.
  - rewrite fmap_cons in Hnd. apply NoDup_cons in Hnd. destruct Hnd as [Ho Hnd].
    cbn [fold_left]. rewrite IH; [|exact Hnd|].
    + rewrite get_set, fmap_cons. destruct (decide (i = id o)) as [->|Hne].
      * rewrite (decide_False (P := id o ∈ id <$> l)) by exact Ho.
        rewrite decide_True by apply list_elem_of_here.
        rewrite (Hl o) by apply list_elem_of_here. reflexivity.
      * destruct (decide (i ∈ id <$> l)) as [Hin|Hin].
        -- rewrite decide_True by (apply list_elem_of_further, Hin). reflexivity.
        -- rewrite decide_False; [reflexivity|].
           rewrite elem_of_cons. intros [?|?]; contradiction.
    + intros o' Ho'. rewrite get_set, decide_False.
      * apply Hl, list_elem_of_further, Ho'.
      * intros Heq. apply Ho. rewrite <- Heq. apply list_elem_of_fmap_2, Ho'.
Qed.

Lemma filter_sublist {A} (f : A -> bool) (l : list A) : List.filter f l `sublist_of` l.
Proof.
  induction l as [|x l IH]; [constructor|].
  cbn [List.filter]. destruct (f x); constructor; exact IH.
Qed.

Lemma registered_ids (objects : JsMap.t SceneObject) :
  Forall (λ entry : string * SceneObject, id entry.2 = entry.1) objects ->
  id <$> JsMap.values objects = JsMap.keys objects.
Proof.
  unfold JsMap.values, JsMap.keys. induction 1 as [|[k o] m Hk _ IH]; [reflexivity|].
  rewrite !fmap_cons. cbn [fst snd] in *. rewrite Hk, IH. reflexivity.
Qed.

Lemma registered_value (objects : JsMap.t SceneObject) (sceneObject : SceneObject) :
  registered objects -> sceneObject ∈ JsMap.values objects ->
  JsMap.get (id sceneObject) objects = Some sceneObject.
Proof.
  intros [Hnd Hids] Hin. unfold JsMap.values in Hin.
  apply list_elem_of_fmap in Hin. destruct Hin as ([k o] & -> & Hin).
  rewrite Forall_forall in Hids. rewrite (Hids _ Hin).
  apply elem_get; assumption.
Qed.

Lemma updateOrder_elem (sceneObject : SceneObject) (s : t) :
  sceneObject ∈ updateOrder s ↔
  sceneObject ∈ getAllSceneObjects s /\ active sceneObject = true.
Proof.
  unfold updateOrder. rewrite sortByPriority_perm.
  rewrite !list_elem_of_In. apply filter_In.
Qed.

Lemma updateOrder_NoDup (s : t) :
  registered (sceneObjects s) -> NoDup (id <$> updateOrder s).
Proof.
  intros [Hnd Hids]. unfold updateOrder. rewrite sortByPriority_perm.
  eapply sublist_NoDup; [|apply fmap_sublist, filter_sublist].
  unfold getAllSceneObjects. rewrite registered_ids by exact Hids. exact Hnd.
Qed.

Lemma addSceneObject_sorted (i : string) (o : Object3D) (ty : objectType)
    (p : option Q) (now : Z) (s : t) :
  NoDup (JsMap.keys (sceneObjects s)) ->
  NoDup (JsMap.keys (sceneObjects (addSceneObject i o ty p now s))) /\
  sceneObjects (addSceneObject i o ty p now s)
  ≡ₚ JsMap.set i
       {| id := i; object := o; type := ty; priority := default 5 p; active := true;
          lastUpdate := now |}
       (sceneObjects (if JsMap.has i (sceneObjects s)
                      then (removeSceneObject i s).2 else s)).
Proof.
  intros Hnd. unfold addSceneObject. cbv zeta.
  set (s1 := if JsMap.has i (sceneObjects s) then (removeSceneObject i s).2 else s).
  assert (Hnd1 : NoDup (JsMap.keys (sceneObjects s1))).
  { subst s1. destruct (JsMap.has i (sceneObjects s)); [|exact Hnd].
    unfold removeSceneObject. destruct (JsMap.get i (sceneObjects s)); [|exact Hnd].
    cbn [snd sceneObjects]. apply NoDup_remove, Hnd. }
  clearbody s1.
  match goal with |- context [sortSceneObjects ?s0] => set (s2 := s0) end.
  assert (Hnd2 : NoDup (JsMap.keys (sceneObjects s2))) by apply NoDup_set, Hnd1.
  rewrite (sortSceneObjects_objects s2 Hnd2).
  pose proof (sortByPriority_perm (λ e : string * SceneObject, priority e.2)
                (sceneObjects s2)) as Hperm.
  split; [|exact Hperm]. unfold JsMap.keys in *. rewrite Hperm. exact Hnd2.
Qed.

Lemma addSceneObject_registered (i : string) (o : Object3D) (ty : objectType)
    (p : option Q) (now : Z) (s : t) :
  registered (sceneObjects s) ->
  registered (sceneObjects (addSceneObject i o ty p now s)).
Proof.
  intros [Hnd Hids].
  destruct (addSceneObject_sorted i o ty p now s Hnd) as (Hnd' & Hperm).
  split; [exact Hnd'|]. rewrite Hperm. apply Forall_set; [|reflexivity].
  destruct (JsMap.has i (sceneObjects s)); [|exact Hids].
  unfold removeSceneObject. destruct (JsMap.get i (sceneObjects s)); [|exact Hids].
  cbn [snd sceneObjects]. apply Forall_remove, Hids.
Qed.

(** X29.  [updateSceneObjects] visits exactly the active scene
    objects, in descending order of priority: it calls the update
    callback registered under the id of each visited object, in that
    order and with the frame's delta time, and sets [lastUpdate] on the
    visited objects only.  It registers and removes nothing. *)
Theorem updateSceneObjects_order (deltaTime : Q) (now : Z) (s : t) :
  registered (sceneObjects s) ->
  calls (updateSceneObjects deltaTime now s)
  = calls s ++ omap (λ sceneObject,
                       (λ callback, Callback callback deltaTime)
                         <$> JsMap.get (id sceneObject) (updateCallbacks s))
                    (updateOrder s) /\
  updateOrder s ≡ₚ List.filter active (getAllSceneObjects s) /\
  StronglySorted (λ a b, priority b <= priority a) (updateOrder s) /\
  updateCallbacks (updateSceneObjects deltaTime now s) = updateCallbacks s /\
  (∀ i, getSceneObject i (updateSceneObjects deltaTime now s)
        = (λ sceneObject,
             if active sceneObject then touch now sceneObject else sceneObject)
            <$> getSceneObject i s).
Proof.
  intros Hreg. unfold updateSceneObjects.
  destruct (updateSceneObjects_fold deltaTime now (updateOrder s) s) as (H1 & H2 & H3).
  split; [exact H1|]. split; [apply sortByPriority_perm|].
  split; [apply sortByPriority_sorted|]. split; [exact H2|].
  intros i. unfold getSceneObject. rewrite H3, touched_get.
  - destruct (decide (i ∈ id <$> updateOrder s)) as [Hin|Hin].
    + apply list_elem_of_fmap in Hin. destruct Hin as (o & -> & Ho).
      apply updateOrder_elem in Ho. destruct Ho as [Ho Hactive].
      rewrite (registered_value _ _ Hreg Ho). cbn [fmap option_fmap option_map].
      rewrite Hactive. reflexivity.
    + destruct (JsMap.get i (sceneObjects s)) as [o|] eqn:E; [|reflexivity].
      cbn [fmap option_fmap option_map]. destruct (active o) eqn:Hactive; [|reflexivity].
      exfalso. apply Hin. destruct Hreg as [Hnd Hids].
      pose proof (Forall_get _ _ _ _ Hids E) as Hid. cbn [fst snd] in Hid.
      rewrite <- Hid. apply list_elem_of_fmap_2, updateOrder_elem. split; [|exact Hactive].
      unfold getAllSceneObjects, JsMap.values.
      apply (list_elem_of_fmap_2' snd _ (i, o)); [|reflexivity].
      apply get_Some_elem, E.
  - apply updateOrder_NoDup, Hreg.
  - intros o Ho. apply updateOrder_elem in Ho. destruct Ho as [Ho _].
    apply registered_value; assumption.
Qed.

Lemma updateSceneObjects_order_witness :
  registered (sceneObjects stage) /\
  calls (updateSceneObjects (1 / 60) 5 stage)
  = calls stage ++ [Callback 2 (1 / 60); Callback 1 (1 / 60)] /\
  lastUpdate <$> getSceneObject "sparks" (updateSceneObjects (1 / 60) 5 stage) = Some 5%Z.
Proof.
  assert (Hreg : registered (sceneObjects stage)).
  { split; vm_compute.
    - repeat (constructor; [rewrite ?not_elem_of_cons; repeat split;
        first [discriminate | apply not_elem_of_nil]|]); constructor.
    - repeat constructor. }
  split; [exact Hreg|].
  destruct (updateSceneObjects_order (1 / 60) 5 stage Hreg) as (H1 & _ & _ & _ & H2).
  split; [rewrite H1; reflexivity|]. rewrite H2. reflexivity.
Defined.

End SceneUpdate.

(** ** SceneManager: the performance optimizations *)

Section ScenePerformance.

Import SceneManager.

Lemma disableConflicts_active (cs : list string) (s : EffectManager.t) :
  EffectManager.activeEffects (EffectManager.disableConflicts cs s)
  = filter (λ p, p.1 ∉ cs) (EffectManager.activeEffects s).
Proof.
  revert s. induction cs as [|c cs IH]; intros s.
  - change (EffectManager.disableConflicts [] s) with s. symmetry. apply filter_none.
  - rewrite disableConflicts_cons.
    destruct (EffectManager.isEffectActive c s) eqn:E; rewrite IH.
    + unfold EffectManager.disableEffect, JsMap.delete.
      unfold EffectManager.isEffectActive in E. rewrite E. cbn [snd].
      cbn [EffectManager.activeEffects EffectManager.notifyListeners
           EffectManager.setActive].
      apply remove_filter.
    + destruct (inactive_filter c cs _ E) as [-> _]. reflexivity.
Qed.

Lemma optimizations_optimizer (s : t) :
  performanceOptimizer (applyPerformanceOptimizations s) = performanceOptimizer s.
Proof.
  unfold applyPerformanceOptimizations, getSceneObject. cbv zeta.
  destruct (Qltb _ 0.5), (Qltb _ 0.3); try reflexivity;
    destruct (JsMap.get "directional_light" (sceneObjects s)); reflexivity.
Qed.

Lemma optimizations_unchanged (s : t) :
  0.5 <= PerformanceOptimizer.getPerformanceLevel (performanceOptimizer s) ->
  applyPerformanceOptimizations s = s.
Proof.
  intros H. unfold applyPerformanceOptimizations. cbv zeta.
  assert (H5 : Qltb (PerformanceOptimizer.getPerformanceLevel (performanceOptimizer s)) 0.5
               = false) by (apply Qltb_ge, H).
  assert (H3 : Qltb (PerformanceOptimizer.getPerformanceLevel (performanceOptimizer s)) 0.3
               = false) by (apply Qltb_ge; lra).
  rewrite H5, H3. reflexivity.
Qed.

Lemma optimizations_effects (effectId : string) (s : t) :
  PerformanceOptimizer.getPerformanceLevel (performanceOptimizer s) < 0.3 ->
  JsMap.get effectId
    (EffectManager.activeEffects (effectManager (applyPerformanceOptimizations s)))
  = if decide (effectId ∈ expensiveEffects) then None
    else JsMap.get effectId (EffectManager.activeEffects (effectManager s)).
Proof.
  intros H. unfold applyPerformanceOptimizations. cbv zeta.
  assert (H3 : Qltb (PerformanceOptimizer.getPerformanceLevel (performanceOptimizer s)) 0.3
               = true) by (apply Qltb_lt, H).
  rewrite H3. cbn [effectManager setEffectManager].
  match goal with |- context [fold_left _ expensiveEffects ?m] =>
    change (fold_left _ expensiveEffects m)
      with (EffectManager.disableConflicts expensiveEffects m) end.
  rewrite disableConflicts_active, get_filter_conflicts.
  unfold getSceneObject.
  destruct (Qltb _ 0.5); [|reflexivity].
  destruct (JsMap.get "directional_light" (sceneObjects s)); reflexivity.
Qed.

Lemma get_updateObject (i : string) (h : nat) (f : Object3D -> Object3D)
    (objects : JsMap.t SceneObject) :
  JsMap.get i (updateObject h f objects) = changed h f <$> JsMap.get i objects.
Proof.
  unfold updateObject. induction objects as [|[k v] m IH]; [reflexivity|].
  cbn [map fst snd JsMap.get]. destruct (decide (i = k)); [reflexivity | exact IH].
Qed.

Lemma changed_kept (h : nat) (f : Object3D -> Object3D) (sceneObject : SceneObject) :
  (∀ o, handle (f o) = handle o) ->
  handle (object (changed h f sceneObject)) = handle (object sceneObject) /\
  type (changed h f sceneObject) = type sceneObject.
Proof.
  intros Hf. unfold changed.
  destruct (decide (handle (object sceneObject) = h)); cbn [object type]; auto.
Qed.

Lemma handles_updateObject (h : nat) (f : Object3D -> Object3D)
    (objects : JsMap.t SceneObject) :
  (∀ o, handle (f o) = handle o) ->
  handles (updateObject h f objects) = handles objects.
Proof.
  intros Hf. unfold handles, updateObject.
  induction objects as [|[k v] m IH]; [reflexivity|].
  cbn [map]. rewrite !fmap_cons. cbn [fst snd].
  rewrite (proj1 (changed_kept h f v Hf)), IH. reflexivity.
Qed.

Lemma halveParticles_handle (o : Object3D) : handle (halveParticles o) = handle o.
Proof.
  unfold halveParticles. destruct (particleCount o) as [count|]; [|reflexivity].
  destruct (Qeq_bool count 0); reflexivity.
Qed.

Lemma reduceShadow_handle (o : Object3D) : handle (reduceShadow o) = handle o.
Proof. unfold reduceShadow. destruct (shadowMapSize o); reflexivity. Qed.

Lemma halveParticles_count (o : Object3D) (count : Q) :
  particleCount o = Some count ->
  ∃ count', particleCount (halveParticles o) = Some count' /\ count' == count * 0.5.
Proof.
  intros H. unfold halveParticles. rewrite H.
  destruct (Qeq_bool count 0) eqn:E.
  - apply Qeq_bool_eq in E. exists count. split; [exact H|]. rewrite E. reflexivity.
  - eexists. split; reflexivity.
Qed.

(** The loop over the particle systems: an object that is held by one
    of them is halved once for every particle system that holds it. *)
Lemma halved_get (i : string) (l : list SceneObject) (objects : JsMap.t SceneObject) :
  NoDup ((λ obj, handle (object obj)) <$> l) ->
  JsMap.get i
    (fold_left
       (λ objects obj, updateObject (handle (object obj)) halveParticles objects)
       l objects)
  = (λ sceneObject,
       if decide (handle (object sceneObject) ∈ (λ obj, handle (object obj)) <$> l)
       then changed (handle (object sceneObject)) halveParticles sceneObject
       else sceneObject) <$> JsMap.get i objects.
Proof.
  revert objects. induction l as [|o l IH]; intros objects Hnd.
  - cbn [fold_left]. destruct (JsMap.get i objects); reflexivity.
  - rewrite fmap_cons in Hnd. apply NoDup_cons in Hnd. destruct Hnd as [Ho Hnd].
    cbn [fold_left]. rewrite IH by exact Hnd. rewrite get_updateObject.
    destruct (JsMap.get i objects) as [x|]; [|reflexivity].
    cbn [fmap option_fmap option_map]. f_equal. rewrite fmap_cons.
    destruct (changed_kept (handle (object o)) halveParticles x halveParticles_handle)
      as [Hh _].
    rewrite Hh.
    destruct (decide (handle (object x) = handle (object o))) as [Heq|Hne].
    + rewrite (decide_False (P := handle (object x) ∈ _ <$> l))
        by (rewrite Heq; exact Ho).
      rewrite (decide_True (P := handle (object x) ∈ _ :: _))
        by (rewrite Heq; apply list_elem_of_here).
      rewrite Heq. reflexivity.
    + assert (Hx : changed (handle (object o)) halveParticles x = x)
        by (unfold changed; rewrite decide_False by exact Hne; reflexivity).
      rewrite Hx.
      destruct (decide (handle (object x) ∈ (λ obj, handle (object obj)) <$> l))
        as [Hin|Hin].
      * rewrite decide_True by (apply list_elem_of_further, Hin). reflexivity.
      * rewrite decide_False; [reflexivity|].
        rewrite elem_of_cons. intros [?|?]; contradiction.
Qed.

Lemma handles_values (objects : JsMap.t SceneObject) :
  handles objects = (λ obj, handle (object obj)) <$> JsMap.values objects.
Proof.
  unfold handles, JsMap.values. induction objects as [|[k v] m IH]; [reflexivity|].
  rewrite !fmap_cons, IH. reflexivity.
Qed.

Lemma handles_halved (l : list SceneObject) (objects : JsMap.t SceneObject) :
  handles
    (fold_left
       (λ objects obj, updateObject (handle (object obj)) halveParticles objects)
       l objects)
  = handles objects.
Proof.
  revert objects. induction l as [|o l IH]; intros objects; [reflexivity|].
  cbn [fold_left]. rewrite IH. apply handles_updateObject, halveParticles_handle.
Qed.

(** The registry after the shadow of the directional light was
    reduced. *)
Lemma lit_objects (s : t) :
  ∃ lit,
    sceneObjects
      match getSceneObject "directional_light" s with
      | Some directionalLight =>
          setObjects
            (updateObject (handle (object directionalLight)) reduceShadow
               (sceneObjects s)) s
      | None => s
      end = lit /\
    handles lit = handles (sceneObjects s) /\
    ∀ i sceneObject,
      JsMap.get i (sceneObjects s) = Some sceneObject ->
      ∃ sceneObject',
        JsMap.get i lit = Some sceneObject' /\
        type sceneObject' = type sceneObject /\
        handle (object sceneObject') = handle (object sceneObject) /\
        particleCount (object sceneObject') = particleCount (object sceneObject).
Proof.
  eexists. split; [reflexivity|].
  destruct (getSceneObject "directional_light" s) as [d|]; cbn [sceneObjects setObjects].
  - split; [apply handles_updateObject, reduceShadow_handle|].
    intros i so Hget. rewrite get_updateObject, Hget. eexists. split; [reflexivity|].
    unfold changed. destruct (decide (handle (object so) = handle (object d)));
      cbn [type object]; [|auto].
    unfold reduceShadow. destruct (shadowMapSize (object so)); auto.
  - split; [reflexivity|]. intros i so Hget. exists so. auto.
Qed.

Lemma optimizations_objects (s : t) :
  PerformanceOptimizer.getPerformanceLevel (performanceOptimizer s) < 0.5 ->
  sceneObjects (applyPerformanceOptimizations s)
  = let lit :=
      match getSceneObject "directional_light" s with
      | Some directionalLight =>
          setObjects
            (updateObject (handle (object directionalLight)) reduceShadow
               (sceneObjects s)) s
      | None => s
      end in
    fold_left
      (λ objects obj, updateObject (handle (object obj)) halveParticles objects)
      (getSceneObjectsByType particle_system lit) (sceneObjects lit).
Proof.
  intros H. unfold applyPerformanceOptimizations. cbv zeta.
  assert (H5 : Qltb (PerformanceOptimizer.getPerformanceLevel (performanceOptimizer s)) 0.5
               = true) by (apply Qltb_lt, H).
  rewrite H5. destruct (Qltb _ 0.3); reflexivity.
Qed.

Lemma optimizations_handles (s : t) :
  handles (sceneObjects (applyPerformanceOptimizations s)) = handles (sceneObjects s).
Proof.
  destruct (Qlt_le_dec
              (PerformanceOptimizer.getPerformanceLevel (performanceOptimizer s)) 0.5)
    as [H|H].
  - rewrite (optimizations_objects s H). cbv zeta. rewrite handles_halved.
    destruct (lit_objects s) as (lit & -> & Hh & _). exact Hh.
  - rewrite (optimizations_unchanged s H). reflexivity.
Qed.

Lemma optimizations_particles (i : string) (sceneObject : SceneObject) (count : Q)
    (s : t) :
  PerformanceOptimizer.getPerformanceLevel (performanceOptimizer s) < 0.5 ->
  unshared (sceneObjects s) ->
  getSceneObject i s = Some sceneObject ->
  type sceneObject = particle_system ->
  particleCount (object sceneObject) = Some count ->
  ∃ sceneObject' count',
    getSceneObject i (applyPerformanceOptimizations s) = Some sceneObject' /\
    type sceneObject' = particle_system /\
    particleCount (object sceneObject') = Some count' /\
    count' == count * 0.5.
Proof.
  unfold getSceneObject at 1 2, unshared. intros H Hnd Hget Hty Hcount.
  rewrite (optimizations_objects s H). cbv zeta.
  unfold getSceneObjectsByType, getAllSceneObjects.
  destruct (lit_objects s) as (lit & -> & Hh & Hlit).
  destruct (Hlit i sceneObject Hget) as (o1 & Ho1 & Hty1 & Hh1 & Hc1).
  rewrite halved_get.
  - rewrite Ho1. cbn [fmap option_fmap option_map].
    rewrite decide_True.
    + destruct (halveParticles_count (object o1) count) as (count' & Hc & Heq);
        [congruence|].
      eexists; exists count'. split; [reflexivity|].
      unfold changed. rewrite decide_True by reflexivity. cbn [type object].
      split; [congruence|]. split; assumption.
    + apply (list_elem_of_fmap_2 (λ obj, handle (object obj))).
      apply list_elem_of_In, filter_In. split.
      * apply list_elem_of_In. unfold JsMap.values.
        apply (list_elem_of_fmap_2' snd _ (i, o1)); [|reflexivity].
        apply get_Some_elem, Ho1.
      * rewrite Hty1, Hty. reflexivity.
  - eapply sublist_NoDup; [|apply fmap_sublist, filter_sublist].
    rewrite <- handles_values, Hh. exact Hnd.
Qed.

Lemma iterated_optimizer (n : nat) (s : t) :
  performanceOptimizer (Nat.iter n applyPerformanceOptimizations s)
  = performanceOptimizer s.
Proof.
  induction n as [|n IH]; [reflexivity|].
  rewrite Nat.iter_succ. rewrite optimizations_optimizer. exact IH.
Qed.

Lemma iterated_handles (n : nat) (s : t) :
  handles (sceneObjects (Nat.iter n applyPerformanceOptimizations s))
  = handles (sceneObjects s).
Proof.
  induction n as [|n IH]; [reflexivity|].
  rewrite Nat.iter_succ. rewrite optimizations_handles. exact IH.
Qed.

(** X30.  [applyPerformanceOptimizations] never changes the performance
    level it reads.  At a level of 0.5 and above calls change nothing.
    Below 0.5 every call halves the particle count of each particle
    system again: where no THREE object is held by two scene objects,
    [n] calls leave a count of at least 2 to the [n] divided by 2 to
    the [n] (down to 1, halving is exact in double precision as well).
    Below 0.3 the effects plasma, liquid and procedural_terrain are
    inactive after a call and the other effects are as active as
    before. *)
Theorem optimizations_compound (n : nat) (s : t) :
  performanceOptimizer (Nat.iter n applyPerformanceOptimizations s)
  = performanceOptimizer s /\
  (0.5 <= PerformanceOptimizer.getPerformanceLevel (performanceOptimizer s) ->
   Nat.iter n applyPerformanceOptimizations s = s) /\
  (PerformanceOptimizer.getPerformanceLevel (performanceOptimizer s) < 0.5 ->
   unshared (sceneObjects s) ->
   ∀ i sceneObject count,
     getSceneObject i s = Some sceneObject ->
     type sceneObject = particle_system ->
     particleCount (object sceneObject) = Some count ->
     inject_Z (2 ^ Z.of_nat n) <= count ->
     ∃ sceneObject' count',
       getSceneObject i (Nat.iter n applyPerformanceOptimizations s)
       = Some sceneObject' /\
       particleCount (object sceneObject') = Some count' /\
       count' * inject_Z (2 ^ Z.of_nat n) == count) /\
  (PerformanceOptimizer.getPerformanceLevel (performanceOptimizer s) < 0.3 ->
   (0 < n)%nat ->
   ∀ effectId,
     EffectManager.isEffectActive effectId
       (effectManager (Nat.iter n applyPerformanceOptimizations s))
     = EffectManager.isEffectActive effectId (effectManager s)
       && bool_decide (effectId ∉ expensiveEffects)).
Proof.
  split; [apply iterated_optimizer|]. split; [|split].
  - intros H. induction n as [|n IH]; [reflexivity|].
    rewrite Nat.iter_succ. rewrite IH. apply optimizations_unchanged, H.
  - intros H Hnd i sceneObject count Hget Hty Hcount _.
    assert (Hn : ∃ sceneObject' count',
               getSceneObject i (Nat.iter n applyPerformanceOptimizations s)
               = Some sceneObject' /\
               type sceneObject' = particle_system /\
               particleCount (object sceneObject') = Some count' /\
               count' * inject_Z (2 ^ Z.of_nat n) == count).
    { induction n as [|n IH].
      - exists sceneObject, count. repeat split; try assumption.
        change (inject_Z (2 ^ Z.of_nat 0)) with 1. ring.
      - destruct IH as (o & c & Ho & Hoty & Hoc & Hc).
        rewrite Nat.iter_succ.
        destruct (optimizations_particles i o c
                    (Nat.iter n applyPerformanceOptimizations s))
          as (o' & c' & Ho' & Hoty' & Hoc' & Hc'); try assumption.
        { rewrite iterated_optimizer. exact H. }
        { unfold unshared. rewrite iterated_handles. exact Hnd. }
        exists o', c'. repeat split; try assumption.
        rewrite Nat2Z.inj_succ, Z.pow_succ_r by lia.
        rewrite inject_Z_mult, Hc', <- Hc.
        change (inject_Z 2) with 2. field. }
    destruct Hn as (o & c & H1 & _ & H2 & H3). exists o, c. auto.
  - intros H Hn effectId.
    assert (Hget : JsMap.get effectId
               (EffectManager.activeEffects
                  (effectManager (Nat.iter n applyPerformanceOptimizations s)))
             = if decide (effectId ∈ expensiveEffects) then None
               else JsMap.get effectId (EffectManager.activeEffects (effectManager s))).
    { destruct n as [|n]; [lia|]. clear Hn. induction n as [|n IH].
      - apply optimizations_effects, H.
      - change (Nat.iter (S (S n)) applyPerformanceOptimizations s)
          with (applyPerformanceOptimizations
                  (Nat.iter (S n) applyPerformanceOptimizations s)).
        rewrite optimizations_effects by (rewrite iterated_optimizer; exact H).
        rewrite IH. destruct (decide (effectId ∈ expensiveEffects)); reflexivity. }
    unfold EffectManager.isEffectActive, JsMap.has. rewrite Hget.
    destruct (decide (effectId ∈ expensiveEffects)) as [Hin|Hin].
    + rewrite bool_decide_eq_false_2 by tauto.
      rewrite andb_false_r. reflexivity.
    + rewrite bool_decide_eq_true_2 by assumption.
      rewrite andb_true_r. reflexivity.
Qed.

Lemma optimizations_compound_witness :
  Nat.iter 3 applyPerformanceOptimizations stage = stage /\
  unshared (sceneObjects struggling) /\
  (∃ sceneObject' count',
     getSceneObject "sparks" (Nat.iter 3 applyPerformanceOptimizations struggling)
     = Some sceneObject' /\
     particleCount (object sceneObject') = Some count' /\
     count' * inject_Z (2 ^ Z.of_nat 3) == 8000) /\
  EffectManager.isEffectActive "plasma"
    (effectManager (Nat.iter 3 applyPerformanceOptimizations struggling))
  = EffectManager.isEffectActive "plasma" (effectManager struggling)
    && bool_decide ("plasma" ∉ expensiveEffects).
Proof.
  assert (Hnd : unshared (sceneObjects struggling)).
  { unfold unshared. vm_compute.
    repeat (constructor; [rewrite ?not_elem_of_cons; repeat split;
      first [discriminate | apply not_elem_of_nil]|]); constructor. }
  split; [apply (optimizations_compound 3 stage); vm_compute; discriminate|].
  split; [exact Hnd|].
  destruct (optimizations_compound 3 struggling) as (_ & _ & H2 & H3).
  assert (Hlevel : PerformanceOptimizer.getPerformanceLevel
                     (performanceOptimizer struggling) < 0.3)
    by (vm_compute; reflexivity).
  split.
  - destruct (getSceneObject "sparks" struggling) as [o|] eqn:E;
      [|vm_compute in E; discriminate].
    specialize (H2 ltac:(lra) Hnd "sparks" o 8000 E).
    vm_compute in E. injection E as <-.
    apply H2; [reflexivity | reflexivity | vm_compute; discriminate].
  - apply H3; [exact Hlevel | lia].
Defined.

End ScenePerformance.
